(** * Build supervisor of hackday-aegis: the [/api/build-app] route

    A shallow embedding of [web-ui/app/api/build-app/route.ts] (the variant
    with the single-flight lock, the install fingerprint, the static
    validator, the compile gate with bounded repair and the health prober),
    of [AppBuilder.writeFiles] from [lib/app-builder.ts], and the properties
    the specification states about them.

    Further parts embed the validator [findForbiddenNextDocumentUsage] with
    its patterns, the [/api/generate-app] route, the flow of the upload
    page, the first variant of the build route, and [isBad] of the Vite
    variant.

    Conventions of the embedding:
    - a JavaScript string is the list of its UTF-16 code units;
    - the target directory [generated-app] is a finite map from the paths
      below it to nodes; [None] stands for a directory that does not exist;
      paths are POSIX paths and names are compared character by character;
    - a key of the Generator's file mapping reaches the directory through
      [path.join]: the map is keyed by the normalised path, and what a key
      does that climbs above the directory is left to the environment;
    - every [await]ed effect is a function on the [World], which carries the
      directory and the chronological trace of external effects;
    - what the outside does (the npm subprocess, the Generator, the scan of
      the source tree, the HTTP probes, the dev-server streams) is an
      environment [Env]; the theorems quantify over all of them. *)

From Stdlib Require Import ZArith NArith Ascii String List Bool Lia.
From stdpp Require Import gmap strings list.
Import ListNotations.

Local Open Scope N_scope.

(** ** JavaScript strings *)

Definition jsstring : Type := list N.

Definition lit (s : string) : jsstring :=
  map N_of_ascii (list_ascii_of_string s).

(** [s.startsWith(needle)] *)
Fixpoint starts_with (needle s : jsstring) : bool :=
  match needle, s with
  | [], _ => true
  | _ :: _, [] => false
  | n :: needle', c :: s' => (n =? c) && starts_with needle' s'
  end.

(** [s.includes(needle)] *)
Fixpoint includes (s needle : jsstring) : bool :=
  starts_with needle s ||
  match s with
  | [] => false
  | _ :: s' => includes s' needle
  end.

(** White space and line terminators removed by [String.prototype.trim]. *)
Definition is_js_space (c : N) : bool :=
  existsb (N.eqb c)
    [9; 10; 11; 12; 13; 32; 160; 5760; 8192; 8193; 8194; 8195; 8196; 8197;
     8198; 8199; 8200; 8201; 8202; 8232; 8233; 8239; 8287; 12288; 65279].

Fixpoint drop_space (s : jsstring) : jsstring :=
  match s with
  | [] => []
  | c :: s' => if is_js_space c then drop_space s' else s
  end.

Definition trim (s : jsstring) : jsstring :=
  rev (drop_space (rev (drop_space s))).

(** [String(h)] for a non-negative integer: its decimal digits. *)
Fixpoint to_digits (fuel : nat) (n : N) (acc : jsstring) : jsstring :=
  match fuel with
  | O => acc
  | S fuel' =>
      let acc' := (48 + n mod 10) :: acc in
      if n / 10 =? 0 then acc' else to_digits fuel' (n / 10) acc'
  end.

Definition String_of_number (h : N) : jsstring :=
  to_digits (S (N.to_nat (N.log2 h))) h [].

(** ** The target directory and the world *)

Inductive Node : Type :=
| File (content : jsstring)
| Folder.

Inductive Event : Type :=
| EvSpawn (args : list string)        (* spawn('npm', args) *)
| EvRm (path : string)                (* fs.promises.rm below generated-app *)
| EvWriteFile (path : string)         (* fs.promises.writeFile *)
| EvGenerate (errorContext : jsstring)(* builder.generateApp(prompt, ctx) *)
| EvWriteFiles                        (* builder.writeFiles(files) *)
| EvFreePort                          (* the port-3000 cleanup *)
| EvLaunch.                           (* spawn('npm', ['run','dev',...]) *)

Record World : Type := mkWorld {
  fs : option (gmap string Node);
  trace : list Event
}.

Definition emit (e : Event) (w : World) : World :=
  {| fs := fs w; trace := trace w ++ [e] |}.

Definition set_fs (d : option (gmap string Node)) (w : World) : World :=
  {| fs := d; trace := trace w |}.

(** [fs.existsSync(path.join(appDir, name))] *)
Definition existsSync (name : string) (w : World) : bool :=
  match fs w with
  | Some d => bool_decide (is_Some (d !! name))
  | None => false
  end.

(** [fs.existsSync(appDir)] *)
Definition existsSync_appDir (w : World) : bool :=
  bool_decide (is_Some (fs w)).

(** [fs.promises.readFile(p, 'utf-8').catch(() => '')] *)
Definition readFile_or_empty (name : string) (w : World) : jsstring :=
  match fs w with
  | Some d => match d !! name with Some (File c) => c | _ => [] end
  | None => []
  end.

Definition is_file (n : option Node) : bool :=
  match n with
  | Some (File _) => true
  | _ => false
  end.

(** A file, not a directory, stands at [path.join(appDir, name)]. *)
Definition isFile (name : string) (w : World) : bool :=
  match fs w with
  | Some d => is_file (d !! name)
  | None => false
  end.

(** [path] lies below the directory [dir]. *)
Definition below (dir path : string) : bool :=
  String.prefix (dir +:+ "/") path.

Definition remove_tree (name : string) (d : gmap string Node) : gmap string Node :=
  filter (fun entry => entry.1 <> name /\ below name entry.1 = false) d.

Definition remove_file (name : string) (d : gmap string Node) : gmap string Node :=
  if is_file (d !! name) then delete name d else d.

(** [fs.promises.rm(p, { recursive: true, force: true }).catch(() => {})]:
    the node and all that lies below it. *)
Definition rm_rf (name : string) (w : World) : World :=
  emit (EvRm name) (set_fs (remove_tree name <$> fs w) w).

(** [fs.promises.rm(p, { force: true }).catch(() => {})]: a file is removed;
    on a directory the call rejects and the rejection is dropped. *)
Definition rm_f (name : string) (w : World) : World :=
  emit (EvRm name) (set_fs (remove_file name <$> fs w) w).

(** [fs.promises.writeFile(p, content).catch(() => {})]: nothing is written
    when the directory is missing or [p] names a directory. *)
Definition writeFile_quiet (name : string) (content : jsstring) (w : World) : World :=
  let w' := emit (EvWriteFile name) w in
  match fs w with
  | Some d =>
      match d !! name with
      | Some Folder => w'
      | _ => set_fs (Some (<[name := File content]> d)) w'
      end
  | None => w'
  end.

(** ** Results and the effect monad *)

Inductive Res (A : Type) : Type :=
| Ok (a : A)
| Throw (message : jsstring).
Arguments Ok {A} a.
Arguments Throw {A} message.

Definition M (A : Type) : Type := World -> Res A * World.

Definition ret {A} (a : A) : M A := fun w => (Ok a, w).
Definition throw {A} (message : jsstring) : M A := fun w => (Throw message, w).
Definition bind {A B} (m : M A) (k : A -> M B) : M B :=
  fun w => match m w with
           | (Ok a, w') => k a w'
           | (Throw e, w') => (Throw e, w')
           end.
Definition effect (f : World -> World) : M unit := fun w => (Ok tt, f w).
Definition observe {A} (f : World -> A) : M A := fun w => (Ok (f w), w).

Notation "'await' x <- m ; k" := (bind m (fun x => k))
  (at level 10, x name, m at level 100, k at level 200).
Notation "'exec' m ; k" := (bind m (fun _ => k))
  (at level 10, m at level 100, k at level 200).

(** ** The environment *)

(** How the npm child process ends: its [close] event with the exit code
    ([null] when killed by a signal) or its [error] event, each with the
    output captured so far. *)
Inductive ProcOutcome : Type :=
| Close (code : option Z) (output : jsstring)
| SpawnError (output : jsstring) (message : jsstring).

(** What [builder.generateApp] yields: an exception, or the parsed JSON
    object with its [files] property ([None] when the property is absent). *)
Inductive GenOutcome : Type :=
| GenThrows (message : jsstring)
| GenObject (files : option (list (string * jsstring))).

(** One poll of the health prober: a response with its status code, a
    connection error, or the request timeout. *)
Inductive ProbeObs : Type :=
| Status (statusCode : Z)
| ConnError
| ReqTimeout.

Record Env : Type := mkEnv {
  (** the subprocess: how it ends and the directory it leaves *)
  npm : list string -> World -> ProcOutcome * option (gmap string Node);
  (** the result of [findForbiddenNextDocumentUsage]: the scan only reads,
      and which finding it meets first is a matter of the order in which
      [readdir] lists the tree *)
  scan : World -> option jsstring;
  (** the Generator collaborator *)
  generate : jsstring -> jsstring -> World -> GenOutcome;
  (** [process.env.OPENAI_API_KEY] *)
  OPENAI_API_KEY : option jsstring;
  (** the i-th poll of [http://127.0.0.1:3000/] *)
  probe : nat -> ProbeObs;
  (** a ready marker reached the stdout/stderr handlers of the dev server
      before the test that follows the probing loop *)
  stream_ready : bool;
  (** [`${process.pid} ${new Date().toISOString()}\n`] *)
  lock_stamp : jsstring;
  (** a key of the file mapping whose path climbs above the target
      directory: whether the [mkdir] and the [writeFile] at
      [path.join(appDir, key)] throw, and the target directory afterwards
      (such a path may lead back into it) *)
  write_outside : string -> jsstring -> World
                  -> option jsstring * gmap string Node
}.

Record NpmResult : Type := mkNpmResult {
  code : Z;
  output : jsstring
}.

Section Pipeline.

Variable E : Env.

(** [runNpm(args, label)] *)
Definition runNpm (args : list string) (label : jsstring) : M NpmResult :=
  fun w =>
    let w1 := emit (EvSpawn args) w in
    let '(outcome, d) := npm E args w1 in
    let res :=
      match outcome with
      | Close c out => {| code := default 1%Z c; output := out |}
      | SpawnError out msg =>
          {| code := 1%Z;
             output := out ++ lit "
" ++ label ++ lit " spawn error: " ++ msg |}
      end in
    (Ok res, set_fs d w1).

(** [looksLikeCorruptInstall(output)] *)
Definition corruption_signals : list jsstring :=
  [ lit "TAR_ENTRY_ERROR";
    lit "ENOENT: no such file or directory, open";
    lit "Cannot find module";
    lit "@swc/helpers";
    lit "caniuse-lite/dist/unpacker/agents" ].

Definition looksLikeCorruptInstall (output : jsstring) : bool :=
  existsb (includes output) corruption_signals.

(** [cleanGeneratedAppBuildState(reason)] *)
Definition cleanGeneratedAppBuildState : M unit :=
  exec effect (rm_rf ".next");
  exec effect (rm_rf "node_modules");
  exec effect (rm_f "package-lock.json");
  effect (rm_f ".install.hash").

(** [computeInstallHash()] *)
Definition hash_step (h c : N) : N := (h * 31 + c) mod 2 ^ 32.

Definition install_hash_data (w : World) : jsstring :=
  readFile_or_empty "package.json" w ++ lit "
---
" ++ readFile_or_empty "package-lock.json" w.

Definition computeInstallHash (w : World) : jsstring :=
  String_of_number (fold_left hash_step (install_hash_data w) 0).

(** [runNpmInstallWithFallback()] *)
Definition runNpmInstallWithFallback : M unit :=
  await desiredHash <- observe computeInstallHash;
  await lastHash <- observe (readFile_or_empty ".install.hash");
  await hasModules <- observe (existsSync "node_modules");
  if bool_decide (trim lastHash = desiredHash) && hasModules then ret tt
  else
    await hasLock <- observe (existsSync "package-lock.json");
    let installCmd := if hasLock then ["ci"%string] else ["install"%string] in
    let label := if hasLock then lit "npm ci" else lit "npm install" in
    await first <- runNpm installCmd label;
    if (code first =? 0)%Z then
      effect (writeFile_quiet ".install.hash" desiredHash)
    else if looksLikeCorruptInstall (output first) then
      exec cleanGeneratedAppBuildState;
      await retry <- runNpm installCmd (label ++ lit " (retry)");
      if (code retry =? 0)%Z then
        effect (writeFile_quiet ".install.hash" desiredHash)
      else
        throw (label ++ lit " failed even after cleaning.

" ++ output retry)
    else if negb hasLock then
      await second <- runNpm ["install"; "--legacy-peer-deps"]%string
                             (lit "npm install --legacy-peer-deps");
      if (code second =? 0)%Z then
        effect (writeFile_quiet ".install.hash" desiredHash)
      else
        exec (if looksLikeCorruptInstall (output second)
              then cleanGeneratedAppBuildState else ret tt);
        throw (lit "npm install failed.

" ++ (match output second with [] => output first | o => o end))
    else
      throw (label ++ lit " failed.

" ++ output first).

(** [runCompileGate()] *)
Definition runCompileGate : M (bool * jsstring) :=
  await res <- runNpm ["run"; "build"]%string (lit "npm run build");
  ret ((code res =? 0)%Z, output res).

(** ** Paths of the file mapping

    [writeFiles] takes every key of the mapping through
    [path.join(this.appDir, filePath)], which normalises the path: empty
    segments and [.] vanish, [..] steps back. Paths are POSIX paths. *)

(** The segments of a path between its slashes. *)
Fixpoint split_from (segment rest : string) : list string :=
  match rest with
  | EmptyString => [segment]
  | String c rest' =>
      if Ascii.eqb c "/" then segment :: split_from EmptyString rest'
      else split_from (segment +:+ String c EmptyString) rest'
  end.

Definition split_path (p : string) : list string := split_from EmptyString p.

(** Where [path.join(appDir, filePath)] lies relative to the target
    directory: the names that lead to it, [[]] for the directory itself,
    [None] as soon as the path climbs above the directory. [stack] holds
    the names passed so far, the last one first. *)
Fixpoint resolve_from (stack segments : list string) : option (list string) :=
  match segments with
  | [] => Some (rev stack)
  | s :: rest =>
      if bool_decide (s = EmptyString) || bool_decide (s = "."%string)
      then resolve_from stack rest
      else if bool_decide (s = ".."%string) then
        match stack with
        | [] => None
        | _ :: stack' => resolve_from stack' rest
        end
      else resolve_from (s :: stack) rest
  end.

Definition resolve (filePath : string) : option (list string) :=
  resolve_from [] (split_path filePath).

(** The key of the directory map for a place below the target directory. *)
Definition rel_path (names : list string) : string := String.concat "/" names.

(** [path.join] keeps a trailing slash. *)
Fixpoint ends_with_slash (p : string) : bool :=
  match p with
  | EmptyString => false
  | String c EmptyString => Ascii.eqb c "/"
  | String _ rest => ends_with_slash rest
  end.

(** The [fs] functions reject a path that holds a null byte. *)
Definition has_nul (p : string) : bool :=
  existsb (Ascii.eqb Ascii.zero) (list_ascii_of_string p).

(** The directories from the target directory down to
    [path.dirname(fullPath)], the outermost first. *)
Fixpoint dirs_from (prefix names : list string) : list string :=
  match names with
  | [] => []
  | s :: rest =>
      match rest with
      | [] => []
      | _ :: _ => rel_path (prefix ++ [s]) :: dirs_from (prefix ++ [s]) rest
      end
  end.

Definition dirs_above (names : list string) : list string := dirs_from [] names.

(** [fs.promises.mkdir(dir, { recursive: true })] *)
Definition mkdir_p (dirs : list string) : M unit :=
  fun w =>
    match fs w with
    | None => (Throw (lit "ENOENT"), w)
    | Some d =>
        if existsb (fun a => is_file (d !! a)) dirs
        then (Throw (lit "EEXIST"), w)
        else (Ok tt, set_fs (Some (foldr (fun a m => <[a := Folder]> m) d dirs)) w)
    end.

(** [fs.promises.writeFile(fullPath, content, 'utf-8')] *)
Definition writeFile (name : string) (content : jsstring) : M unit :=
  fun w =>
    match fs w with
    | None => (Throw (lit "ENOENT"), w)
    | Some d =>
        match d !! name with
        | Some Folder => (Throw (lit "EISDIR"), w)
        | _ => (Ok tt, emit (EvWriteFile name)
                         (set_fs (Some (<[name := File content]> d)) w))
        end
    end.

(** One turn of the loop over [Object.entries(files)]:
    [fullPath = path.join(appDir, filePath)], [mkdir] of its [dirname],
    [writeFile]. A path that names the target directory itself or ends in
    a slash cannot be opened for writing; what a path above the target
    directory does is the environment's. *)
Definition write_entry (filePath : string) (content : jsstring) : M unit :=
  match resolve filePath with
  | None =>
      fun w =>
        let '(failure, d) := write_outside E filePath content w in
        match failure with
        | Some message => (Throw message, set_fs (Some d) w)
        | None => (Ok tt, emit (EvWriteFile filePath) (set_fs (Some d) w))
        end
  | Some names =>
      if existsb has_nul (removelast names)
      then throw (lit "ERR_INVALID_ARG_VALUE")
      else
        exec mkdir_p (dirs_above names);
        if has_nul (rel_path names) then throw (lit "ERR_INVALID_ARG_VALUE")
        else if bool_decide (names = []) || ends_with_slash filePath
             then throw (lit "EISDIR")
             else writeFile (rel_path names) content
  end.

(** [builder.writeFiles(files)]: the directory is removed and created anew,
    then every entry is written, its parent directories first. *)
Fixpoint write_entries (entries : list (string * jsstring)) : M unit :=
  match entries with
  | [] => ret tt
  | (filePath, content) :: rest =>
      exec write_entry filePath content;
      write_entries rest
  end.

Definition writeFiles (files : option (list (string * jsstring))) : M unit :=
  exec effect (emit EvWriteFiles);
  exec effect (set_fs (Some ∅));
  match files with
  | None => throw (lit "Cannot convert undefined or null to object")
  | Some entries => write_entries entries
  end.

(** [maybeAutoRepair(errorContext)]; [falsy] is JavaScript's [!s] for an
    optional string. *)
Definition falsy (s : option jsstring) : bool :=
  match s with
  | Some (_ :: _) => false
  | _ => true
  end.

Definition maybeAutoRepair (prompt : option jsstring) (errorContext : jsstring)
  : M bool :=
  if falsy prompt then ret false
  else if falsy (OPENAI_API_KEY E) then ret false
  else
    exec effect (emit (EvGenerate errorContext));
    await repaired <- observe (generate E (default [] prompt) errorContext);
    match repaired with
    | GenThrows e => throw e
    | GenObject files => exec writeFiles files; ret true
    end.

(** ** Responses of the route

    Of the JSON body and the status the record keeps [status], [success],
    [error], [suggestion], and under [stderr] the build output that the
    responses of the compile gate carry. The other properties of the body
    ([logs], [message], [url], [pid], [stdout]) are left out, and so are
    the dev server's streams that the two responses of the prober carry. *)

Record Response : Type := mkResponse {
  status : Z;
  success : bool;
  error : option jsstring;
  stderr : option jsstring;
  suggestion : option jsstring
}.

Definition failure (st : Z) (err : jsstring) (serr sugg : option jsstring)
  : Response :=
  {| status := st; success := false; error := Some err;
     stderr := serr; suggestion := sugg |}.

Definition response_busy : Response :=
  failure 409 (lit "Build already in progress. Please wait for the current build to finish and try again.")
    None None.

Definition response_not_found : Response :=
  failure 404 (lit "Generated app directory not found") None None.

Definition response_forbidden_terminal (forbidden : jsstring) : Response :=
  failure 500 (lit "Forbidden Next.js usage detected: " ++ forbidden) None
    (Some (lit "Remove any use of next/document or <Html>/<Head>/<Main>/<NextScript>. This project uses App Router; only use lowercase <html>/<body> in app/layout.tsx.")).

Definition response_forbidden_no_repair : Response :=
  failure 500 (lit "Forbidden Next.js usage detected and auto-repair was not possible (missing prompt or OPENAI_API_KEY)")
    None
    (Some (lit "Provide the prompt to /api/build-app and ensure OPENAI_API_KEY is configured so auto-repair can run.")).

Definition response_compile_terminal (out : jsstring) : Response :=
  failure 500 (lit "Compile gate failed: next build did not succeed")
    (Some out)
    (Some (lit "The generated app has a compile error. Try regenerating or inspect generated-app/app/page.tsx around the reported line.")).

Definition response_compile_no_repair (out : jsstring) : Response :=
  failure 500 (lit "Compile gate failed and auto-repair was not possible (missing prompt or OPENAI_API_KEY)")
    (Some out) None.

Definition response_runtime_failure : Response :=
  failure 500 (lit "Server started but is returning 500 errors. Likely a compilation/build error in the generated app.")
    None
    (Some (lit "Check the generated app files for errors. Common issues: missing "
             ++ [34] ++ lit "use client" ++ [34]
             ++ lit " directive, invalid imports, or syntax errors.")).

Definition response_timeout : Response :=
  failure 500 (lit "Dev server failed to start within 30 seconds") None None.

Definition response_success : Response :=
  {| status := 200; success := true; error := None;
     stderr := None; suggestion := None |}.

Definition response_fatal (message : jsstring) : Response :=
  failure 500 message None None.

(** ** The repair loop *)

Definition MAX_REPAIR_ATTEMPTS : nat := 2.

Definition forbidden_context (forbidden : jsstring) : jsstring :=
  lit "FORBIDDEN NEXT.JS USAGE DETECTED: " ++ forbidden ++ lit "

This project uses Next.js App Router (app/). You MUST remove all imports from 'next/document' and remove any usage of <Html>, <Head>, <Main>, <NextScript> components.

Fix the project and return the full corrected JSON with ALL required files.".

Definition build_context (attempt : nat) (out : jsstring) : jsstring :=
  lit "next build failed (attempt "
    ++ String_of_number (N.of_nat (attempt + 1)) ++ lit "/"
    ++ String_of_number (N.of_nat MAX_REPAIR_ATTEMPTS)
    ++ lit "). Here is the full output:

" ++ out.

(** How the [for] loop is left: by [break] after a passing build, by its
    condition [attempt <= MAX_REPAIR_ATTEMPTS] turning false, or by a
    [return] of a response. [OutOfFuel] is the embedding's own and is never
    produced from the fuel [POST] passes ([repair_loop_fuel]). *)
Inductive LoopExit : Type :=
| GatePassed
| LoopEnded
| Return (r : Response)
| OutOfFuel.

Fixpoint repair_loop (prompt : option jsstring) (fuel attempt : nat)
  : M LoopExit :=
  match fuel with
  | O => ret OutOfFuel
  | S fuel' =>
      if negb (attempt <=? MAX_REPAIR_ATTEMPTS)%nat then ret LoopEnded
      else
        await forbidden <- observe (scan E);
        if negb (falsy forbidden) then
          let finding := default [] forbidden in
          if (attempt =? MAX_REPAIR_ATTEMPTS)%nat then
            ret (Return (response_forbidden_terminal finding))
          else
            await repaired <- maybeAutoRepair prompt (forbidden_context finding);
            if negb repaired then ret (Return response_forbidden_no_repair)
            else
              exec runNpmInstallWithFallback;
              repair_loop prompt fuel' (S attempt)            (* continue *)
        else
          await buildRes <- runCompileGate;
          if fst buildRes then ret GatePassed                 (* break *)
          else if looksLikeCorruptInstall (snd buildRes) then
            exec cleanGeneratedAppBuildState;
            exec runNpmInstallWithFallback;
            repair_loop prompt fuel' (S attempt)              (* continue *)
          else if (attempt =? MAX_REPAIR_ATTEMPTS)%nat then
            ret (Return (response_compile_terminal (snd buildRes)))
          else
            await repaired <-
              maybeAutoRepair prompt (build_context attempt (snd buildRes));
            if negb repaired then
              ret (Return (response_compile_no_repair (snd buildRes)))
            else
              exec runNpmInstallWithFallback;
              repair_loop prompt fuel' (S attempt)
  end.

(** ** The health prober *)

Definition MAX_CONSECUTIVE_500 : nat := 5.
Definition PROBE_ATTEMPTS : nat := 30.

(** [statusCode >= 200 && statusCode < 500] of a response; an error or a
    timeout resolves with [ready: false, statusCode: null]. *)
Definition obs_ready (o : ProbeObs) : bool :=
  match o with
  | Status c => (200 <=? c)%Z && (c <? 500)%Z
  | _ => false
  end.

Definition obs_is_500 (o : ProbeObs) : bool :=
  match o with
  | Status c => (c =? 500)%Z
  | _ => false
  end.

Inductive ProbeExit : Type :=
| ExitReady             (* break with serverReady = true *)
| ExitRuntimeFailure    (* return of the 500-errors response *)
| ExitLoopEnd           (* i < 30 turned false *)
| ExitNoFuel.

(** The probing loop from poll [i] with the counter [consecutive500Errors];
    the second component is the number of polls made when it is left. *)
Fixpoint probe_loop (fuel i consecutive500Errors : nat) : ProbeExit * nat :=
  match fuel with
  | O => (ExitNoFuel, i)
  | S fuel' =>
      if negb (i <? PROBE_ATTEMPTS)%nat then (ExitLoopEnd, i)
      else
        let serverStatus := probe E i in
        let counter :=
          if obs_is_500 serverStatus then S consecutive500Errors else O in
        if obs_is_500 serverStatus && (MAX_CONSECUTIVE_500 <=? counter)%nat
        then (ExitRuntimeFailure, S i)
        else if obs_ready serverStatus then (ExitReady, S i)
        else probe_loop fuel' (S i) counter
  end.

Inductive Health : Type :=
| Ready
| Timeout
| RuntimeFailure.

(** The loop and the test [if (!serverReady)] after it: [serverReady] is
    set by the loop's [break] and by the stream handlers. *)
Definition awaitReady : Health :=
  match fst (probe_loop (S PROBE_ATTEMPTS) 0 0) with
  | ExitRuntimeFailure => RuntimeFailure
  | ExitReady => Ready
  | _ => if stream_ready E then Ready else Timeout
  end.

Definition response_of_health (h : Health) : Response :=
  match h with
  | Ready => response_success
  | Timeout => response_timeout
  | RuntimeFailure => response_runtime_failure
  end.

(** ** The route handler *)

Definition lockPath : string := ".build.lock".

(** [fs.promises.open(lockPath, 'wx')] followed by the write of the stamp:
    [false] when the [open] rejects (the marker exists, or the directory
    that should hold it does not). *)
Definition acquire_lock (stamp : jsstring) : M bool :=
  fun w =>
    match fs w with
    | None => (Ok false, w)
    | Some d =>
        match d !! lockPath with
        | Some _ => (Ok false, w)
        | None => (Ok true, set_fs (Some (<[lockPath := File stamp]> d)) w)
        end
    end.

(** The [finally] block. *)
Definition release_lock (w : World) : World := rm_f lockPath w.

Definition launch_stage : M Response :=
  exec effect (emit EvFreePort);
  exec effect (emit EvLaunch);
  ret (response_of_health awaitReady).

(** The body of the outer [try]. *)
Definition POST_try (prompt : option jsstring) : M Response :=
  await locked <- acquire_lock (lock_stamp E);
  if negb locked then ret response_busy
  else
    await present <- observe existsSync_appDir;
    if negb present then ret response_not_found
    else
      exec runNpmInstallWithFallback;
      await exit <- repair_loop prompt (S (S MAX_REPAIR_ATTEMPTS)) 0;
      match exit with
      | Return r => ret r
      | _ => launch_stage
      end.

(** [POST(request)]: [try { ... } catch (error) { 500 } finally { release }]. *)
Definition POST (prompt : option jsstring) (w : World) : Response * World :=
  let '(r, w') := POST_try prompt w in
  let response :=
    match r with
    | Ok response => response
    | Throw message => response_fatal message
    end in
  (response, release_lock w').

End Pipeline.

(** ** The compile gate of the Vite variant of the route

    The later variant of the same handler, which builds with [vite build],
    removes the build output [dist] before every build. *)
Definition runCompileGate_vite (E : Env) : M (bool * jsstring) :=
  exec effect (rm_rf "dist");
  await res <- runNpm E ["run"; "build"]%string (lit "npm run build");
  ret ((code res =? 0)%Z, output res).

(** ** Reading the trace *)

Definition is_generate (e : Event) : bool :=
  match e with EvGenerate _ => true | _ => false end.

Definition is_spawn (e : Event) : bool :=
  match e with EvSpawn _ => true | _ => false end.

Definition is_build (e : Event) : bool :=
  match e with
  | EvSpawn args => bool_decide (args = ["run"; "build"]%string)
  | _ => false
  end.

Definition is_launch (e : Event) : bool :=
  match e with EvLaunch => true | _ => false end.

Definition count (p : Event -> bool) (w : World) : nat :=
  length (List.filter p (trace w)).

(** ** Vocabulary of the statements *)

(** The code units of the decimal digits. *)
Definition is_digit (c : N) : Prop := 48 <= c <= 57.

(** The number a string of decimal digits denotes, after the prefix [acc]. *)
Fixpoint digits_value (s : jsstring) (acc : N) : N :=
  match s with
  | [] => acc
  | d :: s' => digits_value s' (acc * 10 + (d - 48))
  end.

Definition exit_status (o : ProcOutcome) : option Z :=
  match o with
  | Close c _ => c
  | SpawnError _ _ => None
  end.

Definition captured (o : ProcOutcome) : jsstring :=
  match o with
  | Close _ out => out
  | SpawnError out _ => out
  end.

(** The build subprocess as [runCompileGate] starts it in the world [w]. *)
Definition build_outcome (E : Env) (w : World) : ProcOutcome :=
  fst (npm E ["run"; "build"]%string (emit (EvSpawn ["run"; "build"]%string) w)).

Definition installCmd (w : World) : list string :=
  if existsSync "package-lock.json" w then ["ci"%string] else ["install"%string].

Definition installLabel (w : World) : jsstring :=
  if existsSync "package-lock.json" w then lit "npm ci" else lit "npm install".

(** The test that lets [runNpmInstallWithFallback] return at once. *)
Definition skip_install (w : World) : bool :=
  bool_decide (trim (readFile_or_empty ".install.hash" w) = computeInstallHash w)
  && existsSync "node_modules" w.

Definition cleaned (w : World) : World :=
  snd (cleanGeneratedAppBuildState w).

(** Removals only take away: what the directory holds afterwards it held
    before. *)
Definition shrinks (w w' : World) : Prop :=
  forall d', fs w' = Some d' -> exists d, fs w = Some d /\ d' ⊆ d.

(** The world in which the build subprocess starts. *)
Definition build_start (w : World) : World :=
  emit (EvSpawn ["run"; "build"]%string) w.

(** The world in which the Generator is called. *)
Definition generate_start (ctx : jsstring) (w : World) : World :=
  emit (EvGenerate ctx) w.

(** Words for the sequence of polls. *)
Definition no_ready_before (E : Env) (n : nat) : Prop :=
  forall j, (j < n)%nat -> obs_ready (probe E j) = false.

Definition no_five_500_before (E : Env) (n : nat) : Prop :=
  forall k, (k + 5 <= n)%nat ->
    exists j, (k <= j < k + 5)%nat /\ obs_is_500 (probe E j) = false.

Definition five_500_from (E : Env) (k : nat) : Prop :=
  forall j, (k <= j < k + 5)%nat -> obs_is_500 (probe E j) = true.

(** Calls of the Generator recorded in the trace. *)
Definition gen_calls (w : World) : nat := count is_generate w.

(** [m] adds at most [n] calls of the Generator to the trace. *)
Definition adds_at_most {A} (n : nat) (m : M A) : Prop :=
  forall w r w', m w = (r, w') -> (gen_calls w' <= gen_calls w + n)%nat.

(** ** Concurrent requests against one directory

    The handler is single-threaded between two [await]s; requests
    interleave at them. A request is [Arriving] until its
    [fs.promises.open(lockPath, 'wx')] settles, [Building] once it holds the
    marker and runs the pipeline, [Rejected] once the [open] has failed and
    the 409 response is the pending [return], and [Finished] after its
    [finally] block. *)
Module SingleFlight.

Inductive Phase : Type :=
| Arriving
| Building
| Rejected
| Finished.

Record System : Type := mkSystem {
  shared : World;              (* the directory all requests work on *)
  requests : list Phase        (* the requests, by number *)
}.

Inductive Action : Type :=
| Enter (r : nat)              (* request r runs up to and through the open *)
| Repair (r : nat) (E : Env) (files : option (list (string * jsstring)))
                               (* request r, building, runs writeFiles *)
| Leave (r : nat).             (* request r returns; its finally block runs *)

Definition step (stamp : jsstring) (s : System) (a : Action) : System :=
  match a with
  | Enter r =>
      match requests s !! r with
      | Some Arriving =>
          match acquire_lock stamp (shared s) with
          | (Ok true, w) =>
              {| shared := w; requests := <[r := Building]> (requests s) |}
          | (_, w) =>
              {| shared := w; requests := <[r := Rejected]> (requests s) |}
          end
      | _ => s
      end
  | Repair r E files =>
      match requests s !! r with
      | Some Building =>
          {| shared := snd (writeFiles E files (shared s));
             requests := requests s |}
      | _ => s
      end
  | Leave r =>
      match requests s !! r with
      | Some Building | Some Rejected =>
          {| shared := release_lock (shared s);
             requests := <[r := Finished]> (requests s) |}
      | _ => s
      end
  end.

Definition run (stamp : jsstring) (s : System) (schedule : list Action)
  : System :=
  fold_left (step stamp) schedule s.

Definition is_building (p : Phase) : bool :=
  match p with Building => true | _ => false end.

(** The requests that are past the lock and not yet finished. *)
Definition in_flight (s : System) : nat :=
  length (List.filter is_building (requests s)).

Definition lock_present (s : System) : bool :=
  existsSync lockPath (shared s).

(** The lock does its work: nobody is past it, or one request is and its
    marker is in place. *)
Definition guarded (s : System) : Prop :=
  in_flight s = 0%nat
  \/ (in_flight s = 1%nat /\ isFile lockPath (shared s) = true).

(** A schedule in which no rejected request gets to return and no build
    gets to a repair. *)
Definition keeps_out (s : System) (a : Action) : Prop :=
  match a with
  | Enter _ => True
  | Repair _ _ _ => False
  | Leave r => requests s !! r <> Some Rejected
  end.

Fixpoint rejected_never_return (stamp : jsstring) (s : System)
    (schedule : list Action) : Prop :=
  match schedule with
  | [] => True
  | a :: rest =>
      keeps_out s a /\ rejected_never_return stamp (step stamp s a) rest
  end.

(** Three requests arrive at an existing, unlocked directory. *)
Definition three_requests : System :=
  {| shared := {| fs := Some ∅; trace := [] |};
     requests := [Arriving; Arriving; Arriving] |}.

End SingleFlight.

(** ** Concrete directories and environments *)

Module Scenario.

Definition package_json : jsstring := lit "{}".

Definition build_args : list string := ["run"; "build"]%string.

(** A directory with a manifest and no lock marker. *)
Definition fresh_dir : gmap string Node :=
  {[ "package.json"%string := File package_json ]}.

Definition fresh : World := {| fs := Some fresh_dir; trace := [] |}.

(** The same directory after a successful install: the packages and the
    fingerprint of the manifest are there. *)
Definition installed : World :=
  {| fs := Some (<[".install.hash"%string := File (computeInstallHash fresh)]>
                   (<["node_modules"%string := Folder]> fresh_dir));
     trace := [] |}.

(** The same, with the build output of an earlier build. *)
Definition built : World :=
  set_fs (insert ".next"%string Folder <$> fs installed) installed.

(** The same directory while another request holds the lock. *)
Definition locked : World :=
  set_fs (insert lockPath (File (lit "4242 2024-01-01T00:00:00.000Z")) <$> fs fresh)
         fresh.

(** A subprocess that installs what it is asked to install. *)
Definition npm_installs (w : World) : option (gmap string Node) :=
  insert "node_modules"%string Folder <$> fs w.

(** An environment in which everything works: installs and builds exit
    with status 0, the scan finds nothing, the server answers 200. *)
Definition healthy : Env :=
  {| npm := fun args w =>
       if bool_decide (args = build_args) then (Close (Some 0%Z) [], fs w)
       else (Close (Some 0%Z) [], npm_installs w);
     scan := fun _ => None;
     generate := fun _ _ _ => GenObject (Some [("package.json"%string, package_json)]);
     OPENAI_API_KEY := Some (lit "sk-test");
     probe := fun _ => Status 200;
     stream_ready := false;
     lock_stamp := lit "4243 2024-01-01T00:00:01.000Z";
     write_outside := fun _ _ w => (None, default ∅ (fs w)) |}.

(** Every build fails on a module the generated code imports and does
    not provide; the compiler's message contains [Cannot find module]. *)
Definition missing_module : Env :=
  {| npm := fun args w =>
       if bool_decide (args = build_args)
       then (Close (Some 1%Z) (lit "Type error: Cannot find module './widget'"), fs w)
       else (Close (Some 0%Z) [], npm_installs w);
     scan := scan healthy;
     generate := generate healthy;
     OPENAI_API_KEY := OPENAI_API_KEY healthy;
     probe := probe healthy;
     stream_ready := false;
     lock_stamp := lock_stamp healthy;
     write_outside := write_outside healthy |}.

(** The first build fails on a truncated archive entry (an environment
    fault); every later build fails on a type error (a code fault). *)
Definition one_environment_fault : Env :=
  {| npm := fun args w =>
       if bool_decide (args = build_args) then
         if (count is_build w =? 1)%nat
         then (Close (Some 1%Z) (lit "npm warn tar TAR_ENTRY_ERROR ENOENT"), fs w)
         else (Close (Some 1%Z) (lit "Type error: 'x' is not assignable"), fs w)
       else (Close (Some 0%Z) [], npm_installs w);
     scan := scan healthy;
     generate := generate healthy;
     OPENAI_API_KEY := OPENAI_API_KEY healthy;
     probe := probe healthy;
     stream_ready := false;
     lock_stamp := lock_stamp healthy;
     write_outside := write_outside healthy |}.

(** The build exits with status 1 and prints the word success. *)
Definition lying_build : Env :=
  {| npm := fun args w =>
       if bool_decide (args = build_args)
       then (Close (Some 1%Z) (lit "Build success"), fs w)
       else (Close (Some 0%Z) [], npm_installs w);
     scan := scan healthy;
     generate := generate healthy;
     OPENAI_API_KEY := None;
     probe := probe healthy;
     stream_ready := false;
     lock_stamp := lock_stamp healthy;
     write_outside := write_outside healthy |}.

(** The install fails on a truncated archive entry, twice. *)
Definition corrupt_install : Env :=
  {| npm := fun args w =>
       (Close (Some 1%Z) (lit "npm ERR! TAR_ENTRY_ERROR ENOENT"), fs w);
     scan := scan healthy;
     generate := generate healthy;
     OPENAI_API_KEY := None;
     probe := probe healthy;
     stream_ready := false;
     lock_stamp := lock_stamp healthy;
     write_outside := write_outside healthy |}.

(** Every build fails on a type error. *)
Definition npm_type_error (args : list string) (w : World)
  : ProcOutcome * option (gmap string Node) :=
  if bool_decide (args = build_args)
  then (Close (Some 1%Z) (lit "Type error: 'x' is not assignable"), fs w)
  else (Close (Some 0%Z) [], npm_installs w).

(** The build fails and the Generator answers with an empty file mapping. *)
Definition empty_mapping : Env :=
  {| npm := npm_type_error;
     scan := scan healthy;
     generate := fun _ _ _ => GenObject (Some []);
     OPENAI_API_KEY := OPENAI_API_KEY healthy;
     probe := probe healthy;
     stream_ready := false;
     lock_stamp := lock_stamp healthy;
     write_outside := write_outside healthy |}.

(** The build fails and the Generator answers with an object that has no
    [files] property. *)
Definition missing_mapping : Env :=
  {| npm := npm_type_error;
     scan := scan healthy;
     generate := fun _ _ _ => GenObject None;
     OPENAI_API_KEY := OPENAI_API_KEY healthy;
     probe := probe healthy;
     stream_ready := false;
     lock_stamp := lock_stamp healthy;
     write_outside := write_outside healthy |}.

(** The dev server prints its ready banner and never answers a probe. *)
Definition banner_only : Env :=
  {| npm := npm healthy;
     scan := scan healthy;
     generate := generate healthy;
     OPENAI_API_KEY := OPENAI_API_KEY healthy;
     probe := fun _ => ConnError;
     stream_ready := true;
     lock_stamp := lock_stamp healthy;
     write_outside := write_outside healthy |}.

(** Neither banner nor answer. *)
Definition silent : Env :=
  {| npm := npm healthy;
     scan := scan healthy;
     generate := generate healthy;
     OPENAI_API_KEY := OPENAI_API_KEY healthy;
     probe := fun _ => ReqTimeout;
     stream_ready := false;
     lock_stamp := lock_stamp healthy;
     write_outside := write_outside healthy |}.

(** Two errors, one 404-free pause, then five errors in a row. *)
Definition broken_app : Env :=
  {| npm := npm healthy;
     scan := scan healthy;
     generate := generate healthy;
     OPENAI_API_KEY := OPENAI_API_KEY healthy;
     probe := fun i => if (i =? 2)%nat then ConnError else Status 500;
     stream_ready := true;
     lock_stamp := lock_stamp healthy;
     write_outside := write_outside healthy |}.

Definition prompt : option jsstring := Some (lit "a todo list").

End Scenario.

(** ** Counting events along a run *)

(** [m] leaves the events that satisfy [p] in place and adds at most [n]
    of them. *)
Definition adds_events {A} (p : Event -> bool) (n : nat) (m : M A) : Prop :=
  forall w r w', m w = (r, w') ->
    (count p w <= count p w' <= count p w + n)%nat.

(** Predicates that look at subprocesses and launches only. *)
Definition blind_to_files (p : Event -> bool) : Prop :=
  (forall name, p (EvRm name) = false)
  /\ (forall name, p (EvWriteFile name) = false)
  /\ p EvWriteFiles = false.

Definition blind_to_generator (p : Event -> bool) : Prop :=
  forall ctx, p (EvGenerate ctx) = false.

(** ** Further environments *)

Module Worst.

(** An install succeeds only as the retry that follows a failed install and
    its cleaning; every build and every other install fail on a truncated
    archive entry. *)
Definition after_failed_install (w : World) : bool :=
  match rev (trace w) with
  | _ :: EvRm _ :: EvRm _ :: EvRm _ :: EvRm _ :: EvSpawn args :: _ =>
      negb (bool_decide (args = Scenario.build_args))
  | _ => false
  end.

Definition stubborn : Env :=
  {| npm := fun args w =>
       if bool_decide (args = Scenario.build_args)
       then (Close (Some 1%Z) (lit "TAR_ENTRY_ERROR"), fs w)
       else if after_failed_install w
            then (Close (Some 0%Z) [], Scenario.npm_installs w)
            else (Close (Some 1%Z) (lit "TAR_ENTRY_ERROR"), fs w);
     scan := scan Scenario.healthy;
     generate := generate Scenario.healthy;
     OPENAI_API_KEY := OPENAI_API_KEY Scenario.healthy;
     probe := probe Scenario.healthy;
     stream_ready := false;
     lock_stamp := lock_stamp Scenario.healthy;
     write_outside := write_outside Scenario.healthy |}.

(** A peer-dependency conflict: the plain install fails, the install with
    [--legacy-peer-deps] succeeds. *)
Definition peer_conflict : Env :=
  {| npm := fun args w =>
       if bool_decide (args = ["install"%string])
       then (Close (Some 1%Z) (lit "npm ERR! ERESOLVE unable to resolve"), fs w)
       else (Close (Some 0%Z) [], Scenario.npm_installs w);
     scan := scan Scenario.healthy;
     generate := generate Scenario.healthy;
     OPENAI_API_KEY := OPENAI_API_KEY Scenario.healthy;
     probe := probe Scenario.healthy;
     stream_ready := false;
     lock_stamp := lock_stamp Scenario.healthy;
     write_outside := write_outside Scenario.healthy |}.

(** A directory with a manifest and a lockfile. *)
Definition with_lockfile : World :=
  set_fs (insert "package-lock.json"%string (File (lit "{}")) <$> fs Scenario.fresh)
         Scenario.fresh.

(** [npm ci] fails on a network error. *)
Definition offline : Env :=
  {| npm := fun args w => (Close (Some 1%Z) (lit "npm ERR! network ETIMEDOUT"), fs w);
     scan := scan Scenario.healthy;
     generate := generate Scenario.healthy;
     OPENAI_API_KEY := OPENAI_API_KEY Scenario.healthy;
     probe := probe Scenario.healthy;
     stream_ready := false;
     lock_stamp := lock_stamp Scenario.healthy;
     write_outside := write_outside Scenario.healthy |}.

End Worst.

(** No directory stands where the fingerprint is kept. *)
Definition hash_path_free (w : World) : Prop :=
  forall d, fs w = Some d -> d !! ".install.hash"%string <> Some Folder.

(** ** The static validator [findForbiddenNextDocumentUsage] *)

Module Validator.

(** What [readdir] and [readFile] show of the tree below the target
    directory: the entries of a directory in the order [readdir] lists
    them; a file with the text [readFile] gives for it (the empty string
    when the read fails). *)
#[local] Unset Elimination Schemes.
Inductive Entry : Type :=
| EFile (name content : jsstring)
| EDir (name : jsstring) (children : list Entry).
#[local] Set Elimination Schemes.

Definition entry_name (e : Entry) : jsstring :=
  match e with
  | EFile n _ => n
  | EDir n _ => n
  end.

(** [\w] in a regular expression without flags: [[A-Za-z0-9_]]. *)
Definition is_word (c : N) : bool :=
  ((48 <=? c) && (c <=? 57)) || ((65 <=? c) && (c <=? 90))
  || ((97 <=? c) && (c <=? 122)) || (c =? 95).

(** A single or a double quote. *)
Definition is_quote (c : N) : bool := (c =? 39) || (c =? 34).

(** The rest of [s] after the literal [p], when [s] starts with it. *)
Fixpoint after (p s : jsstring) : option jsstring :=
  match p, s with
  | [], _ => Some s
  | _ :: _, [] => None
  | a :: p', c :: s' => if a =? c then after p' s' else None
  end.

(** [re.test(s)] for an expression without [^]: a match may start at any
    index of [s]; [here] decides a match that starts at the head. *)
Fixpoint test (here : jsstring -> bool) (s : jsstring) : bool :=
  here s ||
  match s with
  | [] => false
  | _ :: s' => test here s'
  end.

(** The first pattern at the head of [s]: [from], white space ([\s+]), a
    quote, [next/document], a quote. What follows the white space is a
    quote, so [\s+] takes all of it. *)
Definition import_here (s : jsstring) : bool :=
  match after (lit "from") s with
  | Some (c :: r) =>
      is_js_space c &&
      match drop_space r with
      | q :: r' =>
          is_quote q &&
          match after (lit "next/document") r' with
          | Some (q' :: _) => is_quote q'
          | _ => false
          end
      | [] => false
      end
  | _ => false
  end.

(** [/<\s*Name\b/] at the head of [s], for a [Name] of word characters:
    [\b] holds after it at the end of [s] and before a character that is
    not a word character. *)
Definition tag_here (name s : jsstring) : bool :=
  match s with
  | c :: r =>
      (c =? 60) &&
      match after name (drop_space r) with
      | Some [] => true
      | Some (c' :: _) => negb (is_word c')
      | None => false
      end
  | [] => false
  end.

Definition forbiddenPatterns : list (jsstring * (jsstring -> bool)) :=
  [ (lit "import from 'next/document'", test import_here);
    (lit "<Html> usage", test (tag_here (lit "Html")));
    (lit "<Head> usage (next/document)", test (tag_here (lit "Head")));
    (lit "<Main> usage", test (tag_here (lit "Main")));
    (lit "<NextScript> usage", test (tag_here (lit "NextScript"))) ].

(** [checkContent(filePath, content)], with [rel] for
    [path.relative(appDir, filePath)]. *)
Definition checkContent (rel content : jsstring) : option jsstring :=
  match find (fun p => snd p content) forbiddenPatterns with
  | Some p => Some (fst p ++ lit " found in " ++ rel)
  | None => None
  end.

(** [path.relative(appDir, path.join(dir, name))], with [dir] already
    relative to [appDir]. *)
Definition join (dir name : jsstring) : jsstring :=
  match dir with
  | [] => name
  | _ :: _ => dir ++ lit "/" ++ name
  end.

Definition candidates : list (list jsstring) :=
  [ [lit "app"; lit "layout.tsx"];
    [lit "app"; lit "page.tsx"];
    [lit "app"; lit "layout.jsx"];
    [lit "app"; lit "page.jsx"];
    [lit "pages"; lit "_document.tsx"];
    [lit "pages"; lit "_document.jsx"] ].

Definition named (n : jsstring) (e : Entry) : bool :=
  bool_decide (entry_name e = n).

(** The entry at a path below the target directory, if there is one. *)
Fixpoint lookup_path (segs : list jsstring) (ents : list Entry) : option Entry :=
  match segs with
  | [] => None
  | n :: segs' =>
      match find (named n) ents, segs' with
      | Some e, [] => Some e
      | Some (EDir _ children), _ :: _ => lookup_path segs' children
      | _, _ => None
      end
  end.

(** A loop [for (x of l) { const hit = f(x); if (hit) return hit }
    return null]. *)
Definition first_hit {A : Type} (f : A -> option jsstring)
  : list A -> option jsstring :=
  fix go (l : list A) : option jsstring :=
    match l with
    | [] => None
    | a :: l' => if falsy (f a) then go l' else f a
    end.

(** One candidate: skipped when nothing exists at its path; a read that
    fails (a directory stands there) gives the empty string. *)
Definition candidate_hit (root : list Entry) (segs : list jsstring)
  : option jsstring :=
  match lookup_path segs root with
  | None => None
  | Some (EFile _ content) => checkContent (fold_left join segs []) content
  | Some (EDir _ _) => checkContent (fold_left join segs []) []
  end.

Definition skipped (name : jsstring) : bool :=
  bool_decide (name = lit "node_modules") || bool_decide (name = lit ".next").

(** [s.endsWith(suffix)] *)
Definition ends_with (suffix s : jsstring) : bool :=
  starts_with (rev suffix) (rev s).

(** [/\.(ts|tsx|js|jsx|mdx)$/.test(name)] *)
Definition is_source (name : jsstring) : bool :=
  existsb (fun suffix => ends_with suffix name)
    [lit ".ts"; lit ".tsx"; lit ".js"; lit ".jsx"; lit ".mdx"].

(** One turn of the loop of [walk(dir)] over the entries of [dir]. *)
Fixpoint visit (dir : jsstring) (ent : Entry) : option jsstring :=
  if skipped (entry_name ent) then None
  else
    match ent with
    | EDir n children => first_hit (visit (join dir n)) children
    | EFile n content =>
        if is_source n then checkContent (join dir n) content else None
    end.

Definition walk (dir : jsstring) (ents : list Entry) : option jsstring :=
  first_hit (visit dir) ents.

Definition findForbiddenNextDocumentUsage (root : list Entry)
  : option jsstring :=
  let hit := first_hit (candidate_hit root) candidates in
  if falsy hit then walk [] root else hit.

(** The files the walk reads, with their paths relative to the target
    directory, in the order it reads them. *)
Fixpoint sources_of (dir : jsstring) (ent : Entry) : list (jsstring * jsstring) :=
  if skipped (entry_name ent) then []
  else
    match ent with
    | EDir n children => flat_map (sources_of (join dir n)) children
    | EFile n content => if is_source n then [(join dir n, content)] else []
    end.

Definition sources (root : list Entry) : list (jsstring * jsstring) :=
  flat_map (sources_of []) root.

(** No forbidden pattern matches the text. *)
Definition clean_text (content : jsstring) : Prop :=
  forall p, In p forbiddenPatterns -> snd p content = false.

(** White space only. *)
Definition blank (s : jsstring) : Prop := forallb is_js_space s = true.

(** [\b] holds in front of [s], after a word character. *)
Definition word_ends (s : jsstring) : Prop :=
  match s with
  | [] => True
  | c :: _ => is_word c = false
  end.

(** Induction on an entry, with the property for all children of a
    directory. *)
Fixpoint Entry_children_ind (P : Entry -> Prop)
    (Hfile : forall n c, P (EFile n c))
    (Hdir : forall n children, Forall P children -> P (EDir n children))
    (e : Entry) : P e :=
  match e with
  | EFile n c => Hfile n c
  | EDir n children =>
      Hdir n children
        ((fix all (l : list Entry) : Forall P l :=
            match l with
            | [] => @List.Forall_nil Entry P
            | e' :: l' =>
                @List.Forall_cons Entry P e' l'
                  (Entry_children_ind P Hfile Hdir e') (all l')
            end) children)
  end.

(** A tag name as the patterns have them: word characters only. *)
Definition word_name (name : jsstring) : Prop :=
  name <> [] /\ forallb is_word name = true.

(** The validator is the scan of an environment, for what [listing] shows
    of the directory. *)
Definition scans_with (listing : World -> list Entry) (E : Env) : Prop :=
  forall w, scan E w = findForbiddenNextDocumentUsage (listing w).

(** An environment whose scan is the validator. *)
Definition scanning (listing : World -> list Entry) (E : Env) : Env :=
  {| npm := npm E;
     scan := fun w => findForbiddenNextDocumentUsage (listing w);
     generate := generate E;
     OPENAI_API_KEY := OPENAI_API_KEY E;
     probe := probe E;
     stream_ready := stream_ready E;
     lock_stamp := lock_stamp E;
     write_outside := write_outside E |}.

(** A project that mixes the two routers: a clean page of the App Router,
    and a [_document] of the Pages Router. *)
Definition pages_router : list Entry :=
  [ EDir (lit "app") [EFile (lit "page.tsx") (lit "export default function Page() { return <main/> }")];
    EDir (lit "pages")
      [EFile (lit "_document.tsx")
         (lit "import { Html, Head, Main, NextScript } from 'next/document'")];
    EDir (lit "node_modules") [EDir (lit "next") [EFile (lit "document.js") (lit "<Html>")]] ].

End Validator.

(** ** The [/api/generate-app] route

    [web-ui/app/api/generate-app/route.ts]: the first generation, which
    the upload page requests before the build. The prompt of the request
    body is taken as an optional string. *)

Module GenerateApp.

Inductive Body : Type :=
| ErrorBody (error : jsstring)
| SuccessBody (message : jsstring) (fileCount : nat).

Record Response : Type := mkResponse {
  status : Z;
  body : Body
}.

(** The body of the [try]. [generateApp(prompt)] is called without an error
    context. [Object.keys(project.files)] is evaluated for the log line
    before [writeFiles] is called, and throws when there is no mapping. *)
Definition POST_try (E : Env) (prompt : option jsstring) : M Response :=
  if falsy prompt then
    ret {| status := 400; body := ErrorBody (lit "No prompt provided") |}
  else if falsy (OPENAI_API_KEY E) then
    ret {| status := 500; body := ErrorBody (lit "OPENAI_API_KEY not configured") |}
  else
    exec effect (emit (EvGenerate []));
    await project <- observe (generate E (default [] prompt) []);
    match project with
    | GenThrows message => throw message
    | GenObject None => throw (lit "Cannot convert undefined or null to object")
    | GenObject (Some entries) =>
        exec writeFiles E (Some entries);
        ret {| status := 200;
               body := SuccessBody (lit "App generated successfully")
                         (length entries) |}
    end.

Definition POST (E : Env) (prompt : option jsstring) (w : World)
  : Response * World :=
  let '(r, w') := POST_try E prompt w in
  (match r with
   | Ok response => response
   | Throw message => {| status := 500; body := ErrorBody message |}
   end, w').

End GenerateApp.

(** ** The upload page

    [handleImageUpload] of [web-ui/app/page.tsx], from the extracted text
    on: it posts the text to the generate route and then posts to the build
    route without a body. [timed_out] says that the three-minute timer
    aborted the build request before its response arrived; the handler on
    the server runs on all the same. *)

Module Page.

Inductive Status : Type :=
| success
| error.

(** [response.ok] *)
Definition ok (status : Z) : bool := (200 <=? status)%Z && (status <=? 299)%Z.

Definition handleImageUpload (E : Env) (text : option jsstring)
    (timed_out : bool) (w : World) : Status * World :=
  let '(generateResponse, w1) := GenerateApp.POST E text w in
  if negb (ok (GenerateApp.status generateResponse)) then (error, w1)
  else
    let '(buildResponse, w2) := POST E None w1 in
    if timed_out then (error, w2)
    else if negb (ok (status buildResponse)) then (error, w2)
    else (success, w2).

End Page.

(** The node at a path of the target directory. *)
Definition node_at (name : string) (w : World) : option Node :=
  match fs w with
  | Some d => d !! name
  | None => None
  end.

(** The paths [cleanGeneratedAppBuildState] is after: the build output and
    the packages with all below them, the lockfile and the fingerprint. *)
Definition build_state (k : string) : bool :=
  bool_decide (k = ".next"%string) || below ".next" k
  || bool_decide (k = "node_modules"%string) || below "node_modules" k
  || bool_decide (k = "package-lock.json"%string)
  || bool_decide (k = ".install.hash"%string).

(** ** The first variant of the build route

    The earlier [POST] of [web-ui/app/api/build-app/route.ts]: no lock, no
    fingerprint, no compile gate. It installs, with one fallback, and
    launches the dev server; the launch and the prober are those of the
    later variant. *)

Module FirstVariant.

(** The text of the exit code in a template string. *)
Definition String_of_code (c : option Z) : jsstring :=
  match c with
  | None => lit "null"
  | Some z =>
      if (z <? 0)%Z then lit "-" ++ String_of_number (Z.to_N (- z))
      else String_of_number (Z.to_N z)
  end.

(** How the promise of [runNpmInstall] settles. The [close] handler
    assigns the output to the variable [installOutput] before it rejects;
    the [error] handler rejects without assigning. *)
Inductive InstallEnd : Type :=
| Resolved
| Rejected (message : jsstring) (assigned : option jsstring).

Definition runNpmInstall (E : Env) (useLegacyPeerDeps : bool) (w : World)
  : InstallEnd * World :=
  let args := if useLegacyPeerDeps then ["install"; "--legacy-peer-deps"]%string
              else ["install"%string] in
  let w1 := emit (EvSpawn args) w in
  let '(outcome, d) := npm E args w1 in
  (match outcome with
   | Close c out =>
       if bool_decide (c = Some 0%Z) then Resolved
       else Rejected (lit "npm install failed with code " ++ String_of_code c
                        ++ lit "
" ++ out) (Some out)
   | SpawnError _ message => Rejected message None
   end, set_fs d w1).

(** The regular install and its fallback; [installOutput] starts as the
    empty string. *)
Definition install (E : Env) : M unit :=
  fun w =>
    match runNpmInstall E false w with
    | (Resolved, w1) => (Ok tt, w1)
    | (Rejected message assigned, w1) =>
        let installOutput := default [] assigned in
        if includes installOutput (lit "ERESOLVE")
           || includes installOutput (lit "peer dependency")
        then
          match runNpmInstall E true w1 with
          | (Resolved, w2) => (Ok tt, w2)
          | (Rejected legacyMessage _, w2) => (Throw legacyMessage, w2)
          end
        else (Throw message, w1)
    end.

Definition POST_try (E : Env) : M Response :=
  await present <- observe existsSync_appDir;
  if negb present then ret response_not_found
  else
    exec install E;
    launch_stage E.

Definition POST (E : Env) (w : World) : Response * World :=
  let '(r, w') := POST_try E w in
  (match r with
   | Ok response => response
   | Throw message => response_fatal message
   end, w').

End FirstVariant.

(** ** The import check of the Vite variant *)

Module Vite.

(** [isBad(spec)] of [findForbiddenNonRelativeImports]. *)
Definition isBad (spec : jsstring) : bool :=
  if starts_with (lit ".") spec || starts_with (lit "@/") spec then false
  else if starts_with (lit "react") spec || starts_with (lit "tailwindcss") spec
       then false
       else includes spec (lit "/").

End Vite.

(** ** Vocabulary for the file mapping *)

(** The place of a key in the directory map, for a key whose path stays
    below the target directory. *)
Definition target (filePath : string) : option string :=
  rel_path <$> resolve filePath.

(** No key of the mapping climbs above the target directory. *)
Definition stays_inside (entries : list (string * jsstring)) : Prop :=
  forall key, key ∈ entries.*1 -> is_Some (resolve key).

(** [k] is the place of a key of the mapping, or a directory on the way
    to it. *)
Definition written_by (entries : list (string * jsstring)) (k : string) : Prop :=
  exists key names,
    key ∈ entries.*1 /\ resolve key = Some names
    /\ (k = rel_path names \/ k ∈ dirs_above names).

(** [m] either leaves the Generator alone, or calls it once and then
    throws [message] with the target directory emptied. *)
Definition call_is_fatal {A} (message : jsstring) (m : M A) : Prop :=
  forall w r w', m w = (r, w') ->
    count is_generate w' = count is_generate w
    \/ (r = Throw message /\ fs w' = Some ∅
        /\ count is_generate w' = (count is_generate w + 1)%nat).

(** The two ways in which [serverReady] is set when the test after the
    probing loop reads it: a poll was answered with a status in
    [[200, 500)], the first such answer ending the loop; or the loop ran
    through all its polls without such an answer and a ready marker had
    reached the stream handlers of the dev server. *)
Definition ready_by_poll (E : Env) : Prop :=
  exists i, (i < PROBE_ATTEMPTS)%nat
            /\ obs_ready (probe E i) = true
            /\ no_ready_before E i
            /\ probe_loop E (S PROBE_ATTEMPTS) 0 0 = (ExitReady, S i).

Definition ready_by_banner (E : Env) : Prop :=
  no_ready_before E PROBE_ATTEMPTS
  /\ fst (probe_loop E (S PROBE_ATTEMPTS) 0 0) = ExitLoopEnd
  /\ stream_ready E = true.

(** Two file mappings: one with a manifest and a page, whose second key
    is written with a leading [./]; one in which two keys name the same
    file. *)
Module Mapping.

Definition project : list (string * jsstring) :=
  [("package.json"%string, lit "{}"); ("./app/page.tsx"%string, lit "export")].

Definition aliased : list (string * jsstring) :=
  [("./app/page.tsx"%string, lit "first"); ("app/page.tsx"%string, lit "second")].

(** [Scenario.healthy] with a Generator that answers with [entries]. *)
Definition generating (entries : list (string * jsstring)) : Env :=
  {| npm := npm Scenario.healthy;
     scan := scan Scenario.healthy;
     generate := fun _ _ _ => GenObject (Some entries);
     OPENAI_API_KEY := OPENAI_API_KEY Scenario.healthy;
     probe := probe Scenario.healthy;
     stream_ready := false;
     lock_stamp := lock_stamp Scenario.healthy;
     write_outside := write_outside Scenario.healthy |}.

End Mapping.

(** * Properties *)

(** ** Strings *)

Lemma digit_not_space c : is_digit c -> is_js_space c = false.
Proof.
  unfold is_digit. intros [Hlo Hhi].
  assert (Hc : c = 48 \/ c = 49 \/ c = 50 \/ c = 51 \/ c = 52 \/ c = 53
               \/ c = 54 \/ c = 55 \/ c = 56 \/ c = 57) by lia.
  repeat (destruct Hc as [-> | Hc]; [reflexivity |]). subst c. reflexivity.
Qed.

Lemma to_digits_digits fuel : forall n acc,
  Forall is_digit acc -> Forall is_digit (to_digits fuel n acc).
Proof.
  induction fuel as [| fuel IH]; intros n acc Hacc; simpl; [exact Hacc |].
  assert (Hd : is_digit (48 + n mod 10)).
  { unfold is_digit.
    assert (Hm : n mod 10 < 10) by (apply N.mod_upper_bound; discriminate).
    revert Hm. generalize (n mod 10). intros m Hm. lia. }
  destruct (n / 10 =? 0); [| apply IH]; constructor; assumption.
Qed.

Lemma String_of_number_digits h : Forall is_digit (String_of_number h).
Proof. apply to_digits_digits. constructor. Qed.

Lemma drop_space_id s :
  Forall (fun c => is_js_space c = false) s -> drop_space s = s.
Proof. destruct 1 as [| c s Hc _]; simpl; [reflexivity | now rewrite Hc]. Qed.

Lemma trim_id s : Forall (fun c => is_js_space c = false) s -> trim s = s.
Proof.
  intros Hs. unfold trim. rewrite (drop_space_id s Hs).
  rewrite drop_space_id; [apply rev_involutive |].
  apply Forall_forall. intros c Hc. rewrite Forall_forall in Hs.
  apply Hs. apply list_elem_of_In, in_rev. now apply list_elem_of_In.
Qed.

(** A stored fingerprint that is a [String(h)] is not changed by [trim]. *)
Lemma trim_String_of_number h : trim (String_of_number h) = String_of_number h.
Proof.
  apply trim_id. eapply Forall_impl; [apply String_of_number_digits |].
  intros c Hc. now apply digit_not_space.
Qed.

(** [String(h)] prints [h]: the fuel of [to_digits] covers every digit. *)
Lemma to_digits_value fuel : forall n acc,
  n < 10 ^ N.of_nat fuel ->
  digits_value (to_digits fuel n acc) 0 = digits_value acc n.
Proof.
  induction fuel as [| fuel IH]; intros n acc Hn.
  - simpl in *. f_equal. lia.
  - cbn [to_digits].
    assert (Hdm : n = 10 * (n / 10) + n mod 10) by (apply N.div_mod; discriminate).
    assert (Hm : n mod 10 < 10) by (apply N.mod_upper_bound; discriminate).
    revert Hdm Hm. generalize (n mod 10) (n / 10). intros m q Hdm Hm.
    destruct (q =? 0) eqn:Hq.
    + apply N.eqb_eq in Hq. subst q. simpl. f_equal. lia.
    + rewrite IH.
      * simpl. f_equal. lia.
      * rewrite Nat2N.inj_succ, N.pow_succ_r' in Hn. lia.
Qed.

Lemma String_of_number_value h : digits_value (String_of_number h) 0 = h.
Proof.
  unfold String_of_number. rewrite to_digits_value; [reflexivity |].
  rewrite Nat2N.inj_succ, N2Nat.id.
  destruct (N.eq_dec h 0) as [-> | Hne]; [reflexivity |].
  assert (Hlog : h < 2 ^ N.succ (N.log2 h)) by (apply N.log2_spec; lia).
  eapply N.lt_le_trans; [exact Hlog |].
  apply N.pow_le_mono_l. lia.
Qed.

(** The hash stays below [2 ^ 32], as [>>> 0] makes it. *)
Lemma hash_bound data h : h < 2 ^ 32 -> fold_left hash_step data h < 2 ^ 32.
Proof.
  revert h. induction data as [| c data IH]; intros h Hh; simpl; [exact Hh |].
  apply IH. unfold hash_step. apply N.mod_upper_bound. discriminate.
Qed.

(** ** C2: the compile gate *)

(** C2. Strict compile gate: [runCompileGate] always returns, and it reports
    [ok] exactly when the build subprocess exits with status zero; whatever
    the captured output is (the word success included), a non-zero status,
    a death by signal or a failed spawn are reported as not [ok]. *)
Theorem compile_gate_strict (E : Env) (w : World) :
  exists ok out w',
    runCompileGate E w = (Ok (ok, out), w')
    /\ (ok = true <-> exit_status (build_outcome E w) = Some 0%Z)
    /\ (forall c, exit_status (build_outcome E w) = Some c -> c <> 0%Z ->
        ok = false)
    /\ (includes (captured (build_outcome E w)) (lit "success") = true ->
        exit_status (build_outcome E w) <> Some 0%Z -> ok = false).
Proof.
  unfold build_outcome, runCompileGate, runNpm, bind, ret.
  destruct (npm E _ _) as [o d] eqn:Hnpm. simpl.
  eexists _, _, _. split; [reflexivity |].
  assert (Hiff : (code match o with
                       | Close c out => {| code := default 1%Z c; output := out |}
                       | SpawnError out msg =>
                           {| code := 1%Z;
                              output := out ++ lit "
" ++ lit "npm run build" ++ lit " spawn error: " ++ msg |}
                       end =? 0)%Z = true <-> exit_status o = Some 0%Z).
  { destruct o as [[c |] out | out msg]; simpl; rewrite ?Z.eqb_eq;
      split; intros H; try congruence; try discriminate. }
  split; [exact Hiff |]. split.
  - intros c Hc Hne. apply not_true_is_false. rewrite Hiff. congruence.
  - intros _ Hne. apply not_true_is_false. now rewrite Hiff.
Qed.

(** The build of [Scenario.lying_build] prints success and exits with 1:
    the gate reports failure. *)
Example compile_gate_ignores_output :
  includes (captured (build_outcome Scenario.lying_build Scenario.installed))
           (lit "success") = true
  /\ fst (runCompileGate Scenario.lying_build Scenario.installed)
     = Ok (false, lit "Build success").
Proof. split; reflexivity. Qed.

(** ** C4: the install is skipped on an unchanged fingerprint *)

Lemma install_skip_trimmed (E : Env) (w : World) :
  trim (readFile_or_empty ".install.hash" w) = computeInstallHash w ->
  existsSync "node_modules" w = true ->
  runNpmInstallWithFallback E w = (Ok tt, w).
Proof.
  intros Hhash Hmod. unfold runNpmInstallWithFallback, bind, observe.
  rewrite Hmod, bool_decide_eq_true_2 by exact Hhash. reflexivity.
Qed.

(** C4. Install skip: when the stored fingerprint equals the one computed
    from the manifest and the lockfile, and [node_modules] is present,
    [runNpmInstallWithFallback] returns successfully and leaves the world as
    it was: no subprocess is started and nothing is written. *)
Theorem install_skip (E : Env) (w : World) :
  readFile_or_empty ".install.hash" w = computeInstallHash w ->
  existsSync "node_modules" w = true ->
  runNpmInstallWithFallback E w = (Ok tt, w)
  /\ count is_spawn (snd (runNpmInstallWithFallback E w)) = count is_spawn w.
Proof.
  intros Hhash Hmod.
  assert (H : runNpmInstallWithFallback E w = (Ok tt, w)).
  { apply install_skip_trimmed; [| exact Hmod].
    rewrite Hhash. apply trim_String_of_number. }
  now rewrite H.
Qed.

Lemma install_skip_witness :
  runNpmInstallWithFallback Scenario.corrupt_install Scenario.installed
    = (Ok tt, Scenario.installed)
  /\ count is_spawn
       (snd (runNpmInstallWithFallback Scenario.corrupt_install Scenario.installed))
     = count is_spawn Scenario.installed.
Proof.
  apply (install_skip Scenario.corrupt_install Scenario.installed);
    vm_compute; reflexivity.
Defined.

(** ** C5: self-heal of a corrupt install *)

Lemma runNpm_trace E args label w r w' :
  runNpm E args label w = (r, w') -> trace w' = trace w ++ [EvSpawn args].
Proof.
  unfold runNpm. destruct (npm E args _) as [o d]. intros [= _ <-]. reflexivity.
Qed.

Lemma cleaned_eq w :
  cleanGeneratedAppBuildState w = (Ok tt, cleaned w).
Proof. reflexivity. Qed.

Lemma cleaned_unfold w :
  cleaned w
  = rm_f ".install.hash"
      (rm_f "package-lock.json" (rm_rf "node_modules" (rm_rf ".next" w))).
Proof. reflexivity. Qed.

Lemma cleaned_trace w :
  trace (cleaned w)
  = trace w ++ [EvRm ".next"; EvRm "node_modules"; EvRm "package-lock.json";
                EvRm ".install.hash"]%string.
Proof.
  rewrite cleaned_unfold. unfold rm_f, rm_rf, emit, set_fs. simpl.
  now rewrite <- !app_assoc.
Qed.

Lemma shrinks_rm_rf name w : shrinks w (rm_rf name w).
Proof.
  intros d' Hd'. unfold rm_rf, emit, set_fs in Hd'. simpl in Hd'.
  destruct (fs w) as [d |]; [| discriminate]. injection Hd' as <-.
  exists d. split; [reflexivity | apply map_filter_subseteq].
Qed.

Lemma shrinks_rm_f name w : shrinks w (rm_f name w).
Proof.
  intros d' Hd'. unfold rm_f, emit, set_fs in Hd'. simpl in Hd'.
  destruct (fs w) as [d |]; [| discriminate]. injection Hd' as <-.
  exists d. split; [reflexivity |]. unfold remove_file.
  destruct (is_file (d !! name)); [apply delete_subseteq | reflexivity].
Qed.

Lemma shrinks_absent w w' name :
  shrinks w w' -> existsSync name w = false -> existsSync name w' = false.
Proof.
  intros Hsub Habs. unfold existsSync in *.
  destruct (fs w') as [d' |] eqn:Hd'; [| reflexivity].
  destruct (Hsub d' Hd') as (d & Hd & Hle). rewrite Hd in Habs.
  apply bool_decide_eq_false_2. apply bool_decide_eq_false_1 in Habs.
  intros [x Hx]. apply Habs. exists x. eapply lookup_weaken; eassumption.
Qed.

Lemma shrinks_no_file w w' name :
  shrinks w w' -> isFile name w = false -> isFile name w' = false.
Proof.
  intros Hsub Habs. unfold isFile in *.
  destruct (fs w') as [d' |] eqn:Hd'; [| reflexivity].
  destruct (Hsub d' Hd') as (d & Hd & Hle). rewrite Hd in Habs.
  destruct (d' !! name) as [x |] eqn:Hx; [| reflexivity].
  now rewrite (lookup_weaken _ _ _ _ Hx Hle) in Habs.
Qed.

Lemma rm_rf_gone name w : existsSync name (rm_rf name w) = false.
Proof.
  unfold existsSync, rm_rf, emit, set_fs. simpl.
  destruct (fs w) as [d |]; simpl; [| reflexivity].
  apply bool_decide_eq_false_2. intros [x Hx].
  apply map_lookup_filter_Some in Hx as [_ [Hne _]]. now apply Hne.
Qed.

Lemma rm_f_gone name w : isFile name (rm_f name w) = false.
Proof.
  unfold isFile, rm_f, emit, set_fs, remove_file. simpl.
  destruct (fs w) as [d |]; simpl; [| reflexivity].
  destruct (is_file (d !! name)) eqn:Hfile; [| exact Hfile].
  now rewrite lookup_delete_eq.
Qed.

(** After the cleaning the two directories are gone and no file stands at
    the path of the lockfile or of the fingerprint. *)
Lemma cleaned_gone w :
  existsSync ".next" (cleaned w) = false
  /\ existsSync "node_modules" (cleaned w) = false
  /\ isFile "package-lock.json" (cleaned w) = false
  /\ isFile ".install.hash" (cleaned w) = false.
Proof.
  rewrite cleaned_unfold. repeat split.
  - do 3 (eapply shrinks_absent;
          [first [apply shrinks_rm_f | apply shrinks_rm_rf] |]).
    apply rm_rf_gone.
  - do 2 (eapply shrinks_absent; [apply shrinks_rm_f |]). apply rm_rf_gone.
  - eapply shrinks_no_file; [apply shrinks_rm_f |]. apply rm_f_gone.
  - apply rm_f_gone.
Qed.

(** C5. Corruption self-heal: when the install is not skipped and the
    install command exits non-zero with output that matches a corruption
    signature, the installer removes [.next], [node_modules],
    [package-lock.json] and [.install.hash] (when the retry starts the two
    directories are gone and no file stands at the two other paths), runs
    the same command once more, and that is all it runs: two subprocesses
    in total. If the retry exits non-zero the installer
    throws an error whose message carries the whole output of the retry. *)
Theorem corrupt_install_self_heal (E : Env) (w w1 w2 : World)
    (first retry : NpmResult) :
  skip_install w = false ->
  runNpm E (installCmd w) (installLabel w) w = (Ok first, w1) ->
  code first <> 0%Z ->
  looksLikeCorruptInstall (output first) = true ->
  runNpm E (installCmd w) (installLabel w ++ lit " (retry)") (cleaned w1)
    = (Ok retry, w2) ->
  count is_spawn (snd (runNpmInstallWithFallback E w)) = (count is_spawn w + 2)%nat
  /\ trace w2
     = trace w ++ [EvSpawn (installCmd w); EvRm ".next"; EvRm "node_modules";
                   EvRm "package-lock.json"; EvRm ".install.hash";
                   EvSpawn (installCmd w)]%string
  /\ (existsSync ".next" (cleaned w1) = false
      /\ existsSync "node_modules" (cleaned w1) = false
      /\ isFile "package-lock.json" (cleaned w1) = false
      /\ isFile ".install.hash" (cleaned w1) = false)
  /\ runNpmInstallWithFallback E w
     = if (code retry =? 0)%Z
       then (Ok tt, writeFile_quiet ".install.hash" (computeInstallHash w) w2)
       else (Throw (installLabel w ++ lit " failed even after cleaning.

" ++ output retry), w2).
Proof.
  intros Hskip Hfirst Hcode Hcorrupt Hretry.
  assert (Htrace : trace w2
     = trace w ++ [EvSpawn (installCmd w); EvRm ".next"; EvRm "node_modules";
                   EvRm "package-lock.json"; EvRm ".install.hash";
                   EvSpawn (installCmd w)]%string).
  { rewrite (runNpm_trace _ _ _ _ _ _ Hretry), cleaned_trace,
      (runNpm_trace _ _ _ _ _ _ Hfirst), <- !app_assoc. reflexivity. }
  assert (Hrun : runNpmInstallWithFallback E w
     = if (code retry =? 0)%Z
       then (Ok tt, writeFile_quiet ".install.hash" (computeInstallHash w) w2)
       else (Throw (installLabel w ++ lit " failed even after cleaning.

" ++ output retry), w2)).
  { unfold runNpmInstallWithFallback, bind, observe.
    unfold skip_install in Hskip. rewrite Hskip.
    unfold installCmd, installLabel in Hfirst, Hretry |- *.
    rewrite Hfirst. apply Z.eqb_neq in Hcode. rewrite Hcode, Hcorrupt.
    rewrite cleaned_eq, Hretry. now destruct (code retry =? 0)%Z. }
  split; [| split; [exact Htrace | split; [| exact Hrun]]].
  - rewrite Hrun. unfold count.
    assert (Hw2 : List.filter is_spawn (trace w2)
                  = List.filter is_spawn (trace w) ++ [EvSpawn (installCmd w); EvSpawn (installCmd w)]).
    { rewrite Htrace, List.filter_app. reflexivity. }
    destruct (code retry =? 0)%Z; simpl.
    + unfold writeFile_quiet.
      assert (Hq : forall d, trace (set_fs d (emit (EvWriteFile ".install.hash") w2))
                        = trace w2 ++ [EvWriteFile ".install.hash"]) by reflexivity.
      destruct (fs w2) as [d |]; [destruct (d !! ".install.hash"%string) as [[] |] |];
        rewrite ?Hq; simpl; rewrite List.filter_app, Hw2, !length_app; simpl; lia.
    + rewrite Hw2, length_app. simpl. lia.
  - apply cleaned_gone.
Qed.

Lemma corrupt_install_self_heal_witness :
  count is_spawn
    (snd (runNpmInstallWithFallback Scenario.corrupt_install Scenario.fresh))
  = (count is_spawn Scenario.fresh + 2)%nat.
Proof.
  refine (proj1 (corrupt_install_self_heal Scenario.corrupt_install
                   Scenario.fresh _ _ _ _ _ _ _ _ _)).
  - vm_compute; reflexivity.
  - reflexivity.
  - vm_compute; discriminate.
  - vm_compute; reflexivity.
  - reflexivity.
Defined.

(** What the run of [Scenario.corrupt_install] reports: the output of the
    retry, after exactly two [npm install] subprocesses. *)
Example corrupt_install_reported :
  fst (runNpmInstallWithFallback Scenario.corrupt_install Scenario.fresh)
  = Throw (lit "npm install failed even after cleaning.

npm ERR! TAR_ENTRY_ERROR ENOENT")
  /\ List.filter is_spawn
       (trace (snd (runNpmInstallWithFallback Scenario.corrupt_install Scenario.fresh)))
     = [EvSpawn ["install"%string]; EvSpawn ["install"%string]].
Proof. split; vm_compute; reflexivity. Qed.

(** ** C9: what the compile gate does before the build *)

(** C9 (as the code has it). The compile gate of the route starts the build
    on the directory as it finds it: it removes nothing first, so a [.next]
    left by an earlier build is still there when [npm run build] starts; it
    then runs the build to completion and returns its exit test and its
    captured output. Clearing the build output is the work of
    [cleanGeneratedAppBuildState]. The Vite variant of the gate does remove
    its build output [dist] before the build. *)
Theorem compile_gate_runs_build_only (E : Env) (w : World) :
  (exists r w',
      runNpm E ["run"; "build"]%string (lit "npm run build") w = (Ok r, w')
      /\ runCompileGate E w = (Ok ((code r =? 0)%Z, output r), w')
      /\ trace w' = trace w ++ [EvSpawn ["run"; "build"]%string])
  /\ fs (build_start w) = fs w
  /\ existsSync ".next" (cleaned w) = false
  /\ trace (snd (runCompileGate_vite E w))
     = trace w ++ [EvRm "dist"; EvSpawn ["run"; "build"]]%string
  /\ existsSync "dist" (build_start (rm_rf "dist" w)) = false.
Proof.
  split; [| split; [reflexivity | split; [| split]]].
  - unfold runCompileGate, bind, ret.
    destruct (runNpm E _ _ w) as [[r | e] w'] eqn:Hr.
    + exists r, w'. repeat split. apply (runNpm_trace _ _ _ _ _ _ Hr).
    + unfold runNpm in Hr. destruct (npm E _ _); discriminate.
  - apply cleaned_gone.
  - unfold runCompileGate_vite, bind, ret, effect.
    destruct (runNpm E _ _ _) as [[r | e] w'] eqn:Hr; simpl;
      rewrite (runNpm_trace _ _ _ _ _ _ Hr); unfold rm_rf, emit, set_fs; simpl;
      now rewrite <- app_assoc.
  - apply (rm_rf_gone "dist" w).
Qed.

(** C9, the claim as stated fails: on a directory that holds the output of
    an earlier build, the gate removes nothing and the build starts with
    [.next] in place. *)
Lemma compile_gate_keeps_stale_output :
  existsSync ".next" Scenario.built = true
  /\ existsSync ".next" (build_start Scenario.built) = true
  /\ trace (snd (runCompileGate Scenario.healthy Scenario.built))
     = [EvSpawn ["run"; "build"]%string]
  /\ existsSync ".next" (snd (runCompileGate Scenario.healthy Scenario.built)) = true.
Proof. repeat split; vm_compute; reflexivity. Qed.

(** ** C10: a missing directory *)

Ltac break_match :=
  match goal with
  | |- context [match ?x with _ => _ end] => destruct x eqn:?
  | H : context [match ?x with _ => _ end] |- _ => destruct x eqn:?
  end.

Lemma repair_loop_return_500 E prompt fuel : forall attempt w r w',
  repair_loop E prompt fuel attempt w = (Ok (Return r), w') -> status r = 500%Z.
Proof.
  induction fuel as [| fuel IH]; intros attempt w r w' H; simpl in H.
  - discriminate.
  - unfold bind, ret, observe in H.
    repeat break_match; try discriminate;
      try (injection H as <- _; reflexivity);
      try (eapply IH; eassumption).
Qed.

(** The [open] succeeds only inside an existing directory, and leaves it
    existing. *)
Lemma acquire_lock_present stamp w w' :
  acquire_lock stamp w = (Ok true, w') -> existsSync_appDir w' = true.
Proof.
  unfold acquire_lock. destruct (fs w) as [d |]; [| discriminate].
  destruct (d !! lockPath); [discriminate |]. intros [= <-]. reflexivity.
Qed.

Lemma acquire_lock_total stamp w :
  exists b w', acquire_lock stamp w = (Ok b, w').
Proof.
  unfold acquire_lock. destruct (fs w) as [d |]; [destruct (d !! lockPath) |];
    eauto.
Qed.

(** C10. When the target directory does not exist the route answers with the
    409 response [Build already in progress]: the [open] of the lock marker
    fails in the missing directory and every failure of that [open] is
    treated as contention. The 404 response is returned by no run. *)
Theorem missing_directory_is_busy (E : Env) (prompt : option jsstring) :
  (forall tr, fst (POST E prompt {| fs := None; trace := tr |}) = response_busy)
  /\ status response_busy = 409%Z
  /\ (forall w, status (fst (POST E prompt w)) <> 404%Z).
Proof.
  split; [reflexivity | split; [reflexivity |]].
  intros w. unfold POST, POST_try, bind, ret.
  generalize (S (S MAX_REPAIR_ATTEMPTS)). intros fuel.
  destruct (acquire_lock_total (lock_stamp E) w) as (b & w1 & Hlock).
  rewrite Hlock. destruct b; simpl; [| done].
  unfold observe. rewrite (acquire_lock_present _ _ _ Hlock). simpl.
  destruct (runNpmInstallWithFallback E w1) as [[[] | e] w2]; [| simpl; done].
  destruct (repair_loop E prompt fuel 0 w2) as [[exit | e] w3] eqn:Hloop;
    [| simpl; done].
  assert (Hlaunch : forall w4, exists r w5,
             launch_stage E w4 = (Ok r, w5) /\ status r <> 404%Z).
  { intros w4. unfold launch_stage, bind, effect, ret. simpl.
    eexists _, _. split; [reflexivity |]. destruct (awaitReady E); done. }
  destruct exit as [| | r |];
    try (destruct (Hlaunch w3) as (r' & w5 & -> & Hr'); exact Hr').
  simpl. rewrite (repair_loop_return_500 _ _ _ _ _ _ _ Hloop). done.
Qed.

(** The same on a concrete request: no directory, hence 409, and nothing is
    installed, built or launched. *)
Example missing_directory_run :
  POST Scenario.healthy Scenario.prompt {| fs := None; trace := [] |}
  = (response_busy, {| fs := None; trace := [EvRm lockPath] |}).
Proof. reflexivity. Qed.

(** ** C1: the single-flight lock *)

(** A request that finds the marker in place is answered 409, and its
    [finally] block removes the marker it did not create. *)
Lemma busy_request_removes_marker (E : Env) (prompt : option jsstring) (w : World) :
  isFile lockPath w = true ->
  POST E prompt w = (response_busy, release_lock w)
  /\ existsSync lockPath (snd (POST E prompt w)) = false.
Proof.
  intros Hlock.
  assert (Hpost : POST E prompt w = (response_busy, release_lock w)).
  { unfold POST, POST_try, bind, acquire_lock. unfold isFile in Hlock.
    destruct (fs w) as [d |]; [| discriminate].
    destruct (d !! lockPath); [reflexivity | discriminate]. }
  split; [exact Hpost |]. rewrite Hpost. simpl.
  unfold release_lock, rm_f, existsSync, isFile, emit, set_fs, remove_file in *.
  simpl. destruct (fs w) as [d |]; simpl; [| reflexivity].
  rewrite Hlock. apply bool_decide_eq_false_2. rewrite <- eq_None_not_Some.
  apply lookup_delete_eq.
Qed.

(** The route itself on [Scenario.locked], the directory another request
    is building in: 409, and the other request's marker is gone. *)
Example busy_request_run :
  isFile lockPath Scenario.locked = true
  /\ fst (POST Scenario.healthy Scenario.prompt Scenario.locked) = response_busy
  /\ existsSync lockPath (snd (POST Scenario.healthy Scenario.prompt Scenario.locked))
     = false.
Proof. repeat split; vm_compute; reflexivity. Qed.

(** Counting the requests past the lock after one of them changes phase. *)
Lemma in_flight_insert (l : list SingleFlight.Phase) r p q :
  l !! r = Some q ->
  (length (List.filter SingleFlight.is_building (<[r := p]> l))
   + (if SingleFlight.is_building q then 1 else 0)
   = length (List.filter SingleFlight.is_building l)
     + (if SingleFlight.is_building p then 1 else 0))%nat.
Proof.
  revert r. induction l as [| x l IH]; intros [| r] Hr; try discriminate.
  - injection Hr as ->. simpl.
    destruct (SingleFlight.is_building q), (SingleFlight.is_building p);
      simpl; lia.
  - simpl in *. specialize (IH r Hr).
    destruct (SingleFlight.is_building x); simpl; lia.
Qed.

Lemma guarded_step stamp s a :
  SingleFlight.guarded s -> SingleFlight.keeps_out s a ->
  SingleFlight.guarded (SingleFlight.step stamp s a).
Proof.
  intros Hg Hkeep. destruct a as [r | r files | r]; simpl;
    [| contradiction |].
  - destruct (SingleFlight.requests s !! r) as [[| | |] |] eqn:Hr;
      try exact Hg.
    unfold acquire_lock.
    destruct (fs (SingleFlight.shared s)) as [d |] eqn:Hfs.
    + destruct (d !! lockPath) as [n |] eqn:Hlock.
      * pose proof (in_flight_insert _ r SingleFlight.Rejected _ Hr) as Hcount.
        unfold SingleFlight.guarded, SingleFlight.in_flight in *.
        simpl in *. destruct Hg as [Hg | [Hg Hfile]]; [left | right; split];
          try lia. exact Hfile.
      * pose proof (in_flight_insert _ r SingleFlight.Building _ Hr) as Hcount.
        unfold SingleFlight.guarded, SingleFlight.in_flight, isFile in *.
        simpl in *. right. split.
        -- destruct Hg as [Hg | [_ Hfile]]; [lia |].
           rewrite Hfs, Hlock in Hfile. discriminate.
        -- now rewrite lookup_insert_eq.
    + pose proof (in_flight_insert _ r SingleFlight.Rejected _ Hr) as Hcount.
      unfold SingleFlight.guarded, SingleFlight.in_flight in *.
      simpl in *. destruct Hg as [Hg | [Hg Hfile]]; [left | right; split];
        try lia. exact Hfile.
  - simpl in Hkeep.
    destruct (SingleFlight.requests s !! r) as [[| | |] |] eqn:Hr;
      try exact Hg; [| contradiction].
    pose proof (in_flight_insert _ r SingleFlight.Finished _ Hr) as Hcount.
    unfold SingleFlight.guarded, SingleFlight.in_flight in *. simpl in *.
    left. destruct Hg as [Hg | [Hg _]]; lia.
Qed.

(** What the lock does guarantee: along every schedule in which no rejected
    request gets to return and no build gets to a repair (a repair removes
    the whole directory, the marker with it), at most one request is past
    the lock, and while one is, its marker is in place. *)
Theorem single_flight_while_rejected_keep_out (stamp : jsstring)
    (schedule : list SingleFlight.Action) : forall s : SingleFlight.System,
  SingleFlight.guarded s ->
  SingleFlight.rejected_never_return stamp s schedule ->
  SingleFlight.guarded (SingleFlight.run stamp s schedule)
  /\ (SingleFlight.in_flight (SingleFlight.run stamp s schedule) <= 1)%nat.
Proof.
  induction schedule as [| a rest IH]; intros s Hg Hkeep.
  - split; [exact Hg |]. unfold SingleFlight.run. simpl.
    destruct Hg as [Hg | [Hg _]]; lia.
  - destruct Hkeep as [Ha Hrest]. apply IH; [| exact Hrest].
    now apply guarded_step.
Qed.

Lemma single_flight_while_rejected_keep_out_witness :
  let s := SingleFlight.run (lit "4242") SingleFlight.three_requests
             [SingleFlight.Enter 0; SingleFlight.Enter 1; SingleFlight.Enter 2;
              SingleFlight.Leave 0] in
  SingleFlight.guarded s /\ (SingleFlight.in_flight s <= 1)%nat.
Proof.
  apply (single_flight_while_rejected_keep_out (lit "4242")
           [SingleFlight.Enter 0; SingleFlight.Enter 1; SingleFlight.Enter 2;
            SingleFlight.Leave 0] SingleFlight.three_requests).
  - left. reflexivity.
  - simpl. repeat split. discriminate.
Defined.

(** C1, evaluated on the code. Request 0 acquires the marker and builds;
    request 1 arrives, is rejected, and returns: its [finally] block removes
    the marker of request 0 (what [POST] does on the shared directory is
    that very step); request 2 arrives and acquires the marker. Requests 0
    and 2 are then both past the lock, and one marker stands for two runs. *)
Theorem single_flight_broken_by_rejected_request :
  let stamp := lit "4242 2024-01-01T00:00:00.000Z" in
  let s1 := SingleFlight.run stamp SingleFlight.three_requests
              [SingleFlight.Enter 0; SingleFlight.Enter 1] in
  let s2 := SingleFlight.run stamp s1 [SingleFlight.Leave 1] in
  let s3 := SingleFlight.run stamp s2 [SingleFlight.Enter 2] in
  (SingleFlight.requests s1
   = [SingleFlight.Building; SingleFlight.Rejected; SingleFlight.Arriving]
   /\ SingleFlight.lock_present s1 = true)
  /\ (SingleFlight.requests s2
      = [SingleFlight.Building; SingleFlight.Finished; SingleFlight.Arriving]
      /\ SingleFlight.lock_present s2 = false
      /\ POST Scenario.healthy Scenario.prompt (SingleFlight.shared s1)
         = (response_busy, SingleFlight.shared s2))
  /\ (SingleFlight.requests s3
      = [SingleFlight.Building; SingleFlight.Finished; SingleFlight.Building]
      /\ SingleFlight.in_flight s3 = 2%nat).
Proof. repeat split; vm_compute; reflexivity. Qed.

(** A repair in the run that holds the marker removes it as well:
    [writeFiles] starts by removing the directory. A request that arrives
    after the repair of request 0 gets past the lock. *)
Example single_flight_broken_by_repair :
  let stamp := lit "4242 2024-01-01T00:00:00.000Z" in
  let s := SingleFlight.run stamp SingleFlight.three_requests
             [SingleFlight.Enter 0;
              SingleFlight.Repair 0 Scenario.healthy
                (Some [("package.json"%string, lit "{}")]);
              SingleFlight.Enter 1] in
  SingleFlight.requests s
  = [SingleFlight.Building; SingleFlight.Building; SingleFlight.Arriving]
  /\ SingleFlight.in_flight s = 2%nat.
Proof. repeat split; vm_compute; reflexivity. Qed.

(** ** C8: the Generator's answer is written as it comes *)

(** C8, the claim as stated fails: an empty file mapping is not an error.
    The repair reports success, and the manifest that was in the target
    directory is gone. *)
Lemma empty_mapping_accepted :
  existsSync "package.json" Scenario.installed = true
  /\ fst (maybeAutoRepair Scenario.empty_mapping Scenario.prompt (lit "ctx")
            Scenario.installed) = Ok true
  /\ fs (snd (maybeAutoRepair Scenario.empty_mapping Scenario.prompt (lit "ctx")
                Scenario.installed)) = Some ∅
  /\ count is_generate
       (snd (POST Scenario.empty_mapping Scenario.prompt Scenario.fresh)) = 2%nat
  /\ existsSync "package.json"
       (snd (POST Scenario.empty_mapping Scenario.prompt Scenario.fresh)) = false.
Proof. repeat split; vm_compute; reflexivity. Qed.

(** A missing mapping ends the whole run: one call of the Generator, the
    500 response of the outer [catch], an emptied directory. *)
Example missing_mapping_run :
  fst (POST Scenario.missing_mapping Scenario.prompt Scenario.fresh)
  = response_fatal (lit "Cannot convert undefined or null to object")
  /\ count is_generate
       (snd (POST Scenario.missing_mapping Scenario.prompt Scenario.fresh)) = 1%nat
  /\ fs (snd (POST Scenario.missing_mapping Scenario.prompt Scenario.fresh))
     = Some ∅.
Proof. repeat split; vm_compute; reflexivity. Qed.

(** ** C7: the health prober *)

Section Prober.

Variable E : Env.

Lemma ready_not_500 o : obs_ready o = true -> obs_is_500 o = false.
Proof.
  destruct o as [c | |]; simpl; try reflexivity.
  intros H. apply andb_true_iff in H as [_ H].
  apply Z.ltb_lt in H. apply Z.eqb_neq. lia.
Qed.

Lemma probe_loop_end fuel c :
  probe_loop E (S fuel) PROBE_ATTEMPTS c = (ExitLoopEnd, PROBE_ATTEMPTS).
Proof. reflexivity. Qed.

Lemma probe_loop_ready fuel i c :
  (i < PROBE_ATTEMPTS)%nat -> obs_ready (probe E i) = true ->
  probe_loop E (S fuel) i c = (ExitReady, S i).
Proof.
  intros Hi Hready. simpl. apply Nat.ltb_lt in Hi. rewrite Hi. simpl.
  now rewrite (ready_not_500 _ Hready), Hready.
Qed.

Lemma probe_loop_reset fuel i c :
  (i < PROBE_ATTEMPTS)%nat ->
  obs_is_500 (probe E i) = false -> obs_ready (probe E i) = false ->
  probe_loop E (S fuel) i c = probe_loop E fuel (S i) 0.
Proof.
  intros Hi H500 Hready. simpl. apply Nat.ltb_lt in Hi. rewrite Hi. simpl.
  now rewrite H500, Hready.
Qed.

Lemma probe_loop_count fuel i c :
  (i < PROBE_ATTEMPTS)%nat -> obs_is_500 (probe E i) = true ->
  (S c < MAX_CONSECUTIVE_500)%nat ->
  probe_loop E (S fuel) i c = probe_loop E fuel (S i) (S c).
Proof.
  intros Hi H500 Hc. cbn [probe_loop]. apply Nat.ltb_lt in Hi. rewrite Hi.
  cbn [negb]. rewrite H500.
  assert (Hready : obs_ready (probe E i) = false).
  { destruct (probe E i) as [s | |]; try reflexivity. simpl in *.
    apply Z.eqb_eq in H500 as ->. reflexivity. }
  rewrite Hready. apply Nat.leb_gt in Hc. now rewrite Hc.
Qed.

Lemma probe_loop_threshold fuel i c :
  (i < PROBE_ATTEMPTS)%nat -> obs_is_500 (probe E i) = true ->
  (MAX_CONSECUTIVE_500 <= S c)%nat ->
  probe_loop E (S fuel) i c = (ExitRuntimeFailure, S i).
Proof.
  intros Hi H500 Hc. cbn [probe_loop]. apply Nat.ltb_lt in Hi. rewrite Hi.
  cbn [negb]. rewrite H500. apply Nat.leb_le in Hc. now rewrite Hc.
Qed.

(** Enough 500 answers in a row, wherever the counter stands. *)
Lemma probe_loop_run_500 m : forall fuel i c,
  (1 <= m)%nat -> (MAX_CONSECUTIVE_500 <= c + m)%nat ->
  (i + m <= PROBE_ATTEMPTS)%nat -> (m <= fuel)%nat ->
  (forall j, (i <= j < i + m)%nat -> obs_is_500 (probe E j) = true) ->
  fst (probe_loop E fuel i c) = ExitRuntimeFailure.
Proof.
  induction m as [| m IH]; intros fuel i c Hm Hc Hi Hfuel H500; [lia |].
  destruct fuel as [| fuel]; [lia |].
  destruct (le_lt_dec MAX_CONSECUTIVE_500 (S c)) as [Hle | Hgt].
  - rewrite probe_loop_threshold; [reflexivity | lia | apply H500; lia | exact Hle].
  - rewrite probe_loop_count; [| lia | apply H500; lia | exact Hgt].
    apply IH; try lia. intros j Hj. apply H500. lia.
Qed.

(** No ready answer up to [k], then five 500 answers. *)
Lemma probe_loop_fails d : forall fuel i c k,
  k = (i + d)%nat -> (k + 5 <= PROBE_ATTEMPTS)%nat -> (d + 5 <= fuel)%nat ->
  (forall j, (i <= j < k)%nat -> obs_ready (probe E j) = false) ->
  five_500_from E k ->
  fst (probe_loop E fuel i c) = ExitRuntimeFailure.
Proof.
  induction d as [| d IH]; intros fuel i c k Hk Hbound Hfuel Hquiet Hrun.
  - replace i with k by lia.
    apply (probe_loop_run_500 5); try lia. unfold MAX_CONSECUTIVE_500. lia.
    exact Hrun.
  - destruct fuel as [| fuel]; [lia |].
    assert (Hi : (i < PROBE_ATTEMPTS)%nat) by lia.
    destruct (obs_is_500 (probe E i)) eqn:H500.
    + destruct (le_lt_dec MAX_CONSECUTIVE_500 (S c)) as [Hle | Hgt].
      * now rewrite probe_loop_threshold.
      * rewrite probe_loop_count by assumption.
        apply (IH _ _ _ k); try lia; [| exact Hrun].
        intros j Hj. apply Hquiet. lia.
    + rewrite probe_loop_reset; [| exact Hi | exact H500 | apply Hquiet; lia].
      apply (IH _ _ _ k); try lia; [| exact Hrun].
      intros j Hj. apply Hquiet. lia.
Qed.

(** Neither a ready answer nor five 500 answers in a row before poll [n]:
    the loop reaches poll [n], with a counter below the threshold. *)
Lemma probe_loop_quiet n :
  (n <= PROBE_ATTEMPTS)%nat -> no_ready_before E n -> no_five_500_before E n ->
  forall d fuel i c,
    n = (i + d)%nat -> (c <= i)%nat -> (c < MAX_CONSECUTIVE_500)%nat ->
    (forall j, (i - c <= j < i)%nat -> obs_is_500 (probe E j) = true) ->
    exists c', (c' < MAX_CONSECUTIVE_500)%nat
               /\ probe_loop E (d + fuel) i c = probe_loop E fuel n c'.
Proof.
  intros Hn Hquiet Hno5. induction d as [| d IH]; intros fuel i c Hd Hci Hc Hrun.
  - exists c. split; [exact Hc |]. now replace i with n by lia.
  - assert (Hi : (i < PROBE_ATTEMPTS)%nat) by lia.
    replace (S d + fuel)%nat with (S (d + fuel)) by lia.
    destruct (obs_is_500 (probe E i)) eqn:H500.
    + assert (Hlt : (S c < MAX_CONSECUTIVE_500)%nat).
      { destruct (le_lt_dec MAX_CONSECUTIVE_500 (S c)) as [Hle | Hgt]; [| exact Hgt].
        exfalso. unfold MAX_CONSECUTIVE_500 in *.
        destruct (Hno5 (i - 4)%nat) as (j & Hj & Hj500); [lia |].
        destruct (Nat.eq_dec j i) as [-> | Hne]; [congruence |].
        rewrite Hrun in Hj500 by lia. discriminate. }
      rewrite probe_loop_count by assumption.
      apply IH; try lia.
      intros j Hj. destruct (Nat.eq_dec j i) as [-> | Hne]; [exact H500 |].
      apply Hrun. lia.
    + rewrite probe_loop_reset; [| exact Hi | exact H500 | apply Hquiet; lia].
      apply IH; lia.
Qed.

(** One poll: the loop is left with a verdict, or goes on to the next poll. *)
Lemma probe_loop_cases fuel i c :
  (i < PROBE_ATTEMPTS)%nat ->
  probe_loop E (S fuel) i c = (ExitRuntimeFailure, S i)
  \/ probe_loop E (S fuel) i c = (ExitReady, S i)
  \/ exists c', probe_loop E (S fuel) i c = probe_loop E fuel (S i) c'.
Proof.
  intros Hi. destruct (obs_is_500 (probe E i)) eqn:H500.
  - destruct (le_lt_dec MAX_CONSECUTIVE_500 (S c)) as [Hle | Hgt].
    + left. now apply probe_loop_threshold.
    + right; right. exists (S c). now apply probe_loop_count.
  - destruct (obs_ready (probe E i)) eqn:Hready.
    + right; left. now apply probe_loop_ready.
    + right; right. exists O. now apply probe_loop_reset.
Qed.

Lemma probe_loop_polls fuel : forall i c,
  (i <= PROBE_ATTEMPTS)%nat ->
  (snd (probe_loop E fuel i c) <= PROBE_ATTEMPTS)%nat.
Proof.
  induction fuel as [| fuel IH]; intros i c Hi; [exact Hi |].
  destruct (le_lt_dec PROBE_ATTEMPTS i) as [Hge | Hlt].
  - replace i with PROBE_ATTEMPTS by lia. now rewrite probe_loop_end.
  - destruct (probe_loop_cases fuel i c Hlt) as [-> | [-> | [c' ->]]];
      simpl; try lia. apply IH. lia.
Qed.

Lemma probe_loop_fuel fuel : forall i c,
  (i <= PROBE_ATTEMPTS < fuel + i)%nat ->
  fst (probe_loop E fuel i c) <> ExitNoFuel.
Proof.
  induction fuel as [| fuel IH]; intros i c Hi; [lia |].
  destruct (le_lt_dec PROBE_ATTEMPTS i) as [Hge | Hlt].
  - replace i with PROBE_ATTEMPTS by lia. now rewrite probe_loop_end.
  - destruct (probe_loop_cases fuel i c Hlt) as [-> | [-> | [c' ->]]];
      simpl; try done. apply IH. lia.
Qed.

End Prober.

(** C7 (as the code has it). Health classification. The loop makes at most
    30 polls and always ends. A status code in [200, 500), met before any
    run of five 500 answers, ends the loop as ready. Five status-500
    answers in a row, with no ready answer before them, give
    [RuntimeFailure], whose response differs from the one of [Timeout]. A
    poll that is neither a 500 answer nor ready (another status, a
    connection error, a request timeout) sets the counter back to zero and
    the loop goes on. When all 30 polls pass without a ready answer and
    without five 500 answers in a row, the result is [Timeout] only if no
    ready marker was seen on the dev server's output streams; if one was
    seen, [serverReady] is already set and the route reports success. *)
Theorem health_classification (E : Env) :
  ((snd (probe_loop E (S PROBE_ATTEMPTS) 0 0) <= PROBE_ATTEMPTS)%nat
   /\ fst (probe_loop E (S PROBE_ATTEMPTS) 0 0) <> ExitNoFuel)
  /\ (forall i, (i < PROBE_ATTEMPTS)%nat ->
        no_ready_before E i -> no_five_500_before E i ->
        obs_ready (probe E i) = true ->
        probe_loop E (S PROBE_ATTEMPTS) 0 0 = (ExitReady, S i)
        /\ awaitReady E = Ready)
  /\ (forall k, (k + 5 <= PROBE_ATTEMPTS)%nat ->
        no_ready_before E k -> five_500_from E k ->
        awaitReady E = RuntimeFailure)
  /\ (forall fuel i c, (i < PROBE_ATTEMPTS)%nat ->
        obs_is_500 (probe E i) = false -> obs_ready (probe E i) = false ->
        probe_loop E (S fuel) i c = probe_loop E fuel (S i) 0)
  /\ (no_ready_before E PROBE_ATTEMPTS -> no_five_500_before E PROBE_ATTEMPTS ->
        probe_loop E (S PROBE_ATTEMPTS) 0 0 = (ExitLoopEnd, PROBE_ATTEMPTS)
        /\ awaitReady E = if stream_ready E then Ready else Timeout)
  /\ response_of_health RuntimeFailure <> response_of_health Timeout.
Proof.
  assert (Hstart : forall j, (0 - 0 <= j < 0)%nat -> obs_is_500 (probe E j) = true)
    by (intros j Hj; lia).
  split; [split |].
  - apply probe_loop_polls. lia.
  - apply probe_loop_fuel. unfold PROBE_ATTEMPTS. lia.
  - split; [| split; [| split; [| split]]].
    + intros i Hi Hquiet Hno5 Hready.
      destruct (probe_loop_quiet E i ltac:(lia) Hquiet Hno5 i
                  (S PROBE_ATTEMPTS - i) 0 0)%nat as (c' & _ & Heq);
        [lia | lia | unfold MAX_CONSECUTIVE_500; lia | exact Hstart |].
      assert (Hloop : probe_loop E (S PROBE_ATTEMPTS) 0 0 = (ExitReady, S i)).
      { replace (S PROBE_ATTEMPTS) with (i + (S PROBE_ATTEMPTS - i))%nat
          by (unfold PROBE_ATTEMPTS in *; lia).
        rewrite Heq.
        replace (S PROBE_ATTEMPTS - i)%nat with (S (PROBE_ATTEMPTS - i))
          by (unfold PROBE_ATTEMPTS in *; lia).
        now apply probe_loop_ready. }
      split; [exact Hloop |]. unfold awaitReady. now rewrite Hloop.
    + intros k Hk Hquiet Hrun. unfold awaitReady.
      assert (Hf : fst (probe_loop E (S PROBE_ATTEMPTS) 0 0) = ExitRuntimeFailure).
      { apply (probe_loop_fails E k _ _ _ k);
          [lia | exact Hk | unfold PROBE_ATTEMPTS in *; lia
          | intros j Hj; apply Hquiet; lia | exact Hrun]. }
      now rewrite Hf.
    + intros fuel i c. apply probe_loop_reset.
    + intros Hquiet Hno5.
      destruct (probe_loop_quiet E PROBE_ATTEMPTS ltac:(lia) Hquiet Hno5
                  PROBE_ATTEMPTS 1 0 0)%nat as (c' & _ & Heq);
        [lia | lia | unfold MAX_CONSECUTIVE_500; lia | exact Hstart |].
      assert (Hloop : probe_loop E (S PROBE_ATTEMPTS) 0 0
                      = (ExitLoopEnd, PROBE_ATTEMPTS)).
      { replace (S PROBE_ATTEMPTS) with (PROBE_ATTEMPTS + 1)%nat by lia.
        rewrite Heq. apply probe_loop_end. }
      split; [exact Hloop |]. unfold awaitReady. now rewrite Hloop.
    + discriminate.
Qed.

(** C7, the claim as stated fails: the dev server of
    [Scenario.banner_only] prints its ready banner and answers no probe.
    All 30 polls are made, none is ready and none is a 500 answer, and the
    result is [Ready], not [Timeout]: the route reports success. *)
Lemma banner_without_answer_is_ready :
  forallb (fun i => negb (obs_ready (probe Scenario.banner_only i))
                    && negb (obs_is_500 (probe Scenario.banner_only i)))
          (seq 0 PROBE_ATTEMPTS) = true
  /\ probe_loop Scenario.banner_only (S PROBE_ATTEMPTS) 0 0
     = (ExitLoopEnd, PROBE_ATTEMPTS)
  /\ awaitReady Scenario.banner_only = Ready
  /\ fst (POST Scenario.banner_only Scenario.prompt Scenario.fresh)
     = response_success.
Proof. repeat split; vm_compute; reflexivity. Qed.

(** Without the banner the same polls give [Timeout]; five 500 answers in
    a row give [RuntimeFailure] although the banner was seen and although a
    connection error interrupted an earlier run of two. *)
Example prober_runs :
  awaitReady Scenario.silent = Timeout
  /\ awaitReady Scenario.broken_app = RuntimeFailure
  /\ probe_loop Scenario.broken_app (S PROBE_ATTEMPTS) 0 0
     = (ExitRuntimeFailure, 8%nat)
  /\ awaitReady Scenario.healthy = Ready.
Proof. repeat split; vm_compute; reflexivity. Qed.

Lemma health_classification_witness :
  probe_loop Scenario.silent (S PROBE_ATTEMPTS) 0 0 = (ExitLoopEnd, PROBE_ATTEMPTS)
  /\ awaitReady Scenario.silent
     = if stream_ready Scenario.silent then Ready else Timeout.
Proof.
  refine (proj1 (proj2 (proj2 (proj2 (proj2
            (health_classification Scenario.silent))))) _ _).
  - intros j Hj. reflexivity.
  - intros k Hk. exists k. split; [lia | reflexivity].
Defined.

(** ** C3 and C6: the repair loop *)

(** *** Calls of the Generator along a run *)

Lemma gen_calls_emit e w :
  gen_calls (emit e w) = (gen_calls w + if is_generate e then 1 else 0)%nat.
Proof.
  unfold gen_calls, count, emit. simpl. rewrite List.filter_app, length_app.
  simpl. now destruct (is_generate e).
Qed.

Lemma gen_calls_set_fs d w : gen_calls (set_fs d w) = gen_calls w.
Proof. reflexivity. Qed.

Lemma gen_calls_rm_rf name w : gen_calls (rm_rf name w) = gen_calls w.
Proof. unfold rm_rf. rewrite gen_calls_emit, gen_calls_set_fs. simpl. lia. Qed.

Lemma gen_calls_rm_f name w : gen_calls (rm_f name w) = gen_calls w.
Proof. unfold rm_f. rewrite gen_calls_emit, gen_calls_set_fs. simpl. lia. Qed.

Lemma gen_calls_writeFile_quiet name c w :
  gen_calls (writeFile_quiet name c w) = gen_calls w.
Proof.
  unfold writeFile_quiet.
  destruct (fs w) as [d |]; [destruct (d !! name) as [[] |] |];
    rewrite ?gen_calls_set_fs, gen_calls_emit; simpl; lia.
Qed.

Lemma adds_ret {A} (a : A) : adds_at_most 0 (ret a).
Proof. intros w r w' [= _ <-]. lia. Qed.

Lemma adds_throw {A} e : adds_at_most 0 (@throw A e).
Proof. intros w r w' [= _ <-]. lia. Qed.

Lemma adds_observe {A} (f : World -> A) : adds_at_most 0 (observe f).
Proof. intros w r w' [= _ <-]. lia. Qed.

Lemma adds_effect f :
  (forall w, gen_calls (f w) = gen_calls w) -> adds_at_most 0 (effect f).
Proof. intros Hf w r w' [= _ <-]. rewrite Hf. lia. Qed.

Lemma adds_bind {A B} n k (m : M A) (f : A -> M B) :
  adds_at_most n m -> (forall a, adds_at_most k (f a)) ->
  adds_at_most (n + k) (bind m f).
Proof.
  intros Hm Hf w r w' Hrun. unfold bind in Hrun.
  destruct (m w) as [[a | e] w1] eqn:Hmw.
  - specialize (Hm _ _ _ Hmw). specialize (Hf a _ _ _ Hrun). lia.
  - injection Hrun as _ <-. specialize (Hm _ _ _ Hmw). lia.
Qed.

Lemma adds_seq {A B} k (m : M A) (f : A -> M B) :
  adds_at_most 0 m -> (forall a, adds_at_most k (f a)) ->
  adds_at_most k (bind m f).
Proof. intros Hm Hf. now apply (adds_bind 0 k). Qed.

Lemma adds_weaken {A} n n' (m : M A) :
  (n <= n')%nat -> adds_at_most n m -> adds_at_most n' m.
Proof. intros Hle Hm w r w' Hrun. specialize (Hm _ _ _ Hrun). lia. Qed.

Lemma adds_if {A} n (b : bool) (m1 m2 : M A) :
  adds_at_most n m1 -> adds_at_most n m2 ->
  adds_at_most n (if b then m1 else m2).
Proof. now destruct b. Qed.

Lemma adds_runNpm E args label : adds_at_most 0 (runNpm E args label).
Proof.
  intros w r w' Hrun. unfold runNpm in Hrun.
  destruct (npm E args _) as [o d]. injection Hrun as _ <-.
  rewrite gen_calls_set_fs, gen_calls_emit. simpl. lia.
Qed.

Lemma adds_clean : adds_at_most 0 cleanGeneratedAppBuildState.
Proof.
  unfold cleanGeneratedAppBuildState.
  repeat (apply adds_seq; [| intros _]);
    apply adds_effect; intros w;
    first [apply gen_calls_rm_rf | apply gen_calls_rm_f].
Qed.

Ltac adds_step :=
  first
    [ apply adds_ret | apply adds_throw | apply adds_observe
    | apply adds_runNpm | apply adds_clean
    | apply adds_effect; intros ?; first [apply gen_calls_rm_rf
                                         | apply gen_calls_rm_f
                                         | apply gen_calls_writeFile_quiet
                                         | apply gen_calls_set_fs]
    | apply adds_if
    | apply adds_seq; [| intros ?] ].

Lemma adds_install E : adds_at_most 0 (runNpmInstallWithFallback E).
Proof. unfold runNpmInstallWithFallback. repeat adds_step. Qed.

Lemma adds_compile E : adds_at_most 0 (runCompileGate E).
Proof. unfold runCompileGate. repeat adds_step. Qed.

Lemma adds_mkdir_p dirs : adds_at_most 0 (mkdir_p dirs).
Proof.
  intros w r w' Hrun. unfold mkdir_p in Hrun.
  destruct (fs w); [destruct (existsb _ dirs) |]; injection Hrun as _ <-;
    rewrite ?gen_calls_set_fs; lia.
Qed.

Lemma adds_writeFile name c : adds_at_most 0 (writeFile name c).
Proof.
  intros w r w' Hrun. unfold writeFile in Hrun.
  destruct (fs w) as [d |]; [destruct (d !! name) as [[] |] |];
    injection Hrun as _ <-;
    rewrite ?gen_calls_emit, ?gen_calls_set_fs; simpl; lia.
Qed.

Lemma adds_write_entry E path c : adds_at_most 0 (write_entry E path c).
Proof.
  unfold write_entry. destruct (resolve path) as [names |].
  - apply adds_if; [apply adds_throw |].
    apply adds_seq; [apply adds_mkdir_p | intros _].
    apply adds_if; [apply adds_throw |].
    apply adds_if; [apply adds_throw | apply adds_writeFile].
  - intros w r w' Hrun.
    destruct (write_outside E path c w) as [[message |] d];
      injection Hrun as _ <-;
      rewrite ?gen_calls_emit, ?gen_calls_set_fs; simpl; lia.
Qed.

Lemma adds_write_entries E entries : adds_at_most 0 (write_entries E entries).
Proof.
  induction entries as [| [p c] rest IH]; simpl.
  - apply adds_ret.
  - apply adds_seq; [apply adds_write_entry | intros _]. exact IH.
Qed.

Lemma adds_writeFiles E files : adds_at_most 0 (writeFiles E files).
Proof.
  unfold writeFiles.
  apply adds_seq; [apply adds_effect; intros w; rewrite gen_calls_emit; simpl; lia
                  | intros _].
  apply adds_seq; [apply adds_effect; intros w; apply gen_calls_set_fs | intros _].
  destruct files; [apply adds_write_entries | apply adds_throw].
Qed.

(** One repair is one call of the Generator at most. *)
Lemma adds_maybeAutoRepair E prompt ctx :
  adds_at_most 1 (maybeAutoRepair E prompt ctx).
Proof.
  unfold maybeAutoRepair.
  apply adds_if; [apply (adds_weaken 0); [lia | apply adds_ret] |].
  apply adds_if; [apply (adds_weaken 0); [lia | apply adds_ret] |].
  apply (adds_bind 1 0).
  - intros w r w' [= _ <-]. rewrite gen_calls_emit. simpl. lia.
  - intros _. apply adds_seq; [apply adds_observe | intros [e | files]].
    + apply adds_throw.
    + apply adds_seq; [apply adds_writeFiles | intros _; apply adds_ret].
Qed.

(** From attempt [attempt] on, the loop calls the Generator at most
    [MAX_REPAIR_ATTEMPTS - attempt] times. *)
Lemma adds_repair_loop E prompt fuel : forall attempt,
  adds_at_most (MAX_REPAIR_ATTEMPTS - attempt) (repair_loop E prompt fuel attempt).
Proof.
  induction fuel as [| fuel IH]; intros attempt; cbn [repair_loop].
  - apply (adds_weaken 0); [lia | apply adds_ret].
  - assert (Hquiet : forall exit : LoopExit,
              adds_at_most (MAX_REPAIR_ATTEMPTS - attempt) (ret exit)).
    { intros exit. apply (adds_weaken 0); [lia | apply adds_ret]. }
    destruct (attempt <=? MAX_REPAIR_ATTEMPTS)%nat eqn:Hcond; cbn [negb];
      [| apply Hquiet].
    apply Nat.leb_le in Hcond.
    assert (Hnext : adds_at_most (MAX_REPAIR_ATTEMPTS - attempt)
                      (repair_loop E prompt fuel (S attempt))).
    { eapply adds_weaken; [| apply IH]. lia. }
    assert (Hretry : adds_at_most (MAX_REPAIR_ATTEMPTS - attempt)
                       (exec cleanGeneratedAppBuildState;
                        exec runNpmInstallWithFallback E;
                        repair_loop E prompt fuel (S attempt))).
    { apply adds_seq; [apply adds_clean | intros _].
      apply adds_seq; [apply adds_install | intros _]. exact Hnext. }
    destruct (attempt =? MAX_REPAIR_ATTEMPTS)%nat eqn:Hlast.
    + (* the last attempt: no repair *)
      apply adds_seq; [apply adds_observe | intros forbidden].
      apply adds_if; [apply Hquiet |].
      apply adds_seq; [apply adds_compile | intros buildRes].
      apply adds_if; [apply Hquiet |].
      apply adds_if; [exact Hretry | apply Hquiet].
    + (* an earlier attempt: one repair, then the later attempts *)
      apply Nat.eqb_neq in Hlast.
      assert (Hrepair : forall ctx (exit : Response),
                adds_at_most (MAX_REPAIR_ATTEMPTS - attempt)
                  (await repaired <- maybeAutoRepair E prompt ctx;
                   if negb repaired then ret (Return exit)
                   else exec runNpmInstallWithFallback E;
                        repair_loop E prompt fuel (S attempt))).
      { intros ctx exit.
        replace (MAX_REPAIR_ATTEMPTS - attempt)%nat
          with (1 + (MAX_REPAIR_ATTEMPTS - S attempt))%nat by lia.
        apply adds_bind; [apply adds_maybeAutoRepair | intros repaired].
        apply adds_if; [apply (adds_weaken 0); [lia | apply adds_ret] |].
        apply adds_seq; [apply adds_install | intros _]. apply IH. }
      apply adds_seq; [apply adds_observe | intros forbidden].
      apply adds_if; [apply Hrepair |].
      apply adds_seq; [apply adds_compile | intros buildRes].
      apply adds_if; [apply Hquiet |].
      apply adds_if; [exact Hretry | apply Hrepair].
Qed.

(** The fuel [POST] passes is never used up. *)
Lemma repair_loop_fuel E prompt fuel : forall attempt w w',
  (attempt <= S MAX_REPAIR_ATTEMPTS < fuel + attempt)%nat ->
  repair_loop E prompt fuel attempt w <> (Ok OutOfFuel, w').
Proof.
  induction fuel as [| fuel IH]; intros attempt w w' Hfuel; [lia |].
  cbn [repair_loop].
  destruct (attempt <=? MAX_REPAIR_ATTEMPTS)%nat eqn:Hcond; cbn [negb];
    [| discriminate].
  apply Nat.leb_le in Hcond.
  assert (Hnext : forall w1, repair_loop E prompt fuel (S attempt) w1
                             <> (Ok OutOfFuel, w')).
  { intros w1. apply IH. lia. }
  unfold bind, ret, observe.
  repeat break_match; try discriminate; try apply Hnext.
Qed.

(** In every run of the route the Generator is called at most
    [MAX_REPAIR_ATTEMPTS] times. *)
Theorem generator_calls_bounded (E : Env) (prompt : option jsstring) (w : World) :
  (gen_calls (snd (POST E prompt w)) <= gen_calls w + MAX_REPAIR_ATTEMPTS)%nat.
Proof.
  assert (Htry : adds_at_most MAX_REPAIR_ATTEMPTS (POST_try E prompt)).
  { unfold POST_try.
    apply adds_seq; [| intros locked].
    { intros w0 r w' Hrun. unfold acquire_lock in Hrun.
      destruct (fs w0) as [d |]; [destruct (d !! lockPath) |];
        injection Hrun as _ <-; rewrite ?gen_calls_set_fs; lia. }
    apply adds_if; [apply (adds_weaken 0); [lia | apply adds_ret] |].
    apply adds_seq; [apply adds_observe | intros present].
    apply adds_if; [apply (adds_weaken 0); [lia | apply adds_ret] |].
    apply adds_seq; [apply adds_install | intros _].
    replace MAX_REPAIR_ATTEMPTS with (MAX_REPAIR_ATTEMPTS - 0 + 0)%nat at 1 by lia.
    apply adds_bind; [apply adds_repair_loop | intros exit].
    assert (Hlaunch : adds_at_most 0 (launch_stage E)).
    { unfold launch_stage.
      apply adds_seq; [apply adds_effect; intros w0; rewrite gen_calls_emit; simpl; lia
                      | intros _].
      apply adds_seq; [apply adds_effect; intros w0; rewrite gen_calls_emit; simpl; lia
                      | intros _].
      apply adds_ret. }
    destruct exit; first [exact Hlaunch | apply adds_ret]. }
  unfold POST. destruct (POST_try E prompt w) as [r w'] eqn:Hrun.
  specialize (Htry _ _ _ Hrun). simpl.
  unfold release_lock. rewrite gen_calls_rm_f. exact Htry.
Qed.

(** *** The last attempt *)

(** A finding of the scan at the last attempt is terminal. *)
Lemma final_attempt_finding E prompt fuel w finding :
  scan E w = Some finding -> finding <> [] ->
  repair_loop E prompt (S fuel) MAX_REPAIR_ATTEMPTS w
  = (Ok (Return (response_forbidden_terminal finding)), w).
Proof.
  intros Hscan Hne. simpl. unfold bind, observe. rewrite Hscan.
  destruct finding; [contradiction | reflexivity].
Qed.

(** A failed build whose output matches no corruption signature is
    terminal at the last attempt; the response carries the whole output and
    a suggestion. *)
Lemma final_attempt_build_failure E prompt fuel w w1 out :
  falsy (scan E w) = true ->
  runCompileGate E w = (Ok (false, out), w1) ->
  looksLikeCorruptInstall out = false ->
  repair_loop E prompt (S fuel) MAX_REPAIR_ATTEMPTS w
  = (Ok (Return (response_compile_terminal out)), w1)
  /\ stderr (response_compile_terminal out) = Some out
  /\ is_Some (suggestion (response_compile_terminal out)).
Proof.
  intros Hscan Hbuild Hsig. split; [| split; [reflexivity | now eexists]].
  cbn [repair_loop]. unfold bind, observe. simpl.
  rewrite Hscan. simpl. rewrite Hbuild. simpl. now rewrite Hsig.
Qed.

(** At the last attempt index a finding of the scan, and a failed build
    whose output matches no corruption signature, are terminal: the loop
    returns a 500 response, which for the build carries the whole output
    and a suggestion. *)
Theorem final_attempt_is_terminal (E : Env) (prompt : option jsstring)
    (fuel : nat) (w : World) :
  (forall finding, scan E w = Some finding -> finding <> [] ->
     repair_loop E prompt (S fuel) MAX_REPAIR_ATTEMPTS w
     = (Ok (Return (response_forbidden_terminal finding)), w)
     /\ status (response_forbidden_terminal finding) = 500%Z
     /\ is_Some (suggestion (response_forbidden_terminal finding)))
  /\ (forall w1 out, falsy (scan E w) = true ->
       runCompileGate E w = (Ok (false, out), w1) ->
       looksLikeCorruptInstall out = false ->
       repair_loop E prompt (S fuel) MAX_REPAIR_ATTEMPTS w
       = (Ok (Return (response_compile_terminal out)), w1)
       /\ status (response_compile_terminal out) = 500%Z
       /\ stderr (response_compile_terminal out) = Some out
       /\ is_Some (suggestion (response_compile_terminal out))).
Proof.
  split.
  - intros finding Hscan Hne.
    split; [now apply final_attempt_finding | split; [reflexivity | now eexists]].
  - intros w1 out Hscan Hbuild Hsig.
    destruct (final_attempt_build_failure E prompt fuel w w1 out Hscan Hbuild Hsig)
      as (Hloop & Hstderr & Hsugg).
    repeat split; assumption.
Qed.

(** The build of [Scenario.lying_build] at the last attempt index. *)
Example final_attempt_run :
  fst (repair_loop Scenario.lying_build Scenario.prompt 2 MAX_REPAIR_ATTEMPTS
         Scenario.installed)
  = Ok (Return (response_compile_terminal (lit "Build success"))).
Proof. vm_compute; reflexivity. Qed.

(** A [return] out of the loop skips the launch stage. *)
Lemma return_skips_launch E prompt w w1 w2 w3 r :
  acquire_lock (lock_stamp E) w = (Ok true, w1) ->
  runNpmInstallWithFallback E w1 = (Ok tt, w2) ->
  repair_loop E prompt (S (S MAX_REPAIR_ATTEMPTS)) 0 w2 = (Ok (Return r), w3) ->
  POST E prompt w = (r, release_lock w3)
  /\ count is_launch (snd (POST E prompt w)) = count is_launch w3.
Proof.
  intros Hlock Hinstall Hloop.
  assert (Hpost : POST E prompt w = (r, release_lock w3)).
  { unfold POST, POST_try, bind, observe. rewrite Hlock. cbn [negb].
    rewrite (acquire_lock_present _ _ _ Hlock). cbn [negb].
    rewrite Hinstall, Hloop. reflexivity. }
  split; [exact Hpost |]. rewrite Hpost. simpl.
  unfold count, release_lock, rm_f, emit, set_fs. simpl.
  rewrite List.filter_app. simpl. now rewrite app_nil_r.
Qed.

(** *** A failed build that looks like a corrupt install *)

(** After the clean and the reinstall the [continue] runs the loop's
    [attempt++]: the next iteration has the next attempt index. *)
Lemma environment_fault_advances_attempt E prompt fuel attempt w w1 w2 out :
  (attempt <= MAX_REPAIR_ATTEMPTS)%nat ->
  falsy (scan E w) = true ->
  runCompileGate E w = (Ok (false, out), w1) ->
  looksLikeCorruptInstall out = true ->
  runNpmInstallWithFallback E (cleaned w1) = (Ok tt, w2) ->
  repair_loop E prompt (S fuel) attempt w
  = repair_loop E prompt fuel (S attempt) w2.
Proof.
  intros Hle Hscan Hbuild Hsig Hinstall.
  cbn [repair_loop]. apply Nat.leb_le in Hle. rewrite Hle. cbn [negb].
  unfold bind at 1. unfold observe at 1. rewrite Hscan. cbn [negb].
  unfold bind at 1. rewrite Hbuild. cbn [fst snd]. rewrite Hsig.
  unfold bind at 1. rewrite cleaned_eq.
  unfold bind at 1. now rewrite Hinstall.
Qed.

(** At the last attempt index that [continue] ends the loop: the loop is
    left by its condition, with no passing build and no response. *)
Lemma environment_fault_at_last_attempt E prompt fuel w w1 w2 out :
  falsy (scan E w) = true ->
  runCompileGate E w = (Ok (false, out), w1) ->
  looksLikeCorruptInstall out = true ->
  runNpmInstallWithFallback E (cleaned w1) = (Ok tt, w2) ->
  repair_loop E prompt (S (S fuel)) MAX_REPAIR_ATTEMPTS w = (Ok LoopEnded, w2).
Proof.
  intros Hscan Hbuild Hsig Hinstall.
  rewrite (environment_fault_advances_attempt _ _ _ _ _ _ _ _
             (Nat.le_refl _) Hscan Hbuild Hsig Hinstall).
  reflexivity.
Qed.

(** C6 (as the code has it). Environment-fault retry: when the compile
    gate fails at an attempt index below [MAX_REPAIR_ATTEMPTS] with output
    that matches a corruption signature, the loop cleans the build state
    ([.next], [node_modules], [package-lock.json] and [.install.hash] are
    gone when the reinstall starts), reinstalls the dependencies, and goes
    on with the next iteration: the scan and the build are run again at the
    next attempt index. The Generator is not called for that retry, but the
    attempt counter is advanced by it. *)
Theorem environment_fault_retry (E : Env) (prompt : option jsstring)
    (fuel attempt : nat) (w w1 w2 : World) (out : jsstring) :
  (attempt < MAX_REPAIR_ATTEMPTS)%nat ->
  falsy (scan E w) = true ->
  runCompileGate E w = (Ok (false, out), w1) ->
  looksLikeCorruptInstall out = true ->
  runNpmInstallWithFallback E (cleaned w1) = (Ok tt, w2) ->
  repair_loop E prompt (S fuel) attempt w
  = repair_loop E prompt fuel (S attempt) w2
  /\ (gen_calls w2 <= gen_calls w)%nat
  /\ (existsSync ".next" (cleaned w1) = false
      /\ existsSync "node_modules" (cleaned w1) = false
      /\ isFile "package-lock.json" (cleaned w1) = false
      /\ isFile ".install.hash" (cleaned w1) = false).
Proof.
  intros Hlt Hscan Hbuild Hsig Hinstall. split; [| split].
  - apply (environment_fault_advances_attempt E prompt fuel attempt w w1 w2 out);
      [lia | assumption ..].
  - pose proof (adds_compile E _ _ _ Hbuild) as H1.
    pose proof (adds_clean _ _ _ (cleaned_eq w1)) as H2.
    pose proof (adds_install E _ _ _ Hinstall) as H3. lia.
  - apply cleaned_gone.
Qed.

Lemma environment_fault_retry_witness :
  repair_loop Scenario.one_environment_fault Scenario.prompt 4 0 Scenario.installed
  = repair_loop Scenario.one_environment_fault Scenario.prompt 3 1
      (snd (runNpmInstallWithFallback Scenario.one_environment_fault
              (cleaned (snd (runCompileGate Scenario.one_environment_fault
                               Scenario.installed))))).
Proof.
  refine (proj1 (environment_fault_retry Scenario.one_environment_fault
                   Scenario.prompt 3 0 Scenario.installed
                   (snd (runCompileGate Scenario.one_environment_fault
                           Scenario.installed))
                   _ (lit "npm warn tar TAR_ENTRY_ERROR ENOENT") _ _ _ _ _)).
  - unfold MAX_REPAIR_ATTEMPTS. lia.
  - reflexivity.
  - vm_compute; reflexivity.
  - vm_compute; reflexivity.
  - vm_compute; reflexivity.
Defined.

(** C3, evaluated on the code. The generated code of
    [Scenario.missing_module] imports a module it does not provide, so
    every build exits with status 1; the compiler's message contains
    [Cannot find module], a corruption signature. All three attempts fail
    that way, each is followed by a clean and a reinstall, the loop is left
    by its condition, and the route launches the dev server and reports
    success: no terminal failure is returned at the last attempt index. *)
Theorem launch_after_three_failed_builds :
  let run := POST Scenario.missing_module Scenario.prompt Scenario.fresh in
  exit_status (build_outcome Scenario.missing_module Scenario.installed) = Some 1%Z
  /\ fst (repair_loop Scenario.missing_module Scenario.prompt
            (S (S MAX_REPAIR_ATTEMPTS)) 0 Scenario.installed) = Ok LoopEnded
  /\ count is_build (snd run) = 3%nat
  /\ count is_generate (snd run) = 0%nat
  /\ count is_launch (snd run) = 1%nat
  /\ fst run = response_success.
Proof. repeat split; vm_compute; reflexivity. Qed.

(** C6, the claim as stated fails. In [Scenario.one_environment_fault] the
    first build fails on a truncated archive entry, and every later build
    on a type error. The clean and reinstall after the first failure use up
    attempt index 0: the type error is first met at index 1 (the Generator
    is told attempt 2/2), repaired once, met again at index 2, and is
    terminal there. Three builds and one call of the Generator, where a
    retry at the same index would have left two repairs. *)
Lemma environment_fault_consumes_attempt :
  let run := POST Scenario.one_environment_fault Scenario.prompt Scenario.fresh in
  let type_error := lit "Type error: 'x' is not assignable" in
  fst run = response_compile_terminal type_error
  /\ count is_build (snd run) = 3%nat
  /\ List.filter is_generate (trace (snd run))
     = [EvGenerate (build_context 1 type_error)]
  /\ includes (build_context 1 type_error) (lit "(attempt 2/2)") = true.
Proof. repeat split; vm_compute; reflexivity. Qed.

(** The loop as [POST] starts it always ends by itself. *)
Lemma POST_loop_has_fuel E prompt w w' :
  repair_loop E prompt (S (S MAX_REPAIR_ATTEMPTS)) 0 w <> (Ok OutOfFuel, w').
Proof. apply repair_loop_fuel. unfold MAX_REPAIR_ATTEMPTS. lia. Qed.

(** * Further properties of the route *)

(** ** Events along a run *)

Lemma count_emit p e w :
  count p (emit e w) = (count p w + if p e then 1 else 0)%nat.
Proof.
  unfold count, emit. simpl. rewrite List.filter_app, length_app.
  simpl. now destruct (p e).
Qed.

Lemma count_set_fs p d w : count p (set_fs d w) = count p w.
Proof. reflexivity. Qed.

Lemma ev_ret {A} p (a : A) : adds_events p 0 (ret a).
Proof. intros w r w' [= _ <-]. lia. Qed.

Lemma ev_throw {A} p e : adds_events p 0 (@throw A e).
Proof. intros w r w' [= _ <-]. lia. Qed.

Lemma ev_observe {A} p (f : World -> A) : adds_events p 0 (observe f).
Proof. intros w r w' [= _ <-]. lia. Qed.

Lemma ev_effect p n f :
  (forall w, (count p w <= count p (f w) <= count p w + n)%nat) ->
  adds_events p n (effect f).
Proof. intros Hf w r w' [= _ <-]. apply Hf. Qed.

Lemma ev_bind {A B} p n k (m : M A) (f : A -> M B) :
  adds_events p n m -> (forall a, adds_events p k (f a)) ->
  adds_events p (n + k) (bind m f).
Proof.
  intros Hm Hf w r w' Hrun. unfold bind in Hrun.
  destruct (m w) as [[a | e] w1] eqn:Hmw.
  - specialize (Hm _ _ _ Hmw). specialize (Hf a _ _ _ Hrun). lia.
  - injection Hrun as _ <-. specialize (Hm _ _ _ Hmw). lia.
Qed.

Lemma ev_seq {A B} p k (m : M A) (f : A -> M B) :
  adds_events p 0 m -> (forall a, adds_events p k (f a)) ->
  adds_events p k (bind m f).
Proof. intros Hm Hf. now apply (ev_bind p 0 k). Qed.

Lemma ev_weaken {A} p n n' (m : M A) :
  (n <= n')%nat -> adds_events p n m -> adds_events p n' m.
Proof. intros Hle Hm w r w' Hrun. specialize (Hm _ _ _ Hrun). lia. Qed.

Lemma ev_if {A} p n (b : bool) (m1 m2 : M A) :
  adds_events p n m1 -> adds_events p n m2 ->
  adds_events p n (if b then m1 else m2).
Proof. now destruct b. Qed.

Lemma ev_quiet {A} p n (a : A) : adds_events p n (ret a).
Proof. apply (ev_weaken p 0); [lia | apply ev_ret]. Qed.

Lemma ev_emit p e :
  adds_events p (if p e then 1 else 0) (effect (emit e)).
Proof. apply ev_effect. intros w. rewrite count_emit. lia. Qed.

Lemma ev_runNpm p E args label :
  adds_events p (if p (EvSpawn args) then 1 else 0) (runNpm E args label).
Proof.
  intros w r w' Hrun. unfold runNpm in Hrun.
  destruct (npm E args _) as [o d]. injection Hrun as _ <-.
  rewrite count_set_fs, count_emit. lia.
Qed.

Lemma ev_runNpm_1 p E args label : adds_events p 1 (runNpm E args label).
Proof.
  eapply ev_weaken; [| apply ev_runNpm]. destruct (p (EvSpawn args)); lia.
Qed.

Lemma count_rm_rf p name w :
  blind_to_files p -> count p (rm_rf name w) = count p w.
Proof.
  intros (Hrm & _). unfold rm_rf. rewrite count_emit, count_set_fs, Hrm. lia.
Qed.

Lemma count_rm_f p name w :
  blind_to_files p -> count p (rm_f name w) = count p w.
Proof.
  intros (Hrm & _). unfold rm_f. rewrite count_emit, count_set_fs, Hrm. lia.
Qed.

Lemma count_writeFile_quiet p name c w :
  blind_to_files p -> count p (writeFile_quiet name c w) = count p w.
Proof.
  intros (_ & Hwf & _). unfold writeFile_quiet.
  destruct (fs w) as [d |]; [destruct (d !! name) as [[] |] |];
    rewrite ?count_set_fs, count_emit, Hwf; lia.
Qed.

Lemma ev_rm_rf p name : blind_to_files p -> adds_events p 0 (effect (rm_rf name)).
Proof. intros Hp. apply ev_effect. intros w. rewrite count_rm_rf by exact Hp. lia. Qed.

Lemma ev_rm_f p name : blind_to_files p -> adds_events p 0 (effect (rm_f name)).
Proof. intros Hp. apply ev_effect. intros w. rewrite count_rm_f by exact Hp. lia. Qed.

Lemma ev_writeFile_quiet p name c :
  blind_to_files p -> adds_events p 0 (effect (writeFile_quiet name c)).
Proof.
  intros Hp. apply ev_effect. intros w.
  rewrite count_writeFile_quiet by exact Hp. lia.
Qed.

Lemma ev_clean p : blind_to_files p -> adds_events p 0 cleanGeneratedAppBuildState.
Proof.
  intros Hp. unfold cleanGeneratedAppBuildState.
  apply ev_seq; [now apply ev_rm_rf | intros _].
  apply ev_seq; [now apply ev_rm_rf | intros _].
  apply ev_seq; [now apply ev_rm_f | intros _]. now apply ev_rm_f.
Qed.

(** The installer with the bounds [a] of its first command, and [b] of its
    second command, whichever that is. *)
Lemma ev_install_gen p E a b :
  blind_to_files p ->
  (forall label, adds_events p a (runNpm E ["ci"%string] label)) ->
  (forall label, adds_events p a (runNpm E ["install"%string] label)) ->
  (forall label, adds_events p b (runNpm E ["ci"%string] label)) ->
  (forall label, adds_events p b (runNpm E ["install"%string] label)) ->
  (forall label,
      adds_events p b (runNpm E ["install"; "--legacy-peer-deps"]%string label)) ->
  adds_events p (a + b) (runNpmInstallWithFallback E).
Proof.
  intros Hp Hci Hin Hci' Hin' Hlegacy. unfold runNpmInstallWithFallback.
  apply ev_seq; [apply ev_observe | intros desiredHash].
  apply ev_seq; [apply ev_observe | intros lastHash].
  apply ev_seq; [apply ev_observe | intros hasModules].
  apply ev_if; [apply ev_quiet |].
  apply ev_seq; [apply ev_observe | intros hasLock].
  assert (Hpersist : adds_events p b
                       (effect (writeFile_quiet ".install.hash" desiredHash))).
  { apply (ev_weaken p 0); [lia | now apply ev_writeFile_quiet]. }
  assert (Hfail : forall e, adds_events p b (@throw unit e)).
  { intros e. apply (ev_weaken p 0); [lia | apply ev_throw]. }
  apply ev_bind; [destruct hasLock; [apply Hci | apply Hin] | intros first].
  apply ev_if; [exact Hpersist |].
  apply ev_if.
  - apply ev_seq; [now apply ev_clean | intros _].
    replace b with (b + 0)%nat by lia.
    apply ev_bind; [destruct hasLock; [apply Hci' | apply Hin'] | intros retry].
    apply ev_if; [now apply ev_writeFile_quiet | apply ev_throw].
  - apply ev_if; [| apply Hfail].
    replace b with (b + 0)%nat by lia.
    apply ev_bind; [apply Hlegacy | intros second].
    apply ev_if; [now apply ev_writeFile_quiet |].
    apply ev_seq; [apply ev_if; [now apply ev_clean | apply ev_ret] | intros _].
    apply ev_throw.
Qed.

Lemma blind_is_spawn : blind_to_files is_spawn /\ blind_to_generator is_spawn.
Proof. repeat split. Qed.

Lemma blind_is_build : blind_to_files is_build /\ blind_to_generator is_build.
Proof. repeat split. Qed.

Lemma blind_is_launch : blind_to_files is_launch /\ blind_to_generator is_launch.
Proof. repeat split. Qed.

Lemma install_spawn_bounds (E : Env) (w : World) :
  (count is_spawn w
   <= count is_spawn (snd (runNpmInstallWithFallback E w))
   <= count is_spawn w + 2)%nat
  /\ count is_build (snd (runNpmInstallWithFallback E w)) = count is_build w.
Proof.
  destruct (runNpmInstallWithFallback E w) as [r w'] eqn:Hrun. simpl. split.
  - apply (ev_install_gen is_spawn E 1 1 (proj1 blind_is_spawn)) in Hrun;
      [exact Hrun | intros label; apply ev_runNpm_1 ..].
  - apply (ev_install_gen is_build E 0 0 (proj1 blind_is_build)) in Hrun;
      [lia | intros label; apply (ev_runNpm is_build) ..].
Qed.

(** One call of the installer starts at most two npm subprocesses, whatever
    they answer and whatever the directory holds; it starts no build. *)
Theorem install_at_most_two_subprocesses (E : Env) (w : World) :
  (count is_spawn w
   <= count is_spawn (snd (runNpmInstallWithFallback E w))
   <= count is_spawn w + 2)%nat
  /\ count is_build (snd (runNpmInstallWithFallback E w)) = count is_build w.
Proof. apply install_spawn_bounds. Qed.

Lemma ev_mkdir_p p dirs : adds_events p 0 (mkdir_p dirs).
Proof.
  intros w r w' Hrun. unfold mkdir_p in Hrun.
  destruct (fs w); [destruct (existsb _ dirs) |]; injection Hrun as _ <-;
    rewrite ?count_set_fs; lia.
Qed.

Lemma ev_writeFile p name c : blind_to_files p -> adds_events p 0 (writeFile name c).
Proof.
  intros (_ & Hwf & _) w r w' Hrun. unfold writeFile in Hrun.
  destruct (fs w) as [d |]; [destruct (d !! name) as [[] |] |];
    injection Hrun as _ <-;
    rewrite ?count_emit, ?count_set_fs, ?Hwf; lia.
Qed.

Lemma ev_write_entry p E path c :
  blind_to_files p -> adds_events p 0 (write_entry E path c).
Proof.
  intros Hp. unfold write_entry. destruct (resolve path) as [names |].
  - apply ev_if; [apply ev_throw |].
    apply ev_seq; [apply ev_mkdir_p | intros _].
    apply ev_if; [apply ev_throw |].
    apply ev_if; [apply ev_throw | now apply ev_writeFile].
  - destruct Hp as (_ & Hwf & _). intros w r w' Hrun.
    destruct (write_outside E path c w) as [[message |] d];
      injection Hrun as _ <-;
      rewrite ?count_emit, ?count_set_fs, ?Hwf; lia.
Qed.

Lemma ev_write_entries p E entries :
  blind_to_files p -> adds_events p 0 (write_entries E entries).
Proof.
  intros Hp. induction entries as [| [path c] rest IH]; simpl.
  - apply ev_ret.
  - apply ev_seq; [now apply ev_write_entry | intros _]. exact IH.
Qed.

Lemma ev_writeFiles p E files :
  blind_to_files p -> adds_events p 0 (writeFiles E files).
Proof.
  intros Hp. unfold writeFiles.
  apply ev_seq; [| intros _].
  { apply ev_effect. intros w. rewrite count_emit.
    destruct Hp as (_ & _ & ->). lia. }
  apply ev_seq; [apply ev_effect; intros w; rewrite count_set_fs; lia | intros _].
  destruct files; [now apply ev_write_entries | apply ev_throw].
Qed.

Lemma ev_maybeAutoRepair p E prompt ctx :
  blind_to_files p -> blind_to_generator p ->
  adds_events p 0 (maybeAutoRepair E prompt ctx).
Proof.
  intros Hp Hg. unfold maybeAutoRepair.
  apply ev_if; [apply ev_ret |]. apply ev_if; [apply ev_ret |].
  apply ev_seq; [| intros _].
  { apply ev_effect. intros w. rewrite count_emit, Hg. lia. }
  apply ev_seq; [apply ev_observe | intros [e | files]]; [apply ev_throw |].
  apply ev_seq; [now apply ev_writeFiles | intros _; apply ev_ret].
Qed.

Lemma ev_compile p E :
  adds_events p (if p (EvSpawn ["run"; "build"]%string) then 1 else 0)
    (runCompileGate E).
Proof.
  unfold runCompileGate.
  replace (if p (EvSpawn ["run"; "build"]%string) then 1 else 0)%nat
    with ((if p (EvSpawn ["run"; "build"]%string) then 1 else 0) + 0)%nat by lia.
  apply ev_bind; [apply ev_runNpm | intros res; apply ev_ret].
Qed.

(** From attempt [attempt] on, every iteration of the loop is one build
    and one call of the installer at most. *)
Lemma ev_repair_loop p E prompt c i fuel :
  blind_to_files p ->
  (forall ctx, adds_events p 0 (maybeAutoRepair E prompt ctx)) ->
  adds_events p c (runCompileGate E) ->
  adds_events p i (runNpmInstallWithFallback E) ->
  forall attempt,
    adds_events p ((S MAX_REPAIR_ATTEMPTS - attempt) * (c + i))
      (repair_loop E prompt fuel attempt).
Proof.
  intros Hp Hg Hc Hi.
  induction fuel as [| fuel IH]; intros attempt; cbn [repair_loop].
  - apply ev_quiet.
  - destruct (attempt <=? MAX_REPAIR_ATTEMPTS)%nat eqn:Hcond; cbn [negb];
      [| apply ev_quiet].
    apply Nat.leb_le in Hcond.
    replace ((S MAX_REPAIR_ATTEMPTS - attempt) * (c + i))%nat
      with (c + (i + (S MAX_REPAIR_ATTEMPTS - S attempt) * (c + i)))%nat
      by (unfold MAX_REPAIR_ATTEMPTS in *; nia).
    set (rest := ((S MAX_REPAIR_ATTEMPTS - S attempt) * (c + i))%nat).
    assert (Hnext : adds_events p (i + rest)
                      (exec runNpmInstallWithFallback E;
                       repair_loop E prompt fuel (S attempt))).
    { apply ev_bind; [exact Hi | intros _; apply IH]. }
    assert (Hrepair : forall ctx (exit : Response),
              adds_events p (i + rest)
                (await repaired <- maybeAutoRepair E prompt ctx;
                 if negb repaired then ret (Return exit)
                 else exec runNpmInstallWithFallback E;
                      repair_loop E prompt fuel (S attempt))).
    { intros ctx exit.
      apply ev_seq; [apply Hg | intros repaired].
      apply ev_if; [apply ev_quiet | exact Hnext]. }
    apply ev_seq; [apply ev_observe | intros forbidden].
    apply ev_if.
    + apply (ev_weaken p (i + rest)); [lia |].
      apply ev_if; [apply ev_quiet | apply Hrepair].
    + apply ev_bind; [exact Hc | intros buildRes].
      apply ev_if; [apply ev_quiet |].
      apply ev_if.
      * apply ev_seq; [now apply ev_clean | intros _]. exact Hnext.
      * apply ev_if; [apply ev_quiet | apply Hrepair].
Qed.

(** The whole route with the bounds of its stages. *)
Lemma ev_POST p E prompt c i w :
  blind_to_files p ->
  (forall ctx, adds_events p 0 (maybeAutoRepair E prompt ctx)) ->
  adds_events p c (runCompileGate E) ->
  adds_events p i (runNpmInstallWithFallback E) ->
  (count p w
   <= count p (snd (POST E prompt w))
   <= count p w + (i + 3 * (c + i)
                   + ((if p EvFreePort then 1 else 0)
                      + (if p EvLaunch then 1 else 0))))%nat.
Proof.
  intros Hp Hg Hc Hi.
  assert (Htry : adds_events p
                   (i + 3 * (c + i)
                    + ((if p EvFreePort then 1 else 0)
                       + (if p EvLaunch then 1 else 0)))
                   (POST_try E prompt)).
  { unfold POST_try.
    apply ev_seq; [| intros locked].
    { intros w0 r w' Hrun. unfold acquire_lock in Hrun.
      destruct (fs w0) as [d |]; [destruct (d !! lockPath) |];
        injection Hrun as _ <-; rewrite ?count_set_fs; lia. }
    apply ev_if; [apply ev_quiet |].
    apply ev_seq; [apply ev_observe | intros present].
    apply ev_if; [apply ev_quiet |].
    rewrite <- Nat.add_assoc.
    apply ev_bind; [exact Hi | intros _].
    apply ev_bind; [| intros exit].
    { replace (3 * (c + i))%nat
        with ((S MAX_REPAIR_ATTEMPTS - 0) * (c + i))%nat by reflexivity.
      now apply ev_repair_loop. }
    assert (Hlaunch : adds_events p
                        ((if p EvFreePort then 1 else 0)
                         + (if p EvLaunch then 1 else 0)) (launch_stage E)).
    { unfold launch_stage. apply ev_bind; [apply ev_emit | intros _].
      replace (if p EvLaunch then 1 else 0)%nat
        with ((if p EvLaunch then 1 else 0) + 0)%nat by lia.
      apply ev_bind; [apply ev_emit | intros _; apply ev_ret]. }
    destruct exit; first [exact Hlaunch | apply ev_quiet]. }
  unfold POST. destruct (POST_try E prompt w) as [r w'] eqn:Hrun.
  specialize (Htry _ _ _ Hrun). simpl.
  unfold release_lock. rewrite count_rm_f by exact Hp. exact Htry.
Qed.

(** No retry of the route is unbounded: whatever the subprocesses, the scan
    and the Generator answer, one request runs at most three builds, starts
    at most eleven npm subprocesses (installs and builds), and launches the
    dev server at most once. *)
Theorem request_is_bounded (E : Env) (prompt : option jsstring) (w : World) :
  (count is_build (snd (POST E prompt w)) <= count is_build w + 3)%nat
  /\ (count is_spawn (snd (POST E prompt w)) <= count is_spawn w + 11)%nat
  /\ (count is_launch (snd (POST E prompt w)) <= count is_launch w + 1)%nat.
Proof.
  pose proof (fun w0 => proj1 (install_spawn_bounds E w0)) as Hspawn.
  pose proof (fun w0 => proj2 (install_spawn_bounds E w0)) as Hbuild.
  repeat split.
  - pose proof (ev_POST is_build E prompt 1 0 w (proj1 blind_is_build)
                  (fun ctx => ev_maybeAutoRepair is_build E prompt ctx
                                (proj1 blind_is_build) (proj2 blind_is_build))
                  (ev_compile is_build E)) as H.
    simpl in H. apply H.
    intros w0 r w' Hrun. specialize (Hbuild w0). rewrite Hrun in Hbuild.
    simpl in Hbuild. lia.
  - pose proof (ev_POST is_spawn E prompt 1 2 w (proj1 blind_is_spawn)
                  (fun ctx => ev_maybeAutoRepair is_spawn E prompt ctx
                                (proj1 blind_is_spawn) (proj2 blind_is_spawn))
                  (ev_compile is_spawn E)) as H.
    simpl in H. apply H.
    intros w0 r w' Hrun. specialize (Hspawn w0). rewrite Hrun in Hspawn.
    exact Hspawn.
  - pose proof (ev_POST is_launch E prompt 0 0 w (proj1 blind_is_launch)
                  (fun ctx => ev_maybeAutoRepair is_launch E prompt ctx
                                (proj1 blind_is_launch) (proj2 blind_is_launch))
                  (ev_compile is_launch E)) as H.
    simpl in H. apply H.
    apply (ev_install_gen is_launch E 0 0 (proj1 blind_is_launch));
      intros label; apply (ev_runNpm is_launch).
Qed.

(** The bounds are met: in [Worst.stubborn] every install needs its retry
    and every build fails as an environment fault. *)
Example request_bounds_are_met :
  count is_spawn (snd (POST Worst.stubborn Scenario.prompt Scenario.fresh)) = 11%nat
  /\ count is_build (snd (POST Worst.stubborn Scenario.prompt Scenario.fresh)) = 3%nat
  /\ count is_launch (snd (POST Worst.stubborn Scenario.prompt Scenario.fresh)) = 1%nat.
Proof. repeat split; vm_compute; reflexivity. Qed.

(** ** What a request answers *)

Lemma repair_loop_return_failure E prompt fuel : forall attempt w r w',
  repair_loop E prompt fuel attempt w = (Ok (Return r), w') -> success r = false.
Proof.
  induction fuel as [| fuel IH]; intros attempt w r w' H; simpl in H.
  - discriminate.
  - unfold bind, ret, observe in H.
    repeat break_match; try discriminate;
      try (injection H as <- _; reflexivity);
      try (eapply IH; eassumption).
Qed.

(** Past the lock a request ends in one of three ways: an exception caught
    by the outer [catch], a [return] out of the repair loop, or the launch
    stage. *)
Lemma POST_past_the_lock E prompt w w1 :
  acquire_lock (lock_stamp E) w = (Ok true, w1) ->
  (exists e w2, POST E prompt w = (response_fatal e, release_lock w2))
  \/ (exists r w2, status r = 500%Z /\ success r = false
                   /\ POST E prompt w = (r, release_lock w2))
  \/ (exists w2,
        POST E prompt w
        = (response_of_health (awaitReady E),
           release_lock (emit EvLaunch (emit EvFreePort w2)))).
Proof.
  intros Hlock. unfold POST, POST_try, bind, ret, observe.
  generalize (S (S MAX_REPAIR_ATTEMPTS)). intros fuel.
  rewrite Hlock. cbn [negb]. rewrite (acquire_lock_present _ _ _ Hlock).
  cbn [negb].
  destruct (runNpmInstallWithFallback E w1) as [[[] | e] w2];
    [| left; eauto].
  destruct (repair_loop E prompt fuel 0 w2) as [[exit | e] w3] eqn:Hloop;
    [| left; eauto].
  destruct exit as [| | r |];
    try (right; right; exists w3; reflexivity).
  right; left. exists r, w3. repeat split.
  - eapply repair_loop_return_500; eassumption.
  - eapply repair_loop_return_failure; eassumption.
Qed.

(** The route answers 409 exactly when the [open] of the marker fails: the
    marker path is taken, or the directory is missing. *)
Theorem busy_exactly_when_open_fails (E : Env) (prompt : option jsstring)
    (w : World) :
  status (fst (POST E prompt w)) = 409%Z
  <-> (existsSync_appDir w = false \/ existsSync lockPath w = true).
Proof.
  unfold existsSync_appDir, existsSync. split.
  - intros Hstatus. destruct (fs w) as [d |] eqn:Hfs; [| now left].
    right. destruct (d !! lockPath) as [n |] eqn:Hn.
    + apply bool_decide_eq_true_2. now exists n.
    + exfalso.
      assert (Hlock : acquire_lock (lock_stamp E) w
                      = (Ok true, set_fs (Some (<[lockPath := File (lock_stamp E)]> d)) w)).
      { unfold acquire_lock. now rewrite Hfs, Hn. }
      destruct (POST_past_the_lock E prompt w _ Hlock)
        as [(e & w2 & Hp) | [(r & w2 & Hr & _ & Hp) | (w2 & Hp)]];
        rewrite Hp in Hstatus; simpl in Hstatus; try discriminate.
      * rewrite Hr in Hstatus. discriminate.
      * destruct (awaitReady E); discriminate.
  - intros Hfail.
    assert (Hpost : fst (POST E prompt w) = response_busy);
      [| now rewrite Hpost].
    unfold POST, POST_try, bind, acquire_lock.
    destruct (fs w) as [d |]; [| reflexivity].
    destruct Hfail as [Hfail | Hfail]; [discriminate |].
    apply bool_decide_eq_true_1 in Hfail as [n ->]. reflexivity.
Qed.

(** ** How the prober comes to [Ready] *)

Lemma probe_loop_exit_ready E fuel : forall i c n,
  probe_loop E fuel i c = (ExitReady, n) ->
  exists j, n = S j /\ (i <= j < PROBE_ATTEMPTS)%nat
            /\ obs_ready (probe E j) = true
            /\ (forall k, (i <= k < j)%nat -> obs_ready (probe E k) = false).
Proof.
  induction fuel as [| fuel IH]; intros i c n Hrun; [discriminate |].
  cbn [probe_loop] in Hrun.
  destruct (i <? PROBE_ATTEMPTS)%nat eqn:Hi; [| discriminate].
  apply Nat.ltb_lt in Hi. cbn [negb] in Hrun.
  destruct (obs_is_500 (probe E i)
            && (MAX_CONSECUTIVE_500
                <=? (if obs_is_500 (probe E i) then S c else 0))%nat);
    [discriminate |].
  destruct (obs_ready (probe E i)) eqn:Hready.
  - injection Hrun as <-. exists i.
    split; [reflexivity |]. split; [lia |]. split; [exact Hready |].
    intros k Hk. lia.
  - apply IH in Hrun as (j & -> & Hj & Hrj & Hbefore).
    exists j. split; [reflexivity |]. split; [lia |]. split; [exact Hrj |].
    intros k Hk. destruct (Nat.eq_dec k i) as [-> | Hne]; [exact Hready |].
    apply Hbefore. lia.
Qed.

Lemma probe_loop_exit_end E fuel : forall i c,
  fst (probe_loop E fuel i c) = ExitLoopEnd ->
  forall k, (i <= k < PROBE_ATTEMPTS)%nat -> obs_ready (probe E k) = false.
Proof.
  induction fuel as [| fuel IH]; intros i c Hrun; [discriminate |].
  cbn [probe_loop] in Hrun.
  destruct (i <? PROBE_ATTEMPTS)%nat eqn:Hi.
  - cbn [negb] in Hrun.
    destruct (obs_is_500 (probe E i)
              && (MAX_CONSECUTIVE_500
                  <=? (if obs_is_500 (probe E i) then S c else 0))%nat);
      [discriminate |].
    destruct (obs_ready (probe E i)) eqn:Hready; [discriminate |].
    intros k Hk. destruct (Nat.eq_dec k i) as [-> | Hne]; [exact Hready |].
    apply (IH _ _ Hrun). lia.
  - apply Nat.ltb_ge in Hi. intros k Hk. lia.
Qed.

Lemma ready_two_ways E :
  awaitReady E = Ready -> ready_by_poll E \/ ready_by_banner E.
Proof.
  unfold awaitReady, ready_by_poll, ready_by_banner.
  destruct (probe_loop E (S PROBE_ATTEMPTS) 0 0) as [exit n] eqn:Hloop.
  cbn [fst]. destruct exit; try discriminate.
  - intros _. left.
    apply probe_loop_exit_ready in Hloop as (j & -> & Hj & Hready & Hbefore).
    exists j. split; [lia |]. split; [exact Hready |]. split; [| reflexivity].
    intros k Hk. apply Hbefore. lia.
  - destruct (stream_ready E); [| discriminate]. intros _. right.
    split; [| now split].
    intros k Hk.
    apply (probe_loop_exit_end E (S PROBE_ATTEMPTS) 0 0); [now rewrite Hloop | lia].
  - intros _. exfalso.
    apply (probe_loop_fuel E (S PROBE_ATTEMPTS) 0 0);
      [unfold PROBE_ATTEMPTS; lia | now rewrite Hloop].
Qed.

(** A success response is given only after the dev server was launched and
    the test that follows the probing loop found [serverReady] set: by a
    poll that was answered with a status in [[200, 500)], or, when no poll
    was, by a ready marker on the streams of the dev server. The run then
    ends with the port cleanup, the launch and the release of the marker. *)
Theorem success_means_launched_and_ready (E : Env) (prompt : option jsstring)
    (w : World) :
  success (fst (POST E prompt w)) = true ->
  fst (POST E prompt w) = response_success
  /\ awaitReady E = Ready
  /\ (ready_by_poll E \/ ready_by_banner E)
  /\ exists w2, snd (POST E prompt w)
                = release_lock (emit EvLaunch (emit EvFreePort w2)).
Proof.
  intros Hsuccess.
  destruct (acquire_lock_total (lock_stamp E) w) as ([|] & w1 & Hlock).
  - destruct (POST_past_the_lock E prompt w _ Hlock)
      as [(e & w2 & Hp) | [(r & w2 & _ & Hr & Hp) | (w2 & Hp)]];
      rewrite Hp in Hsuccess |- *; simpl in *; try discriminate.
    + rewrite Hr in Hsuccess. discriminate.
    + destruct (awaitReady E) eqn:Hready; try discriminate.
      split; [reflexivity |]. split; [reflexivity |].
      split; [now apply ready_two_ways | eauto].
  - exfalso. unfold POST, POST_try, bind in Hsuccess.
    rewrite Hlock in Hsuccess. discriminate.
Qed.

Lemma success_means_launched_and_ready_witness :
  (fst (POST Scenario.healthy Scenario.prompt Scenario.fresh) = response_success
   /\ awaitReady Scenario.healthy = Ready
   /\ (ready_by_poll Scenario.healthy \/ ready_by_banner Scenario.healthy)
   /\ exists w2, snd (POST Scenario.healthy Scenario.prompt Scenario.fresh)
                 = release_lock (emit EvLaunch (emit EvFreePort w2)))
  /\ (fst (POST Scenario.banner_only Scenario.prompt Scenario.fresh) = response_success
      /\ awaitReady Scenario.banner_only = Ready
      /\ (ready_by_poll Scenario.banner_only \/ ready_by_banner Scenario.banner_only)
      /\ exists w2, snd (POST Scenario.banner_only Scenario.prompt Scenario.fresh)
                    = release_lock (emit EvLaunch (emit EvFreePort w2))).
Proof.
  split.
  - apply (success_means_launched_and_ready Scenario.healthy Scenario.prompt
             Scenario.fresh).
    vm_compute; reflexivity.
  - apply (success_means_launched_and_ready Scenario.banner_only Scenario.prompt
             Scenario.fresh).
    vm_compute; reflexivity.
Defined.

(** The two ways are both taken: [Scenario.healthy] answers the first
    poll; [Scenario.banner_only] answers none and is reported as a success
    all the same. *)
Example ready_both_ways :
  ready_by_poll Scenario.healthy /\ ready_by_banner Scenario.banner_only.
Proof.
  split.
  - exists 0%nat. split; [unfold PROBE_ATTEMPTS; lia |]. split; [reflexivity |].
    split; [intros j Hj; lia | reflexivity].
  - split; [intros j _; reflexivity |]. split; reflexivity.
Qed.

(** Whatever happens in a run (a response, an exception, a rejected
    [open]), no marker file is left when the handler returns. *)
Theorem marker_file_gone_after_every_run (E : Env) (prompt : option jsstring)
    (w : World) :
  isFile lockPath (snd (POST E prompt w)) = false.
Proof.
  unfold POST. destruct (POST_try E prompt w) as [r w']. simpl.
  apply rm_f_gone.
Qed.

(** ** Repair needs a prompt and a key *)

Lemma ev_maybeAutoRepair_off p E prompt ctx :
  falsy prompt || falsy (OPENAI_API_KEY E) = true ->
  adds_events p 0 (maybeAutoRepair E prompt ctx).
Proof.
  intros Hoff. unfold maybeAutoRepair.
  destruct (falsy prompt); [apply ev_ret |].
  simpl in Hoff. rewrite Hoff. apply ev_ret.
Qed.

Lemma maybeAutoRepair_off E prompt ctx w :
  falsy prompt || falsy (OPENAI_API_KEY E) = true ->
  maybeAutoRepair E prompt ctx w = (Ok false, w).
Proof.
  intros Hoff. unfold maybeAutoRepair.
  destruct (falsy prompt); [reflexivity |].
  simpl in Hoff. now rewrite Hoff.
Qed.

(** When the request carries no prompt (or an empty one), or no API key is
    configured, no run calls the Generator, and below the last attempt
    index the first finding of the scan, or the first failed build that
    does not look like a corrupt install, ends the loop with its 500
    response: nothing is retried. *)
Theorem no_repair_without_prompt_or_key (E : Env) (prompt : option jsstring) :
  falsy prompt || falsy (OPENAI_API_KEY E) = true ->
  (forall w, count is_generate (snd (POST E prompt w)) = count is_generate w)
  /\ (forall fuel attempt w finding,
        (attempt < MAX_REPAIR_ATTEMPTS)%nat ->
        scan E w = Some finding -> finding <> [] ->
        repair_loop E prompt (S fuel) attempt w
        = (Ok (Return response_forbidden_no_repair), w))
  /\ (forall fuel attempt w w1 out,
        (attempt < MAX_REPAIR_ATTEMPTS)%nat ->
        falsy (scan E w) = true ->
        runCompileGate E w = (Ok (false, out), w1) ->
        looksLikeCorruptInstall out = false ->
        repair_loop E prompt (S fuel) attempt w
        = (Ok (Return (response_compile_no_repair out)), w1)).
Proof.
  intros Hoff. split; [| split].
  - intros w.
    assert (Hfiles : blind_to_files is_generate) by (repeat split).
    pose proof (ev_POST is_generate E prompt 0 0 w Hfiles
                  (fun ctx => ev_maybeAutoRepair_off is_generate E prompt ctx Hoff)
                  (ev_compile is_generate E)) as H.
    simpl in H.
    assert (Hinstall : adds_events is_generate 0 (runNpmInstallWithFallback E)).
    { apply (ev_install_gen is_generate E 0 0 Hfiles);
        intros label; apply (ev_runNpm is_generate). }
    specialize (H Hinstall). lia.
  - intros fuel attempt w finding Hlt Hscan Hne.
    cbn [repair_loop].
    assert (Hle : (attempt <=? MAX_REPAIR_ATTEMPTS)%nat = true)
      by (apply Nat.leb_le; lia).
    assert (Hneq : (attempt =? MAX_REPAIR_ATTEMPTS)%nat = false)
      by (apply Nat.eqb_neq; lia).
    rewrite Hle, Hneq. cbn [negb]. unfold bind at 1. unfold observe at 1.
    rewrite Hscan. destruct finding; [contradiction |]. cbn [falsy negb].
    unfold bind at 1. now rewrite maybeAutoRepair_off.
  - intros fuel attempt w w1 out Hlt Hscan Hbuild Hsig.
    cbn [repair_loop].
    assert (Hle : (attempt <=? MAX_REPAIR_ATTEMPTS)%nat = true)
      by (apply Nat.leb_le; lia).
    assert (Hneq : (attempt =? MAX_REPAIR_ATTEMPTS)%nat = false)
      by (apply Nat.eqb_neq; lia).
    rewrite Hle, Hneq. cbn [negb]. unfold bind at 1. unfold observe at 1.
    rewrite Hscan. cbn [negb]. unfold bind at 1. rewrite Hbuild.
    cbn [fst snd]. rewrite Hsig.
    unfold bind at 1. now rewrite maybeAutoRepair_off.
Qed.

Lemma no_repair_without_prompt_or_key_witness :
  count is_generate (snd (POST Scenario.lying_build None Scenario.fresh))
  = count is_generate Scenario.fresh.
Proof.
  refine (proj1 (no_repair_without_prompt_or_key Scenario.lying_build None _)
            Scenario.fresh).
  reflexivity.
Defined.

(** The upload page calls the route without a body: the build of
    [Scenario.empty_mapping] fails once and the run ends there. *)
Example request_without_prompt :
  fst (POST Scenario.empty_mapping None Scenario.fresh)
  = response_compile_no_repair (lit "Type error: 'x' is not assignable")
  /\ count is_build (snd (POST Scenario.empty_mapping None Scenario.fresh)) = 1%nat
  /\ count is_generate (snd (POST Scenario.empty_mapping None Scenario.fresh)) = 0%nat.
Proof. repeat split; vm_compute; reflexivity. Qed.

(** ** The installer: persistence and fallbacks *)

Lemma runNpm_total E args label w :
  exists r w', runNpm E args label w = (Ok r, w').
Proof. unfold runNpm. destruct (npm E args _). eauto. Qed.

(** A successful install either was skipped or ends with the write of the
    fingerprint computed at its start. *)
Lemma install_ok_cases E w w1 :
  runNpmInstallWithFallback E w = (Ok tt, w1) ->
  (skip_install w = true /\ w1 = w)
  \/ exists w2, w1 = writeFile_quiet ".install.hash" (computeInstallHash w) w2.
Proof.
  unfold runNpmInstallWithFallback, skip_install, bind, observe, ret, effect, throw.
  destruct (bool_decide _ && existsSync "node_modules" w) eqn:Hskip.
  - intros [= <-]. now left.
  - intros H. right.
    match type of H with
    | context [runNpm E ?a ?l w] =>
        destruct (runNpm_total E a l w) as (first & wa & Hfirst)
    end.
    rewrite Hfirst in H.
    destruct (code first =? 0)%Z; [injection H as <-; eauto |].
    destruct (looksLikeCorruptInstall (output first)).
    + rewrite cleaned_eq in H. cbv beta iota in H.
      match type of H with
      | context [runNpm E ?a ?l (cleaned wa)] =>
          destruct (runNpm_total E a l (cleaned wa)) as (retry & wb & Hretry)
      end.
      rewrite Hretry in H.
      destruct (code retry =? 0)%Z; [injection H as <-; eauto | discriminate].
    + destruct (existsSync "package-lock.json" w); simpl in H; [discriminate |].
      match type of H with
      | context [runNpm E ?a ?l wa] =>
          destruct (runNpm_total E a l wa) as (second & wb & Hsecond)
      end.
      rewrite Hsecond in H.
      destruct (code second =? 0)%Z; [injection H as <-; eauto |].
      destruct (looksLikeCorruptInstall (output second)); discriminate.
Qed.

Lemma computeInstallHash_data w w' :
  install_hash_data w' = install_hash_data w ->
  computeInstallHash w' = computeInstallHash w.
Proof. unfold computeInstallHash. now intros ->. Qed.

Lemma read_after_writeFile_quiet name c w :
  (forall d, fs (writeFile_quiet name c w) = Some d -> d !! name <> Some Folder) ->
  existsSync_appDir (writeFile_quiet name c w) = true ->
  readFile_or_empty name (writeFile_quiet name c w) = c.
Proof.
  unfold writeFile_quiet, readFile_or_empty, existsSync_appDir.
  destruct (fs w) as [d |] eqn:Hfs.
  - intros Hfree _. destruct (d !! name) as [[c' |] |] eqn:Hn.
    + simpl. now rewrite lookup_insert_eq.
    + exfalso. apply (Hfree d); [simpl; exact Hfs | exact Hn].
    + simpl. now rewrite lookup_insert_eq.
  - simpl. rewrite Hfs. intros _ H. apply bool_decide_eq_true_1 in H as [x Hx].
    discriminate.
Qed.

(** Install idempotence. After a successful call of the installer, a second
    call on the directory it left starts no subprocess and changes nothing,
    provided the install did not change the manifest or the lockfile, the
    packages are in place, and no directory stands at the fingerprint's
    path. *)
Theorem install_twice_skips (E : Env) (w w1 : World) :
  runNpmInstallWithFallback E w = (Ok tt, w1) ->
  install_hash_data w1 = install_hash_data w ->
  existsSync "node_modules" w1 = true ->
  hash_path_free w1 ->
  runNpmInstallWithFallback E w1 = (Ok tt, w1).
Proof.
  intros Hfirst Hdata Hmodules Hfree.
  apply install_skip_trimmed; [| exact Hmodules].
  rewrite (computeInstallHash_data _ _ Hdata).
  destruct (install_ok_cases E w w1 Hfirst) as [[Hskip ->] | [w2 ->]].
  - unfold skip_install in Hskip. apply andb_true_iff in Hskip as [Hskip _].
    now apply bool_decide_eq_true_1 in Hskip.
  - rewrite read_after_writeFile_quiet.
    + apply trim_String_of_number.
    + exact Hfree.
    + unfold existsSync_appDir. unfold existsSync in Hmodules.
      destruct (fs (writeFile_quiet _ _ w2)); [reflexivity | discriminate].
Qed.

Lemma install_twice_skips_witness :
  runNpmInstallWithFallback Scenario.healthy
    (snd (runNpmInstallWithFallback Scenario.healthy Scenario.fresh))
  = (Ok tt, snd (runNpmInstallWithFallback Scenario.healthy Scenario.fresh)).
Proof.
  apply (install_twice_skips Scenario.healthy Scenario.fresh).
  - reflexivity.
  - vm_compute; reflexivity.
  - vm_compute; reflexivity.
  - intros d Hd. vm_compute in Hd. injection Hd as <-. vm_compute. discriminate.
Defined.

(** The fallback for peer-dependency conflicts. Without a lockfile, when
    [npm install] exits non-zero with output that matches no corruption
    signature, the installer runs [npm install --legacy-peer-deps] once: on
    status 0 it persists the fingerprint; otherwise it throws with the
    output of the second run (of the first one if the second printed
    nothing), after a cleaning if the second output looks corrupt. *)
Theorem legacy_peer_deps_fallback (E : Env) (w w1 w2 : World)
    (first second : NpmResult) :
  skip_install w = false ->
  existsSync "package-lock.json" w = false ->
  runNpm E ["install"%string] (lit "npm install") w = (Ok first, w1) ->
  code first <> 0%Z ->
  looksLikeCorruptInstall (output first) = false ->
  runNpm E ["install"; "--legacy-peer-deps"]%string
    (lit "npm install --legacy-peer-deps") w1 = (Ok second, w2) ->
  runNpmInstallWithFallback E w
  = if (code second =? 0)%Z
    then (Ok tt, writeFile_quiet ".install.hash" (computeInstallHash w) w2)
    else (Throw (lit "npm install failed.

" ++ match output second with [] => output first | o => o end),
          if looksLikeCorruptInstall (output second) then cleaned w2 else w2).
Proof.
  intros Hskip Hlock Hfirst Hcode Hsig Hsecond.
  unfold runNpmInstallWithFallback, bind, observe.
  unfold skip_install in Hskip. rewrite Hskip, Hlock, Hfirst.
  apply Z.eqb_neq in Hcode. rewrite Hcode, Hsig. cbn [negb].
  rewrite Hsecond. destruct (code second =? 0)%Z; [reflexivity |].
  destruct (looksLikeCorruptInstall (output second)); reflexivity.
Qed.

Lemma legacy_peer_deps_fallback_witness :
  runNpmInstallWithFallback Worst.peer_conflict Scenario.fresh
  = (Ok tt,
     writeFile_quiet ".install.hash" (computeInstallHash Scenario.fresh)
       (snd (runNpm Worst.peer_conflict ["install"; "--legacy-peer-deps"]%string
               (lit "npm install --legacy-peer-deps")
               (snd (runNpm Worst.peer_conflict ["install"%string]
                       (lit "npm install") Scenario.fresh))))).
Proof.
  refine (legacy_peer_deps_fallback Worst.peer_conflict Scenario.fresh
            _ _ _ (mkNpmResult 0 []) _ _ _ _ _ _).
  - vm_compute; reflexivity.
  - vm_compute; reflexivity.
  - reflexivity.
  - vm_compute; discriminate.
  - vm_compute; reflexivity.
  - reflexivity.
Defined.

(** With a lockfile there is no fallback: when [npm ci] exits non-zero with
    output that matches no corruption signature, the installer throws with
    that output after this one subprocess, and writes no fingerprint. *)
Theorem lockfile_install_has_no_fallback (E : Env) (w w1 : World)
    (first : NpmResult) :
  skip_install w = false ->
  existsSync "package-lock.json" w = true ->
  runNpm E ["ci"%string] (lit "npm ci") w = (Ok first, w1) ->
  code first <> 0%Z ->
  looksLikeCorruptInstall (output first) = false ->
  runNpmInstallWithFallback E w
  = (Throw (lit "npm ci failed.

" ++ output first), w1)
  /\ trace w1 = trace w ++ [EvSpawn ["ci"%string]].
Proof.
  intros Hskip Hlock Hfirst Hcode Hsig. split.
  - unfold runNpmInstallWithFallback, bind, observe.
    unfold skip_install in Hskip. rewrite Hskip, Hlock, Hfirst.
    apply Z.eqb_neq in Hcode. now rewrite Hcode, Hsig.
  - apply (runNpm_trace _ _ _ _ _ _ Hfirst).
Qed.

Lemma lockfile_install_has_no_fallback_witness :
  runNpmInstallWithFallback Worst.offline Worst.with_lockfile
  = (Throw (lit "npm ci failed.

npm ERR! network ETIMEDOUT"),
     snd (runNpm Worst.offline ["ci"%string] (lit "npm ci") Worst.with_lockfile)).
Proof.
  refine (proj1 (lockfile_install_has_no_fallback Worst.offline
                   Worst.with_lockfile _
                   (mkNpmResult 1 (lit "npm ERR! network ETIMEDOUT")) _ _ _ _ _)).
  - vm_compute; reflexivity.
  - vm_compute; reflexivity.
  - reflexivity.
  - vm_compute; discriminate.
  - vm_compute; reflexivity.
Defined.

(** ** [writeFiles]: what is on disk afterwards *)

Lemma lookup_mkdirs (d : gmap string Node) dirs k :
  foldr (fun a m => <[a := Folder]> m) d dirs !! k
  = if decide (k ∈ dirs) then Some Folder else d !! k.
Proof.
  induction dirs as [| a dirs IH]; simpl.
  - destruct (decide (k ∈ [])) as [Hin | _]; [| reflexivity].
    now apply elem_of_nil in Hin.
  - destruct (decide (a = k)) as [-> | Hne].
    + rewrite lookup_insert_eq.
      destruct (decide (k ∈ k :: dirs)) as [_ | Hn]; [reflexivity |].
      exfalso. apply Hn. left.
    + rewrite lookup_insert_ne by exact Hne. rewrite IH.
      destruct (decide (k ∈ dirs)) as [Hin | Hn];
        destruct (decide (k ∈ a :: dirs)) as [Hin' | Hn']; try reflexivity.
      * exfalso. apply Hn'. now right.
      * exfalso. apply elem_of_cons in Hin' as [-> | Hin']; [now apply Hne | now apply Hn].
Qed.

(** One entry whose path stays below the target directory, when it is
    written without error. *)
Lemma write_entry_ok E key c names w w' :
  resolve key = Some names ->
  write_entry E key c w = (Ok tt, w') ->
  exists d,
    fs w = Some d
    /\ (forall a, a ∈ dirs_above names -> is_file (d !! a) = false)
    /\ fs w' = Some (<[rel_path names := File c]>
                       (foldr (fun a m => <[a := Folder]> m) d (dirs_above names))).
Proof.
  intros Hres. unfold write_entry. rewrite Hres.
  destruct (existsb has_nul (removelast names)); [discriminate |].
  unfold bind, mkdir_p.
  destruct (fs w) as [d |] eqn:Hfs; [| discriminate].
  destruct (existsb _ (dirs_above names)) eqn:Hex; [discriminate |].
  destruct (has_nul (rel_path names)); [discriminate |].
  destruct (bool_decide (names = []) || ends_with_slash key); [discriminate |].
  unfold writeFile. simpl. intros H. exists d. split; [reflexivity |]. split.
  - intros a Ha. apply not_true_is_false. intros Hfile.
    apply not_true_iff_false in Hex. apply Hex.
    apply existsb_exists. exists a. split; [now apply list_elem_of_In | exact Hfile].
  - destruct (foldr _ d (dirs_above names) !! rel_path names) as [[] |];
      try discriminate; now injection H as <-.
Qed.

Lemma stays_inside_cons key c rest :
  stays_inside ((key, c) :: rest) ->
  (exists names, resolve key = Some names) /\ stays_inside rest.
Proof.
  intros H. split.
  - destruct (H key) as [names Hn]; [simpl; left | now exists names].
  - intros k Hk. apply H. simpl. now right.
Qed.

Lemma write_entries_step E key c rest w w' :
  write_entries E ((key, c) :: rest) w = (Ok tt, w') ->
  exists w1, write_entry E key c w = (Ok tt, w1)
             /\ write_entries E rest w1 = (Ok tt, w').
Proof.
  cbn [write_entries]. unfold bind at 1.
  destruct (write_entry E key c w) as [[[] | e] w1]; [| discriminate].
  intros H. now exists w1.
Qed.

(** A file at a place that no later key names survives the later writes. *)
Lemma write_entries_keeps E entries : forall w w' d k c,
  write_entries E entries w = (Ok tt, w') -> stays_inside entries ->
  fs w = Some d -> d !! k = Some (File c) ->
  Some k ∉ target <$> entries.*1 ->
  exists d', fs w' = Some d' /\ d' !! k = Some (File c).
Proof.
  induction entries as [| [key c0] rest IH]; intros w w' d k c Hrun Hin Hfs Hk Hout.
  - injection Hrun as <-. eauto.
  - apply write_entries_step in Hrun as (w1 & Hstep & Hrun).
    apply stays_inside_cons in Hin as [[names Hres] Hin].
    destruct (write_entry_ok _ _ _ _ _ _ Hres Hstep) as (d0 & Hd0 & Hanc & Hw1).
    rewrite Hfs in Hd0. injection Hd0 as <-.
    apply (IH w1 w' _ k c Hrun Hin Hw1).
    + assert (Hkp : k <> rel_path names).
      { intros ->. apply Hout. simpl. unfold target at 1. rewrite Hres. left. }
      rewrite lookup_insert_ne by (intros Heq; now apply Hkp).
      rewrite lookup_mkdirs.
      destruct (decide (k ∈ dirs_above names)) as [Hd | _]; [| exact Hk].
      specialize (Hanc k Hd). now rewrite Hk in Hanc.
    + intros Hk'. apply Hout. simpl. now right.
Qed.

Lemma write_entries_read_back E entries : forall w w' d,
  write_entries E entries w = (Ok tt, w') -> stays_inside entries ->
  fs w = Some d ->
  NoDup (target <$> entries.*1) ->
  exists d', fs w' = Some d'
    /\ (forall key c names, (key, c) ∈ entries -> resolve key = Some names ->
          d' !! rel_path names = Some (File c)).
Proof.
  induction entries as [| [key c0] rest IH]; intros w w' d Hrun Hin Hfs Hnd.
  - injection Hrun as <-. exists d. split; [exact Hfs |].
    intros key c names Hmem. now apply elem_of_nil in Hmem.
  - apply write_entries_step in Hrun as (w1 & Hstep & Hrun).
    apply stays_inside_cons in Hin as [[names Hres] Hin].
    destruct (write_entry_ok _ _ _ _ _ _ Hres Hstep) as (d0 & Hd0 & Hanc & Hw1).
    rewrite Hfs in Hd0. injection Hd0 as <-.
    simpl in Hnd. apply NoDup_cons in Hnd as [Hfresh Hnd].
    destruct (IH w1 w' _ Hrun Hin Hw1 Hnd) as (d' & Hd' & Hread).
    exists d'. split; [exact Hd' |].
    intros key' c names' Hmem Hres'.
    apply elem_of_cons in Hmem as [[= -> ->] | Hmem].
    + rewrite Hres in Hres'. injection Hres' as <-.
      unfold target in Hfresh at 1. rewrite Hres in Hfresh. simpl in Hfresh.
      destruct (write_entries_keeps E rest w1 w' _ (rel_path names) c0 Hrun Hin Hw1
                  (lookup_insert_eq _ _ _) Hfresh) as (d'' & Hd'' & Hq).
      rewrite Hd' in Hd''. now injection Hd'' as <-.
    + now apply (Hread key' c names').
Qed.

(** What [write_entries] leaves in the directory comes from the directory
    it started with or from the entries. *)
Lemma written_by_cons key c rest k :
  written_by rest k -> written_by ((key, c) :: rest) k.
Proof.
  intros (key' & names & Hin & Hres & Hk). exists key', names.
  split; [simpl; now right | now split].
Qed.

Lemma write_entries_from E entries : forall w w' d,
  write_entries E entries w = (Ok tt, w') -> stays_inside entries ->
  fs w = Some d ->
  exists d', fs w' = Some d'
    /\ (forall k x, d' !! k = Some x -> d !! k = Some x \/ written_by entries k).
Proof.
  induction entries as [| [key c0] rest IH]; intros w w' d Hrun Hin Hfs.
  - injection Hrun as <-. exists d. split; [exact Hfs |]. intros k x Hk. now left.
  - apply write_entries_step in Hrun as (w1 & Hstep & Hrun).
    apply stays_inside_cons in Hin as [[names Hres] Hin].
    destruct (write_entry_ok _ _ _ _ _ _ Hres Hstep) as (d0 & Hd0 & Hanc & Hw1).
    rewrite Hfs in Hd0. injection Hd0 as <-.
    destruct (IH w1 w' _ Hrun Hin Hw1) as (d' & Hd' & Hfrom).
    exists d'. split; [exact Hd' |].
    intros k x Hk. destruct (Hfrom k x Hk) as [Hold | Hnew];
      [| right; now apply written_by_cons].
    destruct (decide (rel_path names = k)) as [<- | Hne].
    { right. exists key, names. split; [simpl; left | split; [exact Hres | now left]]. }
    rewrite lookup_insert_ne in Hold by exact Hne.
    rewrite lookup_mkdirs in Hold.
    destruct (decide (k ∈ dirs_above names)) as [Ha | _]; [| now left].
    right. exists key, names. split; [simpl; left | split; [exact Hres | now right]].
Qed.

Lemma writeFiles_from E entries w w' k :
  writeFiles E (Some entries) w = (Ok tt, w') -> stays_inside entries ->
  existsSync_appDir w' = true
  /\ (existsSync k w' = true -> written_by entries k).
Proof.
  intros Hrun Hin. unfold writeFiles, bind, effect in Hrun. simpl in Hrun.
  destruct (write_entries_from E entries _ w' ∅ Hrun Hin eq_refl) as (d' & Hd' & Hfrom).
  unfold existsSync_appDir, existsSync. rewrite Hd'. split; [reflexivity |].
  intros Hk. apply bool_decide_eq_true_1 in Hk as [x Hx].
  destruct (Hfrom k x Hx) as [Hold | Hnew]; [| exact Hnew].
  now rewrite lookup_empty in Hold.
Qed.

Lemma writeFiles_reads E entries w w' :
  writeFiles E (Some entries) w = (Ok tt, w') -> stays_inside entries ->
  NoDup (target <$> entries.*1) ->
  forall key c names, (key, c) ∈ entries -> resolve key = Some names ->
    isFile (rel_path names) w' = true
    /\ readFile_or_empty (rel_path names) w' = c.
Proof.
  intros Hrun Hin Hnd key c names Hmem Hres.
  unfold writeFiles, bind, effect in Hrun. simpl in Hrun.
  destruct (write_entries_read_back E entries _ w' ∅ Hrun Hin eq_refl Hnd)
    as (d' & Hd' & Hread).
  unfold isFile, readFile_or_empty.
  now rewrite Hd', (Hread key c names Hmem Hres).
Qed.

(** Round trip. [writeFiles] takes every key through [path.join], so two
    keys may name one place ([./a] and [a]). When no key climbs above the
    target directory, the keys name distinct places and [writeFiles]
    returns without error, every entry is a file at its place with
    exactly its content, and the directory holds nothing but these files
    and the directories on the way to them: nothing of what was there
    before is left. *)
Theorem writeFiles_read_back (E : Env) (entries : list (string * jsstring))
    (w w' : World) :
  writeFiles E (Some entries) w = (Ok tt, w') ->
  stays_inside entries ->
  NoDup (target <$> entries.*1) ->
  (forall key c names, (key, c) ∈ entries -> resolve key = Some names ->
     isFile (rel_path names) w' = true
     /\ readFile_or_empty (rel_path names) w' = c)
  /\ (forall k, existsSync k w' = true -> written_by entries k).
Proof.
  intros Hrun Hin Hnd. split.
  - now apply (writeFiles_reads E entries w w').
  - intros k. now apply (writeFiles_from E entries w w' k Hrun).
Qed.

Lemma writeFiles_read_back_witness :
  (forall key c names,
      (key, c) ∈ Mapping.project -> resolve key = Some names ->
      isFile (rel_path names)
        (snd (writeFiles Scenario.healthy (Some Mapping.project) Scenario.built)) = true
      /\ readFile_or_empty (rel_path names)
           (snd (writeFiles Scenario.healthy (Some Mapping.project) Scenario.built))
         = c)
  /\ (forall k,
        existsSync k
          (snd (writeFiles Scenario.healthy (Some Mapping.project) Scenario.built))
        = true ->
        written_by Mapping.project k).
Proof.
  apply (writeFiles_read_back Scenario.healthy Mapping.project Scenario.built).
  - reflexivity.
  - intros key Hkey. apply list_elem_of_In in Hkey. simpl in Hkey.
    destruct Hkey as [<- | [<- | []]]; vm_compute; eauto.
  - apply (bool_decide_unpack _). vm_compute. exact I.
Defined.

(** [path.join] at work: the keys as the Generator may write them and the
    places they name. *)
Example resolve_on_keys :
  resolve "app/page.tsx" = Some ["app"; "page.tsx"]%string
  /\ resolve "./app/page.tsx" = Some ["app"; "page.tsx"]%string
  /\ resolve "/app//page.tsx" = Some ["app"; "page.tsx"]%string
  /\ resolve "app/components/../page.tsx" = Some ["app"; "page.tsx"]%string
  /\ resolve "" = Some []
  /\ resolve "app/.." = Some []
  /\ resolve "../generated-app/app/page.tsx" = None
  /\ dirs_above ["app"; "components"; "Button.tsx"]%string
     = ["app"; "app/components"]%string.
Proof. repeat split; reflexivity. Qed.

(** Two keys for one file: the later entry wins. A key that names the
    target directory itself, or ends in a slash, makes [writeFiles]
    throw. *)
Example aliased_keys :
  fst (writeFiles Scenario.healthy (Some Mapping.aliased) Scenario.built) = Ok tt
  /\ readFile_or_empty "app/page.tsx"
       (snd (writeFiles Scenario.healthy (Some Mapping.aliased) Scenario.built))
     = lit "second"
  /\ existsSync "./app/page.tsx"
       (snd (writeFiles Scenario.healthy (Some Mapping.aliased) Scenario.built))
     = false
  /\ fst (writeFiles Scenario.healthy (Some [(""%string, lit "x")]) Scenario.built)
     = Throw (lit "EISDIR")
  /\ fst (writeFiles Scenario.healthy (Some [("app/"%string, lit "x")]) Scenario.built)
     = Throw (lit "EISDIR").
Proof. repeat split; vm_compute; reflexivity. Qed.

(** * The static validator *)

Section ValidatorFacts.
Import Validator.

Lemma first_hit_truthy {A} (f : A -> option jsstring) l :
  first_hit f l = None \/ falsy (first_hit f l) = false.
Proof.
  induction l as [| a l IH]; simpl; [now left |].
  destruct (falsy (f a)) eqn:Hf; [exact IH | now right].
Qed.

Lemma first_hit_falsy {A} (f : A -> option jsstring) l :
  falsy (first_hit f l) = true <-> forall a, In a l -> falsy (f a) = true.
Proof.
  induction l as [| a l IH]; simpl.
  - split; [intros _ a [] | reflexivity].
  - destruct (falsy (f a)) eqn:Hf.
    + rewrite IH. split.
      * intros H b [<- | Hb]; [exact Hf | now apply H].
      * intros H b Hb. apply H. now right.
    + split; [congruence |].
      intros H. apply H. now left.
Qed.

Lemma first_hit_None {A} (f : A -> option jsstring) l :
  first_hit f l = None <-> forall a, In a l -> falsy (f a) = true.
Proof.
  rewrite <- first_hit_falsy. split; [now intros -> |].
  intros H. destruct (first_hit_truthy f l) as [Hn | Ht]; [exact Hn | congruence].
Qed.

Lemma first_hit_Some {A} (f : A -> option jsstring) l h :
  first_hit f l = Some h -> exists a, In a l /\ f a = Some h /\ h <> [].
Proof.
  induction l as [| a l IH]; simpl; [discriminate |].
  destruct (falsy (f a)) eqn:Hf.
  - intros H. destruct (IH H) as (b & Hb & Hfb). exists b. split; [now right | exact Hfb].
  - intros H. exists a. split; [now left |]. split; [exact H |].
    intros ->. now rewrite H in Hf.
Qed.

Lemma first_hit_app {A} (f : A -> option jsstring) l1 l2 :
  first_hit f (l1 ++ l2)
  = if falsy (first_hit f l1) then first_hit f l2 else first_hit f l1.
Proof.
  induction l1 as [| a l1 IH]; simpl; [reflexivity |].
  destruct (falsy (f a)) eqn:Hf; [exact IH | now rewrite Hf].
Qed.

Lemma first_hit_flat_map {A B} (g : B -> option jsstring) (h : A -> list B) l :
  first_hit g (flat_map h l) = first_hit (fun a => first_hit g (h a)) l.
Proof.
  induction l as [| a l IH]; simpl; [reflexivity |].
  now rewrite first_hit_app, IH.
Qed.

Lemma first_hit_ext {A} (f g : A -> option jsstring) l :
  Forall (fun a => f a = g a) l -> first_hit f l = first_hit g l.
Proof.
  induction 1 as [| a l Ha _ IH]; simpl; [reflexivity |].
  now rewrite Ha, IH.
Qed.

(** ** [checkContent] *)

Lemma checkContent_Some rel content h :
  checkContent rel content = Some h ->
  exists p, In p forbiddenPatterns /\ snd p content = true
            /\ h = fst p ++ lit " found in " ++ rel.
Proof.
  unfold checkContent.
  destruct (find _ forbiddenPatterns) as [p |] eqn:Hfind; [| discriminate].
  intros [= <-]. apply find_some in Hfind as [Hin Hp]. now exists p.
Qed.

Lemma checkContent_None rel content :
  checkContent rel content = None <-> clean_text content.
Proof.
  unfold checkContent, clean_text. split.
  - destruct (find _ forbiddenPatterns) eqn:Hfind; [discriminate |].
    intros _ p Hp. exact (find_none _ _ Hfind p Hp).
  - intros Hclean.
    destruct (find _ forbiddenPatterns) as [p |] eqn:Hfind; [| reflexivity].
    apply find_some in Hfind as [Hin Hp]. rewrite (Hclean p Hin) in Hp. discriminate.
Qed.

Lemma checkContent_truthy rel content :
  falsy (checkContent rel content) = true -> checkContent rel content = None.
Proof.
  destruct (checkContent rel content) as [h |] eqn:Hc; [| reflexivity].
  destruct (checkContent_Some _ _ _ Hc) as (p & _ & _ & ->).
  destruct (fst p); discriminate.
Qed.

Lemma checkContent_falsy rel content :
  falsy (checkContent rel content) = true <-> clean_text content.
Proof.
  rewrite <- (checkContent_None rel). split.
  - apply checkContent_truthy.
  - now intros ->.
Qed.

Lemma checkContent_empty rel : checkContent rel [] = None.
Proof. reflexivity. Qed.

(** ** The walk reads the sources in order *)

Lemma visit_sources e : forall dir,
  visit dir e = first_hit (fun pc => checkContent (fst pc) (snd pc)) (sources_of dir e).
Proof.
  induction e as [n c | n children IH] using Entry_children_ind; intros dir; simpl.
  - destruct (skipped n); [reflexivity |].
    destruct (is_source n); [| reflexivity]. simpl.
    destruct (falsy (checkContent (join dir n) c)) eqn:Hf; [| reflexivity].
    now apply checkContent_truthy.
  - destruct (skipped n); [reflexivity |].
    rewrite first_hit_flat_map. apply first_hit_ext.
    eapply Forall_impl; [exact IH |]. intros e He. apply He.
Qed.

Lemma walk_sources dir ents :
  walk dir ents = first_hit (fun pc => checkContent (fst pc) (snd pc)) (flat_map (sources_of dir) ents).
Proof.
  unfold walk. rewrite first_hit_flat_map. apply first_hit_ext.
  apply Forall_forall. intros e _. apply visit_sources.
Qed.

(** ** The candidates are among the sources *)

Lemma find_named n ents e :
  find (named n) ents = Some e -> In e ents /\ entry_name e = n.
Proof.
  intros H. apply find_some in H as [Hin Hn]. split; [exact Hin |].
  now apply bool_decide_eq_true_1 in Hn.
Qed.

Lemma lookup_path_sources segs : forall ents dir n c,
  lookup_path segs ents = Some (EFile n c) ->
  forallb (fun s => negb (skipped s)) segs = true ->
  is_source (List.last segs []) = true ->
  In (fold_left join segs dir, c) (flat_map (sources_of dir) ents).
Proof.
  induction segs as [| s segs IH]; intros ents dir n c Hlook Hskip Hsrc;
    [discriminate |].
  cbn [lookup_path] in Hlook. cbn [forallb] in Hskip.
  apply andb_true_iff in Hskip as [Hs Hskip]. apply negb_true_iff in Hs.
  destruct (find (named s) ents) as [e |] eqn:Hfind; [| discriminate].
  apply find_named in Hfind as [Hin Hname].
  apply in_flat_map. exists e. split; [exact Hin |].
  destruct segs as [| s' segs'].
  - assert (He : e = EFile n c) by (destruct e; simpl in Hlook; congruence).
    subst e. simpl in Hname. subst n. simpl in Hsrc |- *.
    rewrite Hs, Hsrc. now left.
  - destruct e as [n' c' | n' children]; [discriminate |].
    simpl in Hname. subst n'. cbn [sources_of entry_name]. rewrite Hs.
    cbn [fold_left]. apply (IH children (join dir s) n c Hlook Hskip).
    exact Hsrc.
Qed.

Lemma candidate_hit_sources root segs h :
  In segs candidates -> candidate_hit root segs = Some h ->
  exists p c, In (p, c) (sources root) /\ checkContent p c = Some h.
Proof.
  intros Hin Hhit. unfold candidate_hit in Hhit.
  destruct (lookup_path segs root) as [[n c | n children] |] eqn:Hlook;
    [| discriminate | discriminate].
  exists (fold_left join segs []), c. split; [| exact Hhit].
  apply (lookup_path_sources segs root [] n c Hlook).
  - unfold candidates in Hin. simpl in Hin.
    repeat (destruct Hin as [<- | Hin]; [vm_compute; reflexivity |]).
    destruct Hin.
  - unfold candidates in Hin. simpl in Hin.
    repeat (destruct Hin as [<- | Hin]; [vm_compute; reflexivity |]).
    destruct Hin.
Qed.


Lemma candidates_clean root :
  (forall p c, In (p, c) (sources root) -> clean_text c) ->
  first_hit (candidate_hit root) candidates = None.
Proof.
  intros Hclean. apply first_hit_None. intros segs Hin.
  destruct (candidate_hit root segs) as [h |] eqn:Hhit; [| reflexivity].
  destruct (candidate_hit_sources root segs h Hin Hhit) as (p & c & Hpc & Hc).
  specialize (Hclean p c Hpc). apply (checkContent_None p) in Hclean. congruence.
Qed.

Lemma walk_finding dir ents h :
  walk dir ents = Some h ->
  exists p c, In (p, c) (flat_map (sources_of dir) ents)
              /\ checkContent p c = Some h.
Proof.
  rewrite walk_sources. intros H.
  apply first_hit_Some in H as ([p c] & Hin & Hc & _). now exists p, c.
Qed.

Lemma finding_None root :
  findForbiddenNextDocumentUsage root = None
  <-> (forall p c, In (p, c) (sources root) -> clean_text c).
Proof.
  unfold findForbiddenNextDocumentUsage. split.
  - intros H p c Hin.
    destruct (falsy (first_hit (candidate_hit root) candidates)) eqn:Hf.
    + rewrite walk_sources in H. apply (checkContent_falsy p).
      rewrite first_hit_None in H. exact (H (p, c) Hin).
    + rewrite H in Hf. discriminate.
  - intros Hclean. rewrite (candidates_clean root Hclean). simpl.
    rewrite walk_sources. apply first_hit_None. intros [p c] Hin.
    apply checkContent_falsy. exact (Hclean p c Hin).
Qed.

Lemma finding_Some root h :
  findForbiddenNextDocumentUsage root = Some h ->
  falsy (Some h) = false
  /\ exists p c pat,
       In (p, c) (sources root) /\ In pat forbiddenPatterns
       /\ snd pat c = true /\ h = fst pat ++ lit " found in " ++ p.
Proof.
  unfold findForbiddenNextDocumentUsage. intros H.
  assert (Hsrc : exists p c, In (p, c) (sources root) /\ checkContent p c = Some h).
  { destruct (falsy (first_hit (candidate_hit root) candidates)) eqn:Hf.
    - now apply walk_finding in H.
    - apply first_hit_Some in H as (segs & Hin & Hhit & _).
      exact (candidate_hit_sources root segs h Hin Hhit). }
  destruct Hsrc as (p & c & Hin & Hc).
  destruct (checkContent_Some _ _ _ Hc) as (pat & Hpat & Hmatch & ->).
  split; [destruct (fst pat); reflexivity |].
  now exists p, c, pat.
Qed.

(** The validator is complete and exact on the files it reads: it reports
    nothing exactly when no forbidden pattern matches any source file below
    the target directory (a file with one of the five extensions, not below
    [node_modules] or [.next]). The six candidate paths only fix which
    finding comes first; each of them is a source file of the walk. *)
Theorem no_finding_iff_sources_clean (root : list Entry) :
  findForbiddenNextDocumentUsage root = None
  <-> (forall p c, In (p, c) (sources root) -> clean_text c).
Proof. exact (finding_None root). Qed.

(** A finding is never the empty string, so the route's test
    [if (forbidden)] sees every finding; it is the label of a pattern that
    matches a source file, followed by the path of that file relative to
    the target directory. *)
Theorem finding_names_a_matching_source (root : list Entry) (h : jsstring) :
  findForbiddenNextDocumentUsage root = Some h ->
  falsy (Some h) = false
  /\ exists p c pat,
       In (p, c) (sources root) /\ In pat forbiddenPatterns
       /\ snd pat c = true /\ h = fst pat ++ lit " found in " ++ p.
Proof. exact (finding_Some root h). Qed.

Lemma finding_names_a_matching_source_witness :
  falsy (Some (lit "import from 'next/document' found in pages/_document.tsx")) = false
  /\ exists p c pat,
       In (p, c) (sources pages_router) /\ In pat forbiddenPatterns
       /\ snd pat c = true
       /\ lit "import from 'next/document' found in pages/_document.tsx"
          = fst pat ++ lit " found in " ++ p.
Proof.
  apply (finding_names_a_matching_source pages_router
           (lit "import from 'next/document' found in pages/_document.tsx")).
  reflexivity.
Defined.

(** The validator in the loop. At the last attempt index, when a forbidden
    pattern matches some source file, the route returns the terminal
    response that names a matching file, and nothing else happens in that
    iteration: no build is run. *)
Theorem forbidden_source_is_terminal (E : Env) (listing : World -> list Entry)
    (prompt : option jsstring) (fuel : nat) (w : World)
    (p c : jsstring) (pat : jsstring * (jsstring -> bool)) :
  scans_with listing E ->
  In (p, c) (sources (listing w)) ->
  In pat forbiddenPatterns -> snd pat c = true ->
  exists p' c' pat',
    In (p', c') (sources (listing w)) /\ In pat' forbiddenPatterns
    /\ snd pat' c' = true
    /\ repair_loop E prompt (S fuel) MAX_REPAIR_ATTEMPTS w
       = (Ok (Return (response_forbidden_terminal
                        (fst pat' ++ lit " found in " ++ p'))), w).
Proof.
  intros Hscan Hin Hpat Hmatch.
  destruct (findForbiddenNextDocumentUsage (listing w)) as [h |] eqn:Hfind.
  - destruct (finding_Some _ _ Hfind) as (Htruthy & p' & c' & pat' & Hin' & Hpat' & Hm' & ->).
    exists p', c', pat'. repeat (split; [assumption |]).
    apply final_attempt_finding.
    + now rewrite (Hscan w).
    + intros Heq. rewrite Heq in Htruthy. discriminate.
  - rewrite finding_None in Hfind. specialize (Hfind p c Hin pat Hpat). congruence.
Qed.

Lemma forbidden_source_is_terminal_witness :
  exists p' c' pat',
    In (p', c') (sources pages_router) /\ In pat' forbiddenPatterns
    /\ snd pat' c' = true
    /\ repair_loop (scanning (fun _ => pages_router) Scenario.healthy)
         Scenario.prompt 1 MAX_REPAIR_ATTEMPTS Scenario.fresh
       = (Ok (Return (response_forbidden_terminal
                        (fst pat' ++ lit " found in " ++ p'))), Scenario.fresh).
Proof.
  apply (forbidden_source_is_terminal
           (scanning (fun _ => pages_router) Scenario.healthy)
           (fun _ => pages_router) Scenario.prompt 0 Scenario.fresh
           (lit "pages/_document.tsx")
           (lit "import { Html, Head, Main, NextScript } from 'next/document'")
           (lit "import from 'next/document'", test import_here)).
  - intros w. reflexivity.
  - vm_compute. right. left. reflexivity.
  - left. reflexivity.
  - reflexivity.
Defined.

(** ** What the patterns match *)

Lemma test_spec here s :
  test here s = true <-> exists pre suf, s = pre ++ suf /\ here suf = true.
Proof.
  induction s as [| c s IH]; simpl.
  - rewrite orb_false_r. split.
    + intros H. now exists [], [].
    + intros (pre & suf & Heq & H). symmetry in Heq.
      apply app_eq_nil in Heq as [_ ->]. exact H.
  - rewrite orb_true_iff, IH. split.
    + intros [H | (pre & suf & -> & H)].
      * now exists [], (c :: s).
      * now exists (c :: pre), suf.
    + intros ([| c' pre] & suf & Heq & H).
      * left. simpl in Heq. now subst suf.
      * right. injection Heq as -> ->. now exists pre, suf.
Qed.

Lemma after_spec p : forall s r, after p s = Some r <-> s = p ++ r.
Proof.
  induction p as [| a p IH]; intros s r; simpl.
  - destruct s; split; congruence.
  - destruct s as [| c s]; [split; discriminate |].
    destruct (N.eqb_spec a c) as [-> | Hne].
    + rewrite IH. split; congruence.
    + split; [discriminate | congruence].
Qed.

Lemma drop_space_split s : exists sp, s = sp ++ drop_space s /\ blank sp.
Proof.
  induction s as [| c s (sp & Heq & Hsp)]; simpl.
  - now exists [].
  - destruct (is_js_space c) eqn:Hc.
    + exists (c :: sp). split; [simpl; now f_equal |].
      unfold blank. simpl. now rewrite Hc.
    + now exists [].
Qed.

Lemma drop_space_head s c r : drop_space s = c :: r -> is_js_space c = false.
Proof.
  induction s as [| a s IH]; simpl; [discriminate |].
  destruct (is_js_space a) eqn:Ha; [exact IH | congruence].
Qed.

Lemma drop_space_blank sp c r :
  blank sp -> is_js_space c = false -> drop_space (sp ++ c :: r) = c :: r.
Proof.
  unfold blank. induction sp as [| a sp IH]; simpl; intros Hsp Hc.
  - now rewrite Hc.
  - apply andb_true_iff in Hsp as [-> Hsp]. now apply IH.
Qed.

Lemma not_space c : is_js_space c = true -> is_word c = false /\ is_quote c = false.
Proof.
  unfold is_js_space. intros H.
  apply existsb_exists in H as (x & Hin & Heq). apply N.eqb_eq in Heq. subst x.
  simpl in Hin.
  repeat (destruct Hin as [<- | Hin]; [split; reflexivity |]). destruct Hin.
Qed.

Lemma word_not_space c : is_word c = true -> is_js_space c = false.
Proof.
  intros Hw. destruct (is_js_space c) eqn:Hs; [| reflexivity].
  apply not_space in Hs as [Hs _]. congruence.
Qed.

Lemma quote_not_space c : is_quote c = true -> is_js_space c = false.
Proof.
  intros Hq. destruct (is_js_space c) eqn:Hs; [| reflexivity].
  apply not_space in Hs as [_ Hs]. congruence.
Qed.

(** The tag patterns. For a name of word characters, the matcher of
    [<\s*Name\b] accepts exactly the texts that hold a [<], any white
    space, the name, and then either nothing or a character that is not a
    word character. *)
Theorem tag_pattern_denotes (name s : jsstring) :
  word_name name ->
  test (tag_here name) s = true
  <-> exists pre sp post,
        s = pre ++ [60] ++ sp ++ name ++ post /\ blank sp /\ word_ends post.
Proof.
  intros [Hne Hword]. rewrite test_spec. split.
  - intros (pre & suf & -> & H). unfold tag_here in H.
    destruct suf as [| c r]; [discriminate |].
    apply andb_true_iff in H as [Hc H]. apply N.eqb_eq in Hc. subst c.
    destruct (after name (drop_space r)) as [post |] eqn:Hafter; [| discriminate].
    apply after_spec in Hafter.
    destruct (drop_space_split r) as (sp & Hr & Hsp).
    exists pre, sp, post. rewrite Hafter in Hr. split; [now rewrite Hr |].
    split; [exact Hsp |].
    destruct post as [| c post]; [exact I |]. now apply negb_true_iff in H.
  - intros (pre & sp & post & -> & Hsp & Hpost).
    exists pre, ([60] ++ sp ++ name ++ post). split; [reflexivity |].
    destruct name as [| a name]; [now destruct Hne |].
    simpl in Hword. apply andb_true_iff in Hword as [Ha _].
    cbn [tag_here app]. rewrite N.eqb_refl. cbn [andb].
    rewrite (drop_space_blank sp a (name ++ post) Hsp (word_not_space a Ha)).
    change (a :: name ++ post) with ((a :: name) ++ post).
    rewrite (proj2 (after_spec (a :: name) _ post) eq_refl).
    destruct post as [| c post]; [reflexivity |]. simpl in Hpost. now rewrite Hpost.
Qed.

Lemma tag_pattern_denotes_witness :
  test (tag_here (lit "Html")) (lit "return < Html lang>") = true
  <-> exists pre sp post,
        lit "return < Html lang>" = pre ++ [60] ++ sp ++ lit "Html" ++ post
        /\ blank sp /\ word_ends post.
Proof.
  apply (tag_pattern_denotes (lit "Html") (lit "return < Html lang>")).
  split; [discriminate | reflexivity].
Defined.

(** The import pattern. Its matcher accepts exactly the texts that hold
    [from], at least one white-space character, a single or double quote,
    [next/document] and again a single or double quote. *)
Theorem import_pattern_denotes (s : jsstring) :
  test import_here s = true
  <-> exists pre sp q q' post,
        s = pre ++ lit "from" ++ sp ++ q :: lit "next/document" ++ q' :: post
        /\ sp <> [] /\ blank sp /\ is_quote q = true /\ is_quote q' = true.
Proof.
  rewrite test_spec. unfold import_here.
  generalize (lit "from") (lit "next/document"). intros kw path. split.
  - intros (pre & suf & -> & H).
    destruct (after kw suf) as [[| c r] |] eqn:Hkw; try discriminate.
    apply after_spec in Hkw. apply andb_true_iff in H as [Hc H].
    destruct (drop_space r) as [| q r'] eqn:Hdrop; [discriminate |].
    apply andb_true_iff in H as [Hq H].
    destruct (after path r') as [[| q' post] |] eqn:Hpath; try discriminate.
    apply after_spec in Hpath.
    destruct (drop_space_split r) as (sp & Hr & Hsp).
    exists pre, (c :: sp), q, q', post.
    split; [| split; [discriminate | split; [| now split]]].
    + rewrite Hkw, Hr, Hdrop, Hpath. reflexivity.
    + unfold blank. simpl. now rewrite Hc.
  - intros (pre & [| c sp] & q & q' & post & -> & Hne & Hsp & Hq & Hq');
      [now destruct Hne |].
    exists pre, (kw ++ (c :: sp) ++ q :: path ++ q' :: post).
    split; [reflexivity |].
    rewrite (proj2 (after_spec kw _ ((c :: sp) ++ q :: path ++ q' :: post)) eq_refl).
    unfold blank in Hsp. simpl in Hsp. apply andb_true_iff in Hsp as [Hc Hsp].
    cbn [app]. rewrite Hc. cbn [andb].
    rewrite (drop_space_blank sp q _ Hsp (quote_not_space q Hq)).
    rewrite Hq. cbn [andb].
    now rewrite (proj2 (after_spec path _ (q' :: post)) eq_refl).
Qed.

(** Matching is textual: a longer tag name is not reported, a comment is,
    and a [Head] imported from [next/head] is reported as one of
    [next/document]. *)
Example patterns_on_texts :
  test (tag_here (lit "Head")) (lit "<Header>") = false
  /\ test (tag_here (lit "Main")) (lit "// no <Main /> in the App Router") = true
  /\ checkContent (lit "app/page.tsx")
       (lit "import Head from 'next/head'; export default () => <Head/>")
     = Some (lit "<Head> usage (next/document) found in app/page.tsx").
Proof. repeat split; reflexivity. Qed.

End ValidatorFacts.

(** * The generate route and the upload page *)

Lemma generate_route_cases E prompt w :
  (falsy prompt || falsy (OPENAI_API_KEY E) = true
   /\ snd (GenerateApp.POST E prompt w) = w
   /\ GenerateApp.status (fst (GenerateApp.POST E prompt w))
      = (if falsy prompt then 400 else 500)%Z)
  \/ (falsy prompt || falsy (OPENAI_API_KEY E) = false
      /\ match generate E (default [] prompt) [] (emit (EvGenerate []) w) with
         | GenObject (Some entries) =>
             match writeFiles E (Some entries) (emit (EvGenerate []) w) with
             | (Ok _, w') =>
                 GenerateApp.POST E prompt w
                 = ({| GenerateApp.status := 200;
                       GenerateApp.body :=
                         GenerateApp.SuccessBody (lit "App generated successfully")
                           (length entries) |}, w')
             | (Throw e, w') =>
                 GenerateApp.POST E prompt w
                 = ({| GenerateApp.status := 500;
                       GenerateApp.body := GenerateApp.ErrorBody e |}, w')
             end
         | GenObject None =>
             GenerateApp.POST E prompt w
             = ({| GenerateApp.status := 500;
                   GenerateApp.body :=
                     GenerateApp.ErrorBody
                       (lit "Cannot convert undefined or null to object") |},
                emit (EvGenerate []) w)
         | GenThrows e =>
             GenerateApp.POST E prompt w
             = ({| GenerateApp.status := 500;
                   GenerateApp.body := GenerateApp.ErrorBody e |},
                emit (EvGenerate []) w)
         end).
Proof.
  unfold GenerateApp.POST, GenerateApp.POST_try.
  destruct (falsy prompt) eqn:Hp; [left; now repeat split |].
  destruct (falsy (OPENAI_API_KEY E)) eqn:Hk; [left; now repeat split |].
  right. split; [reflexivity |].
  unfold bind, effect, observe. cbv beta iota.
  destruct (generate E (default [] prompt) [] (emit (EvGenerate []) w))
    as [e | [entries |]]; try reflexivity.
  destruct (writeFiles E (Some entries) (emit (EvGenerate []) w)) as [[[] | e] w'];
    reflexivity.
Qed.

(** An answer of the Generator without a file mapping. The generate route
    fails on it before anything is written, so the directory stays as it
    was; [maybeAutoRepair] of the build route passes the same answer to
    [writeFiles], which has emptied the directory when it throws. *)
Theorem missing_mapping_spares_the_directory (E : Env) (prompt : option jsstring)
    (ctx : jsstring) (w : World) :
  falsy prompt = false -> falsy (OPENAI_API_KEY E) = false ->
  (forall c w', generate E (default [] prompt) c w' = GenObject None) ->
  (fs (snd (GenerateApp.POST E prompt w)) = fs w
   /\ GenerateApp.status (fst (GenerateApp.POST E prompt w)) = 500%Z)
  /\ (fs (snd (maybeAutoRepair E prompt ctx w)) = Some ∅
      /\ fst (maybeAutoRepair E prompt ctx w)
         = Throw (lit "Cannot convert undefined or null to object")).
Proof.
  intros Hp Hk Hgen. split.
  - destruct (generate_route_cases E prompt w) as [(Hoff & _) | (_ & Hrun)].
    + rewrite Hp, Hk in Hoff. discriminate.
    + rewrite Hgen in Hrun. rewrite Hrun. now split.
  - unfold maybeAutoRepair. rewrite Hp, Hk.
    unfold bind, effect, observe. rewrite Hgen. now split.
Qed.

Lemma missing_mapping_spares_the_directory_witness :
  (fs (snd (GenerateApp.POST Scenario.missing_mapping Scenario.prompt Scenario.built))
   = fs Scenario.built
   /\ GenerateApp.status
        (fst (GenerateApp.POST Scenario.missing_mapping Scenario.prompt Scenario.built))
      = 500%Z)
  /\ (fs (snd (maybeAutoRepair Scenario.missing_mapping Scenario.prompt [] Scenario.built))
      = Some ∅
      /\ fst (maybeAutoRepair Scenario.missing_mapping Scenario.prompt [] Scenario.built)
         = Throw (lit "Cannot convert undefined or null to object")).
Proof.
  apply (missing_mapping_spares_the_directory Scenario.missing_mapping
           Scenario.prompt [] Scenario.built); reflexivity.
Defined.

Lemma not_written_by_project k :
  k <> "package.json"%string -> k <> "app/page.tsx"%string -> k <> "app"%string ->
  ~ written_by Mapping.project k.
Proof.
  intros H1 H2 H3 (key & names & Hkey & Hres & Hk).
  apply list_elem_of_In in Hkey. simpl in Hkey.
  destruct Hkey as [<- | [<- | []]]; vm_compute in Hres; injection Hres as <-;
    destruct Hk as [-> | Hk]; try (now (apply H1 || apply H2));
    vm_compute in Hk; apply list_elem_of_In in Hk; simpl in Hk;
    destruct Hk as [<- | []]. now apply H3.
Qed.

Lemma distinct_project : NoDup (target <$> Mapping.project.*1).
Proof. apply (bool_decide_unpack _). vm_compute. exact I. Qed.

Lemma stays_inside_project : stays_inside Mapping.project.
Proof.
  intros key Hkey. apply list_elem_of_In in Hkey. simpl in Hkey.
  destruct Hkey as [<- | [<- | []]]; vm_compute; eauto.
Qed.

(** The generate route answers 200 only after the Generator gave a file
    mapping and [writeFiles] went through all of it; the count in the body
    is the number of entries. When no key climbs above the target
    directory and the keys name distinct places, every entry can then be
    read back at its place, and the directory holds nothing but these
    files and the directories on the way to them. *)
Theorem generate_success_writes_the_project (E : Env) (prompt : option jsstring)
    (w : World) :
  GenerateApp.status (fst (GenerateApp.POST E prompt w)) = 200%Z ->
  exists entries,
    generate E (default [] prompt) [] (emit (EvGenerate []) w)
    = GenObject (Some entries)
    /\ GenerateApp.body (fst (GenerateApp.POST E prompt w))
       = GenerateApp.SuccessBody (lit "App generated successfully") (length entries)
    /\ (stays_inside entries ->
        (NoDup (target <$> entries.*1) ->
         forall key c names, (key, c) ∈ entries -> resolve key = Some names ->
           isFile (rel_path names) (snd (GenerateApp.POST E prompt w)) = true
           /\ readFile_or_empty (rel_path names) (snd (GenerateApp.POST E prompt w))
              = c)
        /\ (forall k, existsSync k (snd (GenerateApp.POST E prompt w)) = true ->
              written_by entries k)).
Proof.
  intros Hstatus.
  destruct (generate_route_cases E prompt w) as [(_ & _ & Hoff) | (_ & Hrun)].
  { rewrite Hoff in Hstatus. destruct (falsy prompt); discriminate. }
  destruct (generate E (default [] prompt) [] (emit (EvGenerate []) w))
    as [e | [entries |]];
    try (rewrite Hrun in Hstatus; discriminate).
  destruct (writeFiles E (Some entries) (emit (EvGenerate []) w))
    as [[[] | e] w'] eqn:Hwrite;
    [| rewrite Hrun in Hstatus; discriminate].
  exists entries. rewrite Hrun. cbn [fst snd GenerateApp.body].
  split; [reflexivity |]. split; [reflexivity |]. intros Hin. split.
  - intros Hnd key c names Hmem Hres.
    exact (writeFiles_reads E entries _ w' Hwrite Hin Hnd key c names Hmem Hres).
  - intros k. exact (proj2 (writeFiles_from E entries _ w' k Hwrite Hin)).
Qed.

Lemma generate_success_writes_the_project_witness :
  GenerateApp.status
    (fst (GenerateApp.POST (Mapping.generating Mapping.project) Scenario.prompt
            Scenario.built)) = 200%Z
  /\ GenerateApp.body
       (fst (GenerateApp.POST (Mapping.generating Mapping.project) Scenario.prompt
               Scenario.built))
     = GenerateApp.SuccessBody (lit "App generated successfully") 2
  /\ (isFile "app/page.tsx"
        (snd (GenerateApp.POST (Mapping.generating Mapping.project) Scenario.prompt
                Scenario.built)) = true
      /\ readFile_or_empty "app/page.tsx"
           (snd (GenerateApp.POST (Mapping.generating Mapping.project) Scenario.prompt
                   Scenario.built)) = lit "export")
  /\ (forall k,
        existsSync k
          (snd (GenerateApp.POST (Mapping.generating Mapping.project) Scenario.prompt
                  Scenario.built)) = true ->
        written_by Mapping.project k).
Proof.
  destruct (generate_success_writes_the_project
              (Mapping.generating Mapping.project) Scenario.prompt Scenario.built
              eq_refl) as (entries & Hgen & Hbody & Hall).
  injection Hgen as <-.
  destruct (Hall stays_inside_project) as [Hread Hfrom].
  split; [reflexivity |]. split; [exact Hbody |]. split; [| exact Hfrom].
  apply (Hread distinct_project "./app/page.tsx"%string (lit "export")
           ["app"; "page.tsx"]%string).
  - right. left.
  - reflexivity.
Defined.

Lemma generate_route_count E prompt w :
  count is_generate (snd (GenerateApp.POST E prompt w))
  = (count is_generate w
     + (if falsy prompt || falsy (OPENAI_API_KEY E) then 0 else 1))%nat.
Proof.
  assert (Hfiles : blind_to_files is_generate) by (repeat split).
  assert (Hemit : count is_generate (emit (EvGenerate []) w)
                  = (count is_generate w + 1)%nat).
  { unfold count, emit. simpl. rewrite List.filter_app, length_app. reflexivity. }
  destruct (generate_route_cases E prompt w) as [(Hoff & Hw & _) | (Hon & Hrun)].
  - rewrite Hoff, Hw. lia.
  - rewrite Hon.
    destruct (generate E (default [] prompt) [] (emit (EvGenerate []) w))
      as [e | [entries |]]; try (rewrite Hrun; exact Hemit).
    destruct (writeFiles E (Some entries) (emit (EvGenerate []) w))
      as [r w'] eqn:Hwrite.
    pose proof (ev_writeFiles is_generate E (Some entries) Hfiles _ _ _ Hwrite) as Hc.
    destruct r as [[] | e]; rewrite Hrun; simpl; lia.
Qed.

Lemma POST_without_prompt_count E w :
  count is_generate (snd (POST E None w)) = count is_generate w.
Proof.
  assert (Hfiles : blind_to_files is_generate) by (repeat split).
  pose proof (ev_POST is_generate E None 0 0 w Hfiles
                (fun ctx => ev_maybeAutoRepair_off is_generate E None ctx eq_refl)
                (ev_compile is_generate E)) as H.
  simpl in H.
  assert (Hinstall : adds_events is_generate 0 (runNpmInstallWithFallback E)).
  { apply (ev_install_gen is_generate E 0 0 Hfiles);
      intros label; apply (ev_runNpm is_generate). }
  specialize (H Hinstall). lia.
Qed.

Lemma POST_ok_status E prompt w :
  Page.ok (status (fst (POST E prompt w))) = true ->
  fst (POST E prompt w) = response_success /\ awaitReady E = Ready.
Proof.
  intros Hok.
  destruct (acquire_lock_total (lock_stamp E) w) as ([|] & w1 & Hlock).
  - destruct (POST_past_the_lock E prompt w _ Hlock)
      as [(e & w2 & Hp) | [(r & w2 & Hr & _ & Hp) | (w2 & Hp)]];
      rewrite Hp in Hok |- *; simpl in *; try discriminate.
    + rewrite Hr in Hok. discriminate.
    + destruct (awaitReady E); try discriminate. now split.
  - exfalso. unfold POST, POST_try, bind in Hok.
    rewrite Hlock in Hok. discriminate.
Qed.

(** The whole flow of the upload page calls the Generator once, for the
    first generation, and not at all when the text is empty or no key is
    configured: the build it requests carries no prompt and so never
    repairs, whatever fails. *)
Theorem page_calls_generator_once (E : Env) (text : option jsstring)
    (timed_out : bool) (w : World) :
  count is_generate (snd (Page.handleImageUpload E text timed_out w))
  = (count is_generate w
     + (if falsy text || falsy (OPENAI_API_KEY E) then 0 else 1))%nat.
Proof.
  unfold Page.handleImageUpload.
  pose proof (generate_route_count E text w) as Hgen.
  destruct (GenerateApp.POST E text w) as [generateResponse w1]. simpl in Hgen.
  destruct (Page.ok (GenerateApp.status generateResponse)); [| exact Hgen].
  pose proof (POST_without_prompt_count E w1) as Hbuild.
  destruct (POST E None w1) as [buildResponse w2]. simpl in Hbuild |- *.
  rewrite <- Hgen, <- Hbuild.
  destruct timed_out; [reflexivity |].
  destruct (Page.ok (status buildResponse)); reflexivity.
Qed.

(** The page shows success only when the generate route answered 200, the
    build route answered with its success response before the timer fired,
    and the test after the probing loop had found [serverReady] set: by an
    answered poll or, when no poll was answered, by a ready marker on the
    streams of the dev server. *)
Theorem page_success_means_running (E : Env) (text : option jsstring)
    (timed_out : bool) (w : World) :
  fst (Page.handleImageUpload E text timed_out w) = Page.success ->
  timed_out = false
  /\ GenerateApp.status (fst (GenerateApp.POST E text w)) = 200%Z
  /\ fst (POST E None (snd (GenerateApp.POST E text w))) = response_success
  /\ awaitReady E = Ready
  /\ (ready_by_poll E \/ ready_by_banner E).
Proof.
  unfold Page.handleImageUpload. intros Hsuccess.
  destruct (generate_route_cases E text w) as [(_ & _ & Hoff) | (_ & Hrun)].
  - destruct (GenerateApp.POST E text w) as [generateResponse w1].
    simpl in Hoff. rewrite Hoff in Hsuccess.
    destruct (falsy text); discriminate.
  - assert (Hstatus : Page.ok (GenerateApp.status (fst (GenerateApp.POST E text w))) = true ->
                      GenerateApp.status (fst (GenerateApp.POST E text w)) = 200%Z).
    { destruct (generate E (default [] text) [] (emit (EvGenerate []) w))
        as [e | [entries |]]; try (rewrite Hrun; discriminate).
      destruct (writeFiles E (Some entries) (emit (EvGenerate []) w)) as [[[] | e] w'];
        rewrite Hrun; [reflexivity | discriminate]. }
    clear Hrun.
    destruct (GenerateApp.POST E text w) as [generateResponse w1]. simpl in *.
    destruct (Page.ok (GenerateApp.status generateResponse)) eqn:Hok;
      [| discriminate].
    pose proof (POST_ok_status E None w1) as Hbuild.
    destruct (POST E None w1) as [buildResponse w2]. simpl in *.
    destruct timed_out; [discriminate |].
    destruct (Page.ok (status buildResponse)); [| discriminate].
    destruct (Hbuild eq_refl) as [Hresp Hready].
    repeat (split; [auto; fail |]). now apply ready_two_ways.
Qed.

Lemma page_success_means_running_witness :
  (false = false
   /\ GenerateApp.status
        (fst (GenerateApp.POST Scenario.healthy Scenario.prompt Scenario.fresh))
      = 200%Z
   /\ fst (POST Scenario.healthy None
             (snd (GenerateApp.POST Scenario.healthy Scenario.prompt Scenario.fresh)))
      = response_success
   /\ awaitReady Scenario.healthy = Ready
   /\ (ready_by_poll Scenario.healthy \/ ready_by_banner Scenario.healthy))
  /\ (false = false
      /\ GenerateApp.status
           (fst (GenerateApp.POST Scenario.banner_only Scenario.prompt Scenario.fresh))
         = 200%Z
      /\ fst (POST Scenario.banner_only None
                (snd (GenerateApp.POST Scenario.banner_only Scenario.prompt
                        Scenario.fresh)))
         = response_success
      /\ awaitReady Scenario.banner_only = Ready
      /\ (ready_by_poll Scenario.banner_only \/ ready_by_banner Scenario.banner_only)).
Proof.
  split.
  - apply (page_success_means_running Scenario.healthy Scenario.prompt false
             Scenario.fresh).
    vm_compute. reflexivity.
  - apply (page_success_means_running Scenario.banner_only Scenario.prompt false
             Scenario.fresh).
    vm_compute. reflexivity.
Defined.

Lemma POST_busy_open_failed E prompt w :
  status (fst (POST E prompt w)) = 409%Z ->
  existsSync_appDir w = false \/ existsSync lockPath w = true.
Proof.
  unfold existsSync_appDir, existsSync.
  intros Hstatus. destruct (fs w) as [d |] eqn:Hfs; [| now left].
  right. destruct (d !! lockPath) as [n |] eqn:Hn.
  - apply bool_decide_eq_true_2. now exists n.
  - exfalso.
    assert (Hlock : acquire_lock (lock_stamp E) w
                    = (Ok true, set_fs (Some (<[lockPath := File (lock_stamp E)]> d)) w)).
    { unfold acquire_lock. now rewrite Hfs, Hn. }
    destruct (POST_past_the_lock E prompt w _ Hlock)
      as [(e & w2 & Hp) | [(r & w2 & Hr & _ & Hp) | (w2 & Hp)]];
      rewrite Hp in Hstatus; simpl in Hstatus; try discriminate.
    + rewrite Hr in Hstatus. discriminate.
    + destruct (awaitReady E); discriminate.
Qed.

(** The build that follows a generation is not turned away. After a 200 of
    the generate route the directory exists and holds the generated files
    only. So when no key of the mapping climbs above the target directory
    and none names the marker's place [.build.lock] or a place below it,
    the build route that is requested next takes the lock: it does not
    answer 409, even if a marker of an earlier run was left behind. *)
Theorem build_after_generation_is_not_busy (E : Env) (text : option jsstring)
    (w : World) :
  GenerateApp.status (fst (GenerateApp.POST E text w)) = 200%Z ->
  (forall entries,
     generate E (default [] text) [] (emit (EvGenerate []) w)
     = GenObject (Some entries) ->
     stays_inside entries /\ ~ written_by entries lockPath) ->
  status (fst (POST E None (snd (GenerateApp.POST E text w)))) <> 409%Z.
Proof.
  intros Hstatus Hfiles Hbusy.
  destruct (generate_route_cases E text w) as [(_ & _ & Hoff) | (_ & Hrun)].
  { rewrite Hoff in Hstatus. destruct (falsy text); discriminate. }
  destruct (generate E (default [] text) [] (emit (EvGenerate []) w))
    as [e | [entries |]];
    try (rewrite Hrun in Hstatus; discriminate).
  destruct (writeFiles E (Some entries) (emit (EvGenerate []) w))
    as [[[] | e] w'] eqn:Hwrite;
    [| rewrite Hrun in Hstatus; discriminate].
  rewrite Hrun in Hbusy. cbn [snd] in Hbusy.
  destruct (Hfiles entries eq_refl) as [Hin Hfree].
  destruct (writeFiles_from E entries _ w' lockPath Hwrite Hin) as [Hdir Hfrom].
  apply POST_busy_open_failed in Hbusy as [Hmissing | Hmarker].
  - congruence.
  - now apply Hfree, Hfrom.
Qed.

Lemma build_after_generation_is_not_busy_witness :
  GenerateApp.status
    (fst (GenerateApp.POST (Mapping.generating Mapping.project) Scenario.prompt
            Scenario.locked)) = 200%Z
  /\ status (fst (POST (Mapping.generating Mapping.project) None
                    (snd (GenerateApp.POST (Mapping.generating Mapping.project)
                            Scenario.prompt Scenario.locked))))
     <> 409%Z.
Proof.
  split; [reflexivity |].
  apply (build_after_generation_is_not_busy (Mapping.generating Mapping.project)
           Scenario.prompt Scenario.locked).
  - reflexivity.
  - intros entries Hgen. injection Hgen as <-. split.
    + exact stays_inside_project.
    + apply not_written_by_project; discriminate.
Defined.

(** The marker's place under another spelling: the Generator writes
    [./.build.lock], [path.join] makes it the marker, and the build that
    follows is turned away. *)
Example generated_marker_blocks_the_build :
  let E := Mapping.generating [("./.build.lock"%string, lit "stale")] in
  GenerateApp.status (fst (GenerateApp.POST E Scenario.prompt Scenario.fresh)) = 200%Z
  /\ status (fst (POST E None (snd (GenerateApp.POST E Scenario.prompt Scenario.fresh))))
     = 409%Z.
Proof. split; vm_compute; reflexivity. Qed.

(** * Substrings and the corruption signals *)

Lemma starts_with_spec needle : forall s,
  starts_with needle s = true <-> exists post, s = needle ++ post.
Proof.
  induction needle as [| n needle IH]; intros s; simpl.
  - split; [intros _; now exists s | reflexivity].
  - destruct s as [| c s].
    + split; [discriminate | intros (post & H); discriminate].
    + rewrite andb_true_iff, N.eqb_eq, IH. split.
      * intros (-> & post & ->). now exists post.
      * intros (post & [= -> ->]). split; [reflexivity | now exists post].
Qed.

Lemma includes_spec needle : forall s,
  includes s needle = true <-> exists pre post, s = pre ++ needle ++ post.
Proof.
  induction s as [| c s IH]; simpl.
  - rewrite orb_false_r, starts_with_spec. split.
    + intros (post & H). now exists [], post.
    + intros (pre & post & H). destruct pre; [now exists post |]. discriminate.
  - rewrite orb_true_iff, starts_with_spec, IH. split.
    + intros [(post & H) | (pre & post & ->)].
      * now exists [], post.
      * now exists (c :: pre), post.
    + intros ([| c' pre] & post & H).
      * left. now exists post.
      * right. injection H as -> ->. now exists pre, post.
Qed.

(** [looksLikeCorruptInstall] holds exactly of the outputs that contain
    one of the five signals somewhere, and so it keeps holding when more
    output is written before or after. *)
Theorem corrupt_output_contains_a_signal (out : jsstring) :
  (looksLikeCorruptInstall out = true
   <-> exists signal pre post,
         In signal corruption_signals /\ out = pre ++ signal ++ post)
  /\ (looksLikeCorruptInstall out = true ->
      forall before after,
        looksLikeCorruptInstall (before ++ out ++ after) = true).
Proof.
  assert (Hspec : forall o,
            looksLikeCorruptInstall o = true
            <-> exists signal pre post,
                  In signal corruption_signals /\ o = pre ++ signal ++ post).
  { intros o. unfold looksLikeCorruptInstall. rewrite existsb_exists. split.
    - intros (signal & Hin & Hinc). apply includes_spec in Hinc as (pre & post & ->).
      now exists signal, pre, post.
    - intros (signal & pre & post & Hin & ->). exists signal. split; [exact Hin |].
      apply includes_spec. now exists pre, post. }
  split; [apply Hspec |].
  intros Hout before after. apply Hspec in Hout as (signal & pre & post & Hin & ->).
  apply Hspec. exists signal, (before ++ pre), (post ++ after).
  split; [exact Hin |]. now rewrite <- !app_assoc.
Qed.

(** * Cleaning the build state *)

Lemma lookup_remove_tree name d k :
  remove_tree name d !! k
  = if bool_decide (k = name) || below name k then None else d !! k.
Proof.
  unfold remove_tree. apply option_eq. intros x.
  rewrite map_lookup_filter_Some. simpl.
  destruct (bool_decide (k = name)) eqn:Hk; simpl.
  - apply bool_decide_eq_true_1 in Hk. split; [intros (_ & Hne & _) | discriminate].
    contradiction.
  - apply bool_decide_eq_false_1 in Hk. destruct (below name k) eqn:Hb.
    + split; [intros (_ & _ & H); discriminate | discriminate].
    + split; [now intros (H & _) | now intros H].
Qed.

Lemma lookup_remove_file name d k :
  remove_file name d !! k
  = if bool_decide (k = name) && is_file (d !! name) then None else d !! k.
Proof.
  unfold remove_file. destruct (is_file (d !! name)) eqn:Hf.
  - destruct (bool_decide (k = name)) eqn:Hk; simpl.
    + apply bool_decide_eq_true_1 in Hk. subst k. apply lookup_delete_eq.
    + apply bool_decide_eq_false_1 in Hk. now apply lookup_delete_ne.
  - now rewrite andb_false_r.
Qed.

Lemma cleaned_fs w :
  fs (cleaned w)
  = (fun d => remove_file ".install.hash"
                (remove_file "package-lock.json"
                   (remove_tree "node_modules" (remove_tree ".next" d))))
      <$> fs w.
Proof.
  rewrite cleaned_unfold. unfold rm_f, rm_rf. simpl. now destruct (fs w).
Qed.

Lemma lookup_remove_trees t1 t2 d k :
  remove_tree t2 (remove_tree t1 d) !! k
  = if bool_decide (k = t1) || below t1 k || bool_decide (k = t2) || below t2 k
    then None else d !! k.
Proof.
  rewrite !lookup_remove_tree.
  destruct (bool_decide (k = t1)), (below t1 k), (bool_decide (k = t2)),
    (below t2 k); reflexivity.
Qed.

Lemma lookup_clean t1 t2 f1 f2 d k :
  f1 <> f2 ->
  bool_decide (f1 = t1) || below t1 f1 || bool_decide (f1 = t2) || below t2 f1
  = false ->
  bool_decide (f2 = t1) || below t1 f2 || bool_decide (f2 = t2) || below t2 f2
  = false ->
  remove_file f2 (remove_file f1 (remove_tree t2 (remove_tree t1 d))) !! k
  = if bool_decide (k = t1) || below t1 k || bool_decide (k = t2) || below t2 k
    then None
    else if (bool_decide (k = f1) || bool_decide (k = f2)) && is_file (d !! k)
         then None
         else d !! k.
Proof.
  intros Hne H1 H2.
  assert (Hf1 : remove_tree t2 (remove_tree t1 d) !! f1 = d !! f1)
    by (now rewrite lookup_remove_trees, H1).
  assert (Hf2 : remove_file f1 (remove_tree t2 (remove_tree t1 d)) !! f2 = d !! f2).
  { rewrite lookup_remove_file.
    rewrite (bool_decide_eq_false_2 (f2 = f1)) by congruence. cbn.
    now rewrite lookup_remove_trees, H2. }
  rewrite lookup_remove_file, Hf2, lookup_remove_file, Hf1, lookup_remove_trees.
  destruct (bool_decide (k = f2)) eqn:Hk2.
  - apply bool_decide_eq_true_1 in Hk2. subst k. rewrite H2.
    rewrite (bool_decide_eq_false_2 (f2 = f1)) by congruence. cbn.
    now destruct (is_file (d !! f2)).
  - destruct (bool_decide (k = f1)) eqn:Hk1.
    + apply bool_decide_eq_true_1 in Hk1. subst k. rewrite H1. cbn.
      now destruct (is_file (d !! f1)).
    + reflexivity.
Qed.

(** The directory after a cleaning, path by path. *)
Lemma cleaned_node w k :
  node_at k (cleaned w)
  = if bool_decide (k = ".next"%string) || below ".next" k
       || bool_decide (k = "node_modules"%string) || below "node_modules" k
    then None
    else if (bool_decide (k = "package-lock.json"%string)
             || bool_decide (k = ".install.hash"%string))
            && is_file (node_at k w)
         then None
         else node_at k w.
Proof.
  unfold node_at. rewrite cleaned_fs.
  destruct (fs w) as [d |]; simpl;
    [| now repeat match goal with |- context [if ?b then _ else _] => destruct b end].
  apply lookup_clean; [discriminate | vm_compute; reflexivity ..].
Qed.

(** [cleanGeneratedAppBuildState] touches the build state only: every other
    path of the directory keeps its node (the sources and the manifest
    among them), nothing is created, a directory at the lockfile's or the
    fingerprint's path stays, and cleaning a second time changes nothing. *)
Theorem clean_touches_only_build_state (w : World) :
  (forall k, build_state k = false -> node_at k (cleaned w) = node_at k w)
  /\ (forall k, node_at k w = Some Folder ->
        k = "package-lock.json"%string \/ k = ".install.hash"%string ->
        node_at k (cleaned w) = Some Folder)
  /\ (forall k x, node_at k (cleaned w) = Some x -> node_at k w = Some x)
  /\ fs (cleaned (cleaned w)) = fs (cleaned w)
  /\ existsSync_appDir (cleaned w) = existsSync_appDir w.
Proof.
  split; [| split; [| split; [| split]]].
  - intros k Hk. rewrite cleaned_node. unfold build_state in Hk.
    repeat (apply orb_false_elim in Hk as [Hk ?]).
    repeat match goal with H : _ = false |- _ => rewrite H; clear H end.
    reflexivity.
  - intros k Hdir Hk. rewrite cleaned_node, Hdir.
    destruct Hk as [-> | ->]; reflexivity.
  - intros k x. rewrite cleaned_node.
    repeat match goal with |- context [if ?b then _ else _] => destruct b end;
      now try discriminate.
  - assert (Hnode : forall k, node_at k (cleaned (cleaned w)) = node_at k (cleaned w)).
    { intros k. rewrite (cleaned_node (cleaned w)).
      destruct (bool_decide (k = ".next"%string) || below ".next" k
                || bool_decide (k = "node_modules"%string)
                || below "node_modules" k) eqn:Hu.
      - rewrite cleaned_node, Hu. reflexivity.
      - destruct (bool_decide (k = "package-lock.json"%string)
                  || bool_decide (k = ".install.hash"%string)) eqn:Hf;
          [| reflexivity].
        rewrite andb_true_l.
        destruct (is_file (node_at k (cleaned w))) eqn:Hfile; [| reflexivity].
        exfalso. rewrite cleaned_node, Hu, Hf, andb_true_l in Hfile.
        destruct (is_file (node_at k w)) eqn:Hw; [discriminate | congruence]. }
    unfold node_at in Hnode. rewrite (cleaned_fs (cleaned w)) in Hnode |- *.
    destruct (fs (cleaned w)) as [d |]; [| reflexivity].
    simpl in *. f_equal. apply map_eq. exact Hnode.
  - unfold existsSync_appDir. rewrite cleaned_fs. now destruct (fs w).
Qed.

(** * A repair is followed by an install *)

Lemma install_not_skipped_spawns E w :
  skip_install w = false ->
  (count is_spawn w + 1
   <= count is_spawn (snd (runNpmInstallWithFallback E w)))%nat.
Proof.
  intros Hskip.
  assert (Hfiles : blind_to_files is_spawn) by (repeat split).
  unfold runNpmInstallWithFallback.
  unfold bind at 1. unfold observe at 1.
  unfold bind at 1. unfold observe at 1.
  unfold bind at 1. unfold observe at 1.
  unfold skip_install in Hskip. rewrite Hskip.
  unfold bind at 1. unfold observe at 1.
  unfold bind at 1.
  match goal with
  | |- context [runNpm E ?a ?l w] =>
      destruct (runNpm E a l w) as [r w2] eqn:Hfirst
  end.
  assert (Hw2 : count is_spawn w2 = (count is_spawn w + 1)%nat).
  { apply runNpm_trace in Hfirst. unfold count. rewrite Hfirst.
    rewrite List.filter_app, length_app. reflexivity. }
  destruct r as [first | e]; [| simpl; lia].
  rewrite <- Hw2.
  match goal with
  | |- (_ <= count is_spawn (snd (?rest w2)))%nat =>
      assert (Hrest : adds_events is_spawn 1 rest)
  end.
  { apply ev_if; [apply (ev_weaken is_spawn 0); [lia | now apply ev_writeFile_quiet] |].
    apply ev_if.
    - apply ev_seq; [now apply ev_clean | intros _].
      replace 1%nat with (1 + 0)%nat by lia.
      apply ev_bind; [apply ev_runNpm_1 | intros retry].
      apply ev_if; [now apply ev_writeFile_quiet | apply ev_throw].
    - apply ev_if; [| apply (ev_weaken is_spawn 0); [lia | apply ev_throw]].
      replace 1%nat with (1 + 0)%nat by lia.
      apply ev_bind; [apply ev_runNpm_1 | intros second].
      apply ev_if; [now apply ev_writeFile_quiet |].
      apply ev_seq; [apply ev_if; [now apply ev_clean | apply ev_ret] | intros _].
      apply ev_throw. }
  match goal with
  | |- (_ <= count is_spawn (snd (?rest w2)))%nat =>
      destruct (rest w2) as [r' w'] eqn:Hrun
  end.
  apply Hrest in Hrun. simpl. lia.
Qed.

(** After every successful repair the installer runs npm again. The repair
    has replaced the directory by the Generator's files. So when no key of
    the mapping climbs above the target directory and none names
    [node_modules] or a place below it, the skip test of
    [runNpmInstallWithFallback] fails and at least one npm subprocess is
    started before the next build. *)
Theorem repair_is_followed_by_an_install (E : Env) (prompt : option jsstring)
    (ctx : jsstring) (w w1 : World) :
  maybeAutoRepair E prompt ctx w = (Ok true, w1) ->
  exists entries,
    generate E (default [] prompt) ctx (emit (EvGenerate ctx) w)
    = GenObject (Some entries)
    /\ (stays_inside entries ->
        ~ written_by entries "node_modules" ->
        existsSync "node_modules" w1 = false
        /\ skip_install w1 = false
        /\ (count is_spawn w1 + 1
            <= count is_spawn (snd (runNpmInstallWithFallback E w1)))%nat).
Proof.
  unfold maybeAutoRepair. intros Hrun.
  destruct (falsy prompt); [discriminate |].
  destruct (falsy (OPENAI_API_KEY E)); [discriminate |].
  unfold bind at 1 in Hrun. unfold effect at 1 in Hrun.
  unfold bind at 1 in Hrun. unfold observe at 1 in Hrun.
  destruct (generate E (default [] prompt) ctx (emit (EvGenerate ctx) w))
    as [e | files]; [discriminate |].
  unfold bind in Hrun.
  destruct (writeFiles E files (emit (EvGenerate ctx) w)) as [[[] | e] w'] eqn:Hwrite;
    [| discriminate].
  injection Hrun as <-.
  destruct files as [entries |].
  2:{ unfold writeFiles, bind, effect, throw in Hwrite. discriminate. }
  exists entries. split; [reflexivity |].
  intros Hin Hfree.
  assert (Hnm : existsSync "node_modules" w' = false).
  { destruct (existsSync "node_modules" w') eqn:Hnm; [| reflexivity].
    exfalso. apply Hfree.
    now apply (writeFiles_from E entries _ w' "node_modules"%string Hwrite Hin). }
  assert (Hskip : skip_install w' = false).
  { unfold skip_install. rewrite Hnm. apply andb_false_r. }
  split; [exact Hnm |].
  split; [exact Hskip | now apply install_not_skipped_spawns].
Qed.

Lemma repair_is_followed_by_an_install_witness :
  existsSync "node_modules"
    (snd (maybeAutoRepair (Mapping.generating Mapping.project) Scenario.prompt []
            Scenario.installed)) = false
  /\ skip_install
       (snd (maybeAutoRepair (Mapping.generating Mapping.project) Scenario.prompt []
               Scenario.installed)) = false
  /\ (count is_spawn
        (snd (maybeAutoRepair (Mapping.generating Mapping.project) Scenario.prompt []
                Scenario.installed)) + 1
      <= count is_spawn
           (snd (runNpmInstallWithFallback (Mapping.generating Mapping.project)
                   (snd (maybeAutoRepair (Mapping.generating Mapping.project)
                           Scenario.prompt [] Scenario.installed)))))%nat.
Proof.
  destruct (repair_is_followed_by_an_install (Mapping.generating Mapping.project)
              Scenario.prompt [] Scenario.installed _ eq_refl)
    as (entries & Hgen & Hall).
  injection Hgen as <-.
  apply Hall; [exact stays_inside_project |].
  apply not_written_by_project; discriminate.
Defined.

(** The side conditions hold of [Mapping.project], and they are needed: a
    Generator that writes the fingerprint of its own manifest and a file
    under [./node_modules] makes the installer skip. *)
Example repair_side_conditions :
  (stays_inside Mapping.project /\ ~ written_by Mapping.project "node_modules")
  /\ (let files := [("package.json"%string, lit "{}");
                    (".install.hash"%string,
                     computeInstallHash
                       {| fs := Some {[ "package.json"%string := File (lit "{}") ]};
                          trace := [] |});
                    ("./node_modules/x.js"%string, lit "x")] in
      let w1 := snd (maybeAutoRepair (Mapping.generating files) Scenario.prompt []
                       Scenario.installed) in
      skip_install w1 = true
      /\ count is_spawn (snd (runNpmInstallWithFallback (Mapping.generating files) w1))
         = count is_spawn w1).
Proof.
  split.
  - split; [exact stays_inside_project |].
    apply not_written_by_project; discriminate.
  - split; vm_compute; reflexivity.
Qed.

(** * The first variant of the route *)

Lemma first_install_events p E :
  blind_to_files p ->
  adds_events p ((if p (EvSpawn ["install"%string]) then 1 else 0)
                 + (if p (EvSpawn ["install"; "--legacy-peer-deps"]%string)
                    then 1 else 0))
    (FirstVariant.install E).
Proof.
  intros Hp w r w' Hrun. unfold FirstVariant.install, FirstVariant.runNpmInstall in Hrun.
  destruct (npm E ["install"%string] _) as [o1 d1].
  set (w1 := set_fs d1 (emit (EvSpawn ["install"%string]) w)) in *.
  assert (Hw1 : count p w1
                = (count p w + if p (EvSpawn ["install"%string]) then 1 else 0)%nat).
  { unfold w1. now rewrite count_set_fs, count_emit. }
  destruct (npm E ["install"; "--legacy-peer-deps"]%string _) as [o2 d2].
  set (w2 := set_fs d2 (emit (EvSpawn ["install"; "--legacy-peer-deps"]%string) w1)) in *.
  assert (Hw2 : count p w2
                = (count p w1
                   + if p (EvSpawn ["install"; "--legacy-peer-deps"]%string)
                     then 1 else 0)%nat).
  { unfold w2. now rewrite count_set_fs, count_emit. }
  repeat match type of Hrun with
         | context [match ?x with _ => _ end] => destruct x
         | context [if ?b then _ else _] => destruct b
         end;
    injection Hrun as _ <-; lia.
Qed.

(** The first variant has no lock and no compile gate. It answers 404
    exactly when the target directory is missing, and then does nothing;
    it never answers 409; and whatever happens it starts at most two
    installs, no build and at most one dev server, and never calls the
    Generator. *)
Theorem first_variant_installs_and_launches (E : Env) (w : World) :
  (status (fst (FirstVariant.POST E w)) = 404%Z <-> existsSync_appDir w = false)
  /\ (existsSync_appDir w = false -> snd (FirstVariant.POST E w) = w)
  /\ status (fst (FirstVariant.POST E w)) <> 409%Z
  /\ (count is_spawn (snd (FirstVariant.POST E w)) <= count is_spawn w + 2)%nat
  /\ count is_build (snd (FirstVariant.POST E w)) = count is_build w
  /\ count is_generate (snd (FirstVariant.POST E w)) = count is_generate w
  /\ (count is_launch (snd (FirstVariant.POST E w)) <= count is_launch w + 1)%nat.
Proof.
  assert (Hcount : forall p,
            blind_to_files p ->
            (count p (snd (FirstVariant.POST E w))
             <= count p w
                + ((if p (EvSpawn ["install"%string]) then 1 else 0)
                   + (if p (EvSpawn ["install"; "--legacy-peer-deps"]%string)
                      then 1 else 0)
                   + ((if p EvFreePort then 1 else 0)
                      + (if p EvLaunch then 1 else 0))))%nat
            /\ (count p w <= count p (snd (FirstVariant.POST E w)))%nat).
  { intros p Hp.
    assert (Htry : adds_events p
                     ((if p (EvSpawn ["install"%string]) then 1 else 0)
                      + (if p (EvSpawn ["install"; "--legacy-peer-deps"]%string)
                         then 1 else 0)
                      + ((if p EvFreePort then 1 else 0)
                         + (if p EvLaunch then 1 else 0)))
                     (FirstVariant.POST_try E)).
    { unfold FirstVariant.POST_try.
      apply ev_seq; [apply ev_observe | intros present].
      apply ev_if; [apply ev_quiet |].
      apply ev_bind; [now apply first_install_events | intros _].
      unfold launch_stage. apply ev_bind; [apply ev_emit | intros _].
      replace (if p EvLaunch then 1 else 0)%nat
        with ((if p EvLaunch then 1 else 0) + 0)%nat by lia.
      apply ev_bind; [apply ev_emit | intros _; apply ev_ret]. }
    unfold FirstVariant.POST.
    destruct (FirstVariant.POST_try E w) as [r w'] eqn:Hrun.
    specialize (Htry _ _ _ Hrun). simpl. lia. }
  assert (Hrun : existsSync_appDir w = true ->
                 FirstVariant.POST E w
                 = match FirstVariant.install E w with
                   | (Ok _, w1) =>
                       (response_of_health (awaitReady E),
                        emit EvLaunch (emit EvFreePort w1))
                   | (Throw e, w1) => (response_fatal e, w1)
                   end).
  { intros Hdir. unfold FirstVariant.POST, FirstVariant.POST_try, bind, observe.
    rewrite Hdir. cbn [negb].
    destruct (FirstVariant.install E w) as [[[] | e] w1]; reflexivity. }
  assert (Hstatus : existsSync_appDir w = true ->
                    status (fst (FirstVariant.POST E w)) = 200%Z
                    \/ status (fst (FirstVariant.POST E w)) = 500%Z).
  { intros Hdir. rewrite (Hrun Hdir).
    destruct (FirstVariant.install E w) as [[[] | e] w1]; [| right; reflexivity].
    destruct (awaitReady E); [left | right | right]; reflexivity. }
  assert (Hmissing : existsSync_appDir w = false ->
                     FirstVariant.POST E w = (response_not_found, w)).
  { intros Hdir. unfold FirstVariant.POST, FirstVariant.POST_try, bind, observe.
    now rewrite Hdir. }
  split; [| split; [| split; [| split; [| split; [| split]]]]].
  - split.
    + intros H404. destruct (existsSync_appDir w) eqn:Hdir; [| reflexivity].
      destruct (Hstatus eq_refl) as [H | H]; rewrite H in H404; discriminate.
    + intros Hdir. now rewrite (Hmissing Hdir).
  - intros Hdir. now rewrite (Hmissing Hdir).
  - destruct (existsSync_appDir w) eqn:Hdir.
    + destruct (Hstatus eq_refl) as [H | H]; rewrite H; discriminate.
    + rewrite (Hmissing eq_refl). discriminate.
  - destruct (Hcount is_spawn (proj1 blind_is_spawn)) as [H _]. simpl in H. lia.
  - destruct (Hcount is_build (proj1 blind_is_build)) as [H H']. simpl in H. lia.
  - assert (Hg : blind_to_files is_generate) by (repeat split).
    destruct (Hcount is_generate Hg) as [H H']. simpl in H. lia.
  - destruct (Hcount is_launch (proj1 blind_is_launch)) as [H _]. simpl in H. lia.
Qed.

(** A spawn that fails is not retried, whatever the error says: the
    fallback looks at the output of a process that closed. *)
Example first_variant_spawn_error :
  let E := {| npm := fun _ w => (SpawnError [] (lit "spawn npm ERESOLVE"), fs w);
              scan := scan Scenario.healthy;
              generate := generate Scenario.healthy;
              OPENAI_API_KEY := None;
              probe := probe Scenario.healthy;
              stream_ready := false;
              lock_stamp := [];
              write_outside := write_outside Scenario.healthy |} in
  FirstVariant.POST E Scenario.fresh
  = (response_fatal (lit "spawn npm ERESOLVE"),
     emit (EvSpawn ["install"%string]) Scenario.fresh).
Proof. reflexivity. Qed.

(** * The import check of the Vite variant *)

(** Every import of a scoped package, [@scope/name], is reported as a
    forbidden non-relative import: its specifier contains a slash and
    starts with none of the exempted prefixes. Only [@/...], the alias of
    the project root, passes. *)
Theorem scoped_packages_are_reported (c : N) (scope name : jsstring) :
  c <> 47 ->
  Vite.isBad (lit "@" ++ c :: scope ++ lit "/" ++ name) = true.
Proof.
  intros Hc. unfold Vite.isBad.
  assert (Halias : starts_with (lit "@/") (lit "@" ++ c :: scope ++ lit "/" ++ name)
                   = false).
  { change (starts_with (lit "@/") (lit "@" ++ c :: scope ++ lit "/" ++ name))
      with ((64 =? 64) && ((47 =? c) && true)).
    apply N.eqb_neq in Hc. rewrite N.eqb_sym in Hc. now rewrite Hc. }
  rewrite Halias.
  change (starts_with (lit ".") (lit "@" ++ c :: scope ++ lit "/" ++ name)) with false.
  change (starts_with (lit "react") (lit "@" ++ c :: scope ++ lit "/" ++ name))
    with false.
  change (starts_with (lit "tailwindcss") (lit "@" ++ c :: scope ++ lit "/" ++ name))
    with false.
  cbn [orb]. apply includes_spec.
  exists (lit "@" ++ c :: scope), name. now rewrite <- app_assoc.
Qed.

Lemma scoped_packages_are_reported_witness :
  116 <> 47
  /\ Vite.isBad (lit "@" ++ 116 :: lit "anstack" ++ lit "/" ++ lit "react-query") = true.
Proof.
  split; [discriminate |].
  apply (scoped_packages_are_reported 116 (lit "anstack") (lit "react-query")).
  discriminate.
Defined.

(** Relative imports, the alias and everything that starts with [react]
    pass, path-like or not; a deep import of any other package does not. *)
Example isBad_on_specifiers :
  Vite.isBad (lit "./components/Button") = false
  /\ Vite.isBad (lit "@/lib/utils") = false
  /\ Vite.isBad (lit "react-dom/client") = false
  /\ Vite.isBad (lit "zod") = false
  /\ Vite.isBad (lit "lodash/debounce") = true
  /\ Vite.isBad (lit "components/Button") = true.
Proof. repeat split; reflexivity. Qed.

(** * The lock marker *)

(** Taking the marker and releasing it is a round trip on the directory:
    a run that gets the lock and does nothing else leaves the directory as
    it found it. *)
Theorem lock_round_trip (stamp : jsstring) (w w1 : World) :
  acquire_lock stamp w = (Ok true, w1) ->
  isFile lockPath w1 = true
  /\ readFile_or_empty lockPath w1 = stamp
  /\ fs (release_lock w1) = fs w.
Proof.
  unfold acquire_lock. destruct (fs w) as [d |] eqn:Hfs; [| discriminate].
  destruct (d !! lockPath) eqn:Hlock; [discriminate |].
  intros [= <-]. unfold isFile, readFile_or_empty, release_lock, rm_f. simpl.
  rewrite lookup_insert_eq. split; [reflexivity |]. split; [reflexivity |].
  unfold remove_file. rewrite lookup_insert_eq. simpl.
  now rewrite delete_insert_id.
Qed.

Lemma lock_round_trip_witness :
  isFile lockPath (snd (acquire_lock (lit "4243") Scenario.fresh)) = true
  /\ readFile_or_empty lockPath (snd (acquire_lock (lit "4243") Scenario.fresh))
     = lit "4243"
  /\ fs (release_lock (snd (acquire_lock (lit "4243") Scenario.fresh)))
     = fs Scenario.fresh.
Proof.
  apply (lock_round_trip (lit "4243") Scenario.fresh).
  reflexivity.
Defined.

(** * C8: the Generator's answer is written as it comes *)

Lemma fatal_quiet {A} message (m : M A) :
  adds_events is_generate 0 m -> call_is_fatal message m.
Proof. intros Hm w r w' Hrun. left. specialize (Hm _ _ _ Hrun). lia. Qed.

Lemma fatal_bind {A B} message (m : M A) (k : A -> M B) :
  call_is_fatal message m -> (forall a, call_is_fatal message (k a)) ->
  call_is_fatal message (bind m k).
Proof.
  intros Hm Hk w r w' Hrun. unfold bind in Hrun.
  destruct (m w) as [[a | e] w1] eqn:Hmw.
  - destruct (Hm _ _ _ Hmw) as [Hsame | (Habs & _)]; [| discriminate].
    destruct (Hk a _ _ _ Hrun) as [Hsame' | (Hr & Hfs & Hcount)].
    + left. lia.
    + right. repeat split; [exact Hr | exact Hfs | lia].
  - injection Hrun as <- <-.
    destruct (Hm _ _ _ Hmw) as [Hsame | (Hr & Hfs & Hcount)].
    + now left.
    + right. injection Hr as ->. now repeat split.
Qed.

Lemma fatal_if {A} message (b : bool) (m1 m2 : M A) :
  call_is_fatal message m1 -> call_is_fatal message m2 ->
  call_is_fatal message (if b then m1 else m2).
Proof. now destruct b. Qed.

Lemma blind_is_generate : blind_to_files is_generate.
Proof. repeat split. Qed.

Lemma quiet_install E : adds_events is_generate 0 (runNpmInstallWithFallback E).
Proof.
  apply (ev_install_gen is_generate E 0 0 blind_is_generate);
    intros label; apply (ev_runNpm is_generate).
Qed.

(** The repair when the Generator's object has no usable mapping. *)
Lemma repair_unvalidated E prompt files ctx w :
  falsy prompt = false -> falsy (OPENAI_API_KEY E) = false ->
  generate E (default [] prompt) ctx (generate_start ctx w) = GenObject files ->
  files = None \/ files = Some [] ->
  maybeAutoRepair E prompt ctx w
  = (match files with
     | None => Throw (lit "Cannot convert undefined or null to object")
     | Some _ => Ok true
     end,
     set_fs (Some ∅) (emit EvWriteFiles (emit (EvGenerate ctx) w))).
Proof.
  intros Hp Hk Hgen Hfiles. unfold maybeAutoRepair. rewrite Hp, Hk.
  unfold generate_start in Hgen. unfold bind, effect, observe. rewrite Hgen.
  destruct Hfiles as [-> | ->]; reflexivity.
Qed.

Lemma repair_missing_mapping_fatal E prompt ctx :
  falsy prompt = false -> falsy (OPENAI_API_KEY E) = false ->
  (forall p c w, generate E p c w = GenObject None) ->
  call_is_fatal (lit "Cannot convert undefined or null to object")
    (maybeAutoRepair E prompt ctx).
Proof.
  intros Hp Hk Hgen w r w' Hrun.
  rewrite (repair_unvalidated E prompt None ctx w Hp Hk (Hgen _ _ _)) in Hrun
    by now left.
  injection Hrun as <- <-. right. split; [reflexivity |]. split; [reflexivity |].
  rewrite count_set_fs, !count_emit. simpl. lia.
Qed.

Lemma loop_missing_mapping_fatal E prompt :
  falsy prompt = false -> falsy (OPENAI_API_KEY E) = false ->
  (forall p c w, generate E p c w = GenObject None) ->
  forall fuel attempt,
    call_is_fatal (lit "Cannot convert undefined or null to object")
      (repair_loop E prompt fuel attempt).
Proof.
  intros Hp Hk Hgen. induction fuel as [| fuel IH]; intros attempt.
  - apply fatal_quiet, ev_ret.
  - cbn [repair_loop].
    assert (Hrepair : forall ctx (r1 : LoopExit),
              call_is_fatal (lit "Cannot convert undefined or null to object")
                (await repaired <- maybeAutoRepair E prompt ctx;
                 if negb repaired then ret r1
                 else exec runNpmInstallWithFallback E;
                      repair_loop E prompt fuel (S attempt))).
    { intros ctx r1. apply fatal_bind.
      - now apply repair_missing_mapping_fatal.
      - intros repaired. apply fatal_if; [apply fatal_quiet, ev_ret |].
        apply fatal_bind; [apply fatal_quiet, quiet_install | intros _; apply IH]. }
    apply fatal_if; [apply fatal_quiet, ev_ret |].
    apply fatal_bind; [apply fatal_quiet, ev_observe | intros forbidden].
    apply fatal_if.
    + apply fatal_if; [apply fatal_quiet, ev_ret |].
      apply Hrepair.
    + apply fatal_bind; [apply fatal_quiet, (ev_compile is_generate) | intros buildRes].
      apply fatal_if; [apply fatal_quiet, ev_ret |].
      apply fatal_if.
      * apply fatal_bind;
          [apply fatal_quiet, ev_clean, blind_is_generate | intros _].
        apply fatal_bind; [apply fatal_quiet, quiet_install | intros _; apply IH].
      * apply fatal_if; [apply fatal_quiet, ev_ret |].
        apply Hrepair.
Qed.

Lemma run_missing_mapping_fatal E prompt :
  falsy prompt = false -> falsy (OPENAI_API_KEY E) = false ->
  (forall p c w, generate E p c w = GenObject None) ->
  call_is_fatal (lit "Cannot convert undefined or null to object")
    (POST_try E prompt).
Proof.
  intros Hp Hk Hgen. unfold POST_try.
  apply fatal_bind; [| intros locked].
  { apply fatal_quiet. intros w r w' Hrun. unfold acquire_lock in Hrun.
    destruct (fs w) as [d |]; [destruct (d !! lockPath) |];
      injection Hrun as _ <-; rewrite ?count_set_fs; lia. }
  apply fatal_if; [apply fatal_quiet, ev_ret |].
  apply fatal_bind; [apply fatal_quiet, ev_observe | intros present].
  apply fatal_if; [apply fatal_quiet, ev_ret |].
  apply fatal_bind; [apply fatal_quiet, quiet_install | intros _].
  apply fatal_bind; [now apply loop_missing_mapping_fatal | intros exit].
  assert (Hlaunch : adds_events is_generate 0 (launch_stage E)).
  { unfold launch_stage. apply ev_seq; [apply (ev_emit is_generate) | intros _].
    apply ev_seq; [apply (ev_emit is_generate) | intros _; apply ev_ret]. }
  destruct exit; apply fatal_quiet; first [exact Hlaunch | apply ev_ret].
Qed.

(** C8 (as the code has it). The supervisor does not inspect the
    Generator's answer before writing: [writeFiles] first empties the
    target directory. When a call of the Generator answers with an object
    without a file mapping, or with an empty mapping:
    - the repair calls [writeFiles], which leaves the directory empty;
      without a mapping [writeFiles] then throws, with an empty mapping
      the repair reports success;
    - below the last attempt index, after a finding of the scan or after a
      failed build that does not look like a corrupt install, the loop
      without a mapping ends in that exception, and with an empty mapping
      goes on to the reinstall and the next attempt, from the emptied
      directory.
    And for a Generator that never gives a mapping, its first call ends
    the whole run: there is no second call, the response is the 500 of
    the outer [catch], and the directory is left empty. *)
Theorem generator_answer_not_validated (E : Env) (prompt : option jsstring)
    (files : option (list (string * jsstring))) :
  falsy prompt = false ->
  falsy (OPENAI_API_KEY E) = false ->
  files = None \/ files = Some [] ->
  (forall ctx w,
     generate E (default [] prompt) ctx (generate_start ctx w) = GenObject files ->
     exists w',
       maybeAutoRepair E prompt ctx w
       = (match files with
          | None => Throw (lit "Cannot convert undefined or null to object")
          | Some _ => Ok true
          end, w')
       /\ fs w' = Some ∅
       /\ trace w' = trace w ++ [EvGenerate ctx; EvWriteFiles])
  /\ (forall fuel attempt w finding,
        (attempt < MAX_REPAIR_ATTEMPTS)%nat ->
        scan E w = Some finding -> finding <> [] ->
        generate E (default [] prompt) (forbidden_context finding)
          (generate_start (forbidden_context finding) w) = GenObject files ->
        exists w2,
          fs w2 = Some ∅
          /\ repair_loop E prompt (S fuel) attempt w
             = match files with
               | None =>
                   (Throw (lit "Cannot convert undefined or null to object"), w2)
               | Some _ =>
                   (exec runNpmInstallWithFallback E;
                    repair_loop E prompt fuel (S attempt)) w2
               end)
  /\ (forall fuel attempt w w1 out,
        (attempt < MAX_REPAIR_ATTEMPTS)%nat ->
        falsy (scan E w) = true ->
        runCompileGate E w = (Ok (false, out), w1) ->
        looksLikeCorruptInstall out = false ->
        generate E (default [] prompt) (build_context attempt out)
          (generate_start (build_context attempt out) w1) = GenObject files ->
        exists w2,
          fs w2 = Some ∅
          /\ repair_loop E prompt (S fuel) attempt w
             = match files with
               | None =>
                   (Throw (lit "Cannot convert undefined or null to object"), w2)
               | Some _ =>
                   (exec runNpmInstallWithFallback E;
                    repair_loop E prompt fuel (S attempt)) w2
               end)
  /\ ((forall p ctx w, generate E p ctx w = GenObject None) ->
      forall w,
        (count is_generate (snd (POST E prompt w)) <= count is_generate w + 1)%nat
        /\ ((count is_generate w < count is_generate (snd (POST E prompt w)))%nat ->
            fst (POST E prompt w)
            = response_fatal (lit "Cannot convert undefined or null to object")
            /\ status (fst (POST E prompt w)) = 500%Z
            /\ fs (snd (POST E prompt w)) = Some ∅)).
Proof.
  intros Hp Hk Hfiles.
  assert (Hrepair : forall ctx w,
            generate E (default [] prompt) ctx (generate_start ctx w)
            = GenObject files ->
            maybeAutoRepair E prompt ctx w
            = (match files with
               | None => Throw (lit "Cannot convert undefined or null to object")
               | Some _ => Ok true
               end,
               set_fs (Some ∅) (emit EvWriteFiles (emit (EvGenerate ctx) w)))).
  { intros ctx w Hgen. now apply repair_unvalidated. }
  split; [| split; [| split]].
  - intros ctx w Hgen. eexists. split; [now apply Hrepair |].
    split; [reflexivity |]. simpl. now rewrite <- app_assoc.
  - intros fuel attempt w finding Hlt Hscan Hne Hgen.
    exists (set_fs (Some ∅)
              (emit EvWriteFiles (emit (EvGenerate (forbidden_context finding)) w))).
    split; [reflexivity |].
    cbn [repair_loop].
    assert (Hle : (attempt <=? MAX_REPAIR_ATTEMPTS)%nat = true)
      by (apply Nat.leb_le; lia).
    assert (Hneq : (attempt =? MAX_REPAIR_ATTEMPTS)%nat = false)
      by (apply Nat.eqb_neq; lia).
    rewrite Hle, Hneq. cbn [negb]. unfold bind at 1. unfold observe at 1.
    rewrite Hscan. destruct finding as [| c finding]; [contradiction |].
    cbn [falsy negb default] in *.
    change (id (c :: finding)) with (c :: finding).
    unfold bind at 1. rewrite (Hrepair _ _ Hgen).
    destruct Hfiles as [-> | ->]; reflexivity.
  - intros fuel attempt w w1 out Hlt Hscan Hbuild Hsig Hgen.
    exists (set_fs (Some ∅)
              (emit EvWriteFiles (emit (EvGenerate (build_context attempt out)) w1))).
    split; [reflexivity |].
    cbn [repair_loop].
    assert (Hle : (attempt <=? MAX_REPAIR_ATTEMPTS)%nat = true)
      by (apply Nat.leb_le; lia).
    assert (Hneq : (attempt =? MAX_REPAIR_ATTEMPTS)%nat = false)
      by (apply Nat.eqb_neq; lia).
    rewrite Hle, Hneq. cbn [negb]. unfold bind at 1. unfold observe at 1.
    rewrite Hscan. cbn [negb]. unfold bind at 1. rewrite Hbuild.
    cbn [fst snd]. rewrite Hsig. unfold bind at 1. rewrite (Hrepair _ _ Hgen).
    destruct Hfiles as [-> | ->]; reflexivity.
  - intros Hgen w.
    pose proof (run_missing_mapping_fatal E prompt Hp Hk Hgen w) as Hrun.
    unfold POST. destruct (POST_try E prompt w) as [r w'].
    specialize (Hrun r w' eq_refl).
    assert (Hrelease : count is_generate (release_lock w') = count is_generate w').
    { unfold release_lock. apply count_rm_f, blind_is_generate. }
    cbn [fst snd]. rewrite Hrelease.
    destruct Hrun as [Hsame | (-> & Hfs & Hcount)].
    + split; [lia |]. intros Hlt. lia.
    + split; [lia |]. intros _. split; [reflexivity |]. split; [reflexivity |].
      unfold release_lock, rm_f. simpl. rewrite Hfs. reflexivity.
Qed.

Lemma generator_answer_not_validated_witness :
  (exists w',
     maybeAutoRepair Scenario.missing_mapping Scenario.prompt (lit "ctx")
       Scenario.installed
     = (Throw (lit "Cannot convert undefined or null to object"), w')
     /\ fs w' = Some ∅
     /\ trace w' = trace Scenario.installed ++ [EvGenerate (lit "ctx"); EvWriteFiles])
  /\ (fst (POST Scenario.missing_mapping Scenario.prompt Scenario.fresh)
      = response_fatal (lit "Cannot convert undefined or null to object")
      /\ status (fst (POST Scenario.missing_mapping Scenario.prompt Scenario.fresh))
         = 500%Z
      /\ fs (snd (POST Scenario.missing_mapping Scenario.prompt Scenario.fresh))
         = Some ∅)
  /\ (exists w',
        maybeAutoRepair Scenario.empty_mapping Scenario.prompt (lit "ctx")
          Scenario.installed
        = (Ok true, w')
        /\ fs w' = Some ∅
        /\ trace w' = trace Scenario.installed ++ [EvGenerate (lit "ctx"); EvWriteFiles])
  /\ (exists w2,
        fs w2 = Some ∅
        /\ repair_loop Scenario.empty_mapping Scenario.prompt 3 0 Scenario.installed
           = (exec runNpmInstallWithFallback Scenario.empty_mapping;
              repair_loop Scenario.empty_mapping Scenario.prompt 2 1) w2).
Proof.
  pose proof (generator_answer_not_validated Scenario.missing_mapping
                Scenario.prompt None eq_refl eq_refl (or_introl eq_refl))
    as (Hrepair & _ & _ & Hrun).
  pose proof (generator_answer_not_validated Scenario.empty_mapping
                Scenario.prompt (Some []) eq_refl eq_refl (or_intror eq_refl))
    as (Hrepair' & _ & Hloop & _).
  split; [apply Hrepair; reflexivity |]. split.
  - apply (Hrun (fun _ _ _ => eq_refl) Scenario.fresh). vm_compute. lia.
  - split; [apply Hrepair'; reflexivity |].
    apply (Hloop 2%nat 0%nat Scenario.installed
             (build_start Scenario.installed)
             (lit "Type error: 'x' is not assignable")).
    + unfold MAX_REPAIR_ATTEMPTS. lia.
    + reflexivity.
    + reflexivity.
    + reflexivity.
    + reflexivity.
Defined.
